(** * Multi-provider completion gateway: routing, fallback, breaker, reranker

    A shallow embedding of the Python services

    - [services/fallback_handler.py]  (circuit breaker, fallback executor),
    - [services/provider_adapters.py] (request record, error taxonomy),
    - [services/model_registry.py] and [services/model_router.py],
    - [services/rag_reranker.py]      (BM25 reranker, prompt injection),

    together with the properties stated about them.

    Conventions of the embedding.
    - Python [int] is [Z]; wall-clock readings ([time.time()]) are
      rationals [Q]; the scores of the reranker, which go through
      [math.log], are real numbers [R] (floating-point rounding and NaN are
      outside the model).
    - Python [str] is [string]; the tokenizer and [lower()] are modelled on
      ASCII text.
    - A [dict] keyed by strings is a [gmap string _]; Python objects that are
      shared and mutated in place live in an explicit heap.
    - Code that raises returns a sum or an explicit [Raised] outcome. *)

From Stdlib Require Import ZArith QArith Reals Lra Lia Ascii String List Sorted Permutation.
From stdpp Require Import base option list strings pretty gmap.

Import ListNotations.
#[local] Open Scope string_scope.
#[local] Open Scope list_scope.
#[local] Open Scope Z_scope.

(** ** Circuit breaker ([fallback_handler.py], class [CircuitBreakerState]) *)

Module Breaker.

(** The [state] attribute holds one of the three strings
    ["closed"], ["open"], ["half_open"]. *)
Inductive BreakerState := closed | open | half_open.

#[global] Instance BreakerState_eq_dec : EqDecision BreakerState.
Proof. solve_decision. Defined.

Record CircuitBreakerState := mkBreaker {
  failure_threshold : Z;
  timeout_seconds : Z;
  half_open_attempts : Z;
  failure_count : Z;
  last_failure_time : option Q;
  state : BreakerState;
  opened_at : option Q
}.

(** [__init__]: defaults are threshold 5, timeout 60 s, one half-open
    attempt. *)
Definition init (threshold timeout attempts : Z) : CircuitBreakerState :=
  {| failure_threshold := threshold;
     timeout_seconds := timeout;
     half_open_attempts := attempts;
     failure_count := 0;
     last_failure_time := None;
     state := closed;
     opened_at := None |}.

Definition default : CircuitBreakerState := init 5 60 1.

(** [record_success]: the counter and the last failure time are cleared
    whatever the state; only a half-open breaker changes state. *)
Definition record_success (s : CircuitBreakerState) : CircuitBreakerState :=
  let s1 :=
    {| failure_threshold := failure_threshold s;
       timeout_seconds := timeout_seconds s;
       half_open_attempts := half_open_attempts s;
       failure_count := 0;
       last_failure_time := None;
       state := state s;
       opened_at := opened_at s |} in
  match state s1 with
  | half_open =>
      {| failure_threshold := failure_threshold s1;
         timeout_seconds := timeout_seconds s1;
         half_open_attempts := half_open_attempts s1;
         failure_count := failure_count s1;
         last_failure_time := last_failure_time s1;
         state := closed;
         opened_at := None |}
  | _ => s1
  end.

(** [record_failure], with [now] the reading of [time.time()] (the two
    readings of one call are taken at the same instant). *)
Definition record_failure (now : Q) (s : CircuitBreakerState) : CircuitBreakerState :=
  let s1 :=
    {| failure_threshold := failure_threshold s;
       timeout_seconds := timeout_seconds s;
       half_open_attempts := half_open_attempts s;
       failure_count := failure_count s + 1;
       last_failure_time := Some now;
       state := state s;
       opened_at := opened_at s |} in
  match state s1 with
  | closed =>
      if failure_threshold s1 <=? failure_count s1 then
        {| failure_threshold := failure_threshold s1;
           timeout_seconds := timeout_seconds s1;
           half_open_attempts := half_open_attempts s1;
           failure_count := failure_count s1;
           last_failure_time := last_failure_time s1;
           state := open;
           opened_at := Some now |}
      else s1
  | _ => s1
  end.

(** Exceptions of the breaker: [time.time() - None] is a [TypeError]. *)
Inductive BreakerError := TypeError.

(** [can_attempt]: the answer and the breaker after the call. *)
Definition can_attempt (now : Q) (s : CircuitBreakerState)
  : BreakerError + (bool * CircuitBreakerState) :=
  match state s with
  | closed => inr (true, s)
  | open =>
      match opened_at s with
      | None => inl TypeError
      | Some t =>
          if Qle_bool (inject_Z (timeout_seconds s)) (now - t) then
            inr (true,
                 {| failure_threshold := failure_threshold s;
                    timeout_seconds := timeout_seconds s;
                    half_open_attempts := half_open_attempts s;
                    failure_count := failure_count s;
                    last_failure_time := last_failure_time s;
                    state := half_open;
                    opened_at := opened_at s |})
          else inr (false, s)
      end
  | half_open => inr (true, s)
  end.

Definition get_state (s : CircuitBreakerState) : BreakerState := state s.

(** Operations an execution applies to one breaker.  The admin endpoint
    [POST /circuit-breakers/{provider}/reset] ([routers/observability.py])
    calls [record_success], so a reset is an [OpSuccess]. *)
Inductive Op :=
| OpSuccess
| OpFailure (now : Q)
| OpCanAttempt (now : Q).

Definition apply_op (o : Op) (s : CircuitBreakerState)
  : BreakerError + CircuitBreakerState :=
  match o with
  | OpSuccess => inr (record_success s)
  | OpFailure now => inr (record_failure now s)
  | OpCanAttempt now =>
      match can_attempt now s with
      | inl e => inl e
      | inr (_, s') => inr s'
      end
  end.

Fixpoint run (ops : list Op) (s : CircuitBreakerState)
  : BreakerError + CircuitBreakerState :=
  match ops with
  | [] => inr s
  | o :: ops' =>
      match apply_op o s with
      | inl e => inl e
      | inr s' => run ops' s'
      end
  end.

(** States reachable from a freshly constructed breaker. *)
Inductive reachable (b0 : CircuitBreakerState) : CircuitBreakerState -> Prop :=
| reach_init : reachable b0 b0
| reach_step s o s' :
    reachable b0 s -> apply_op o s = inr s' -> reachable b0 s'.

(** The same, where a success is only recorded on a breaker that is not
    open (what the executor does: it records a success after an attempt
    that [can_attempt] admitted). *)
Definition success_not_on_open (o : Op) (s : CircuitBreakerState) : Prop :=
  o = OpSuccess -> state s <> open.

Inductive reachable_guarded (b0 : CircuitBreakerState) : CircuitBreakerState -> Prop :=
| greach_init : reachable_guarded b0 b0
| greach_step s o s' :
    reachable_guarded b0 s -> success_not_on_open o s ->
    apply_op o s = inr s' -> reachable_guarded b0 s'.

(** The invariant of the specification, and its part about [opened_at]. *)
Definition open_invariant (s : CircuitBreakerState) : Prop :=
  state s = open -> opened_at s <> None /\ failure_threshold s <= failure_count s.

Definition opened_at_invariant (s : CircuitBreakerState) : Prop :=
  (state s = open -> opened_at s <> None) /\
  (state s = closed -> opened_at s = None).

End Breaker.

(** ** Provider adapters ([provider_adapters.py]) *)

(** Untyped payloads ([Any], [dict], [list]) of requests and messages. *)
#[local] Set Warnings "-register-all".
Inductive Value :=
| VNone
| VBool (b : bool)
| VInt (z : Z)
| VFloat (q : Q)
| VStr (s : string)
| VList (l : list Value)
| VDict (d : list (string * Value)).

(** [s[:n]] on strings, for [n >= 0]. *)
Definition str_take (n : nat) (s : string) : string := String.substring 0 n s.

Module Providers.

Record ProviderRequest := mkRequest {
  model : string;
  messages : list Value;
  temperature : option Q;
  max_tokens : option Z;
  top_p : option Q;
  frequency_penalty : option Q;
  presence_penalty : option Q;
  tools : option (list Value);
  tool_choice : option Value;
  response_format : option Value;
  stream : bool;
  metadata : option Value
}.

(** The assignment [request.model = model_id]. *)
Definition set_model (r : ProviderRequest) (model_id : string) : ProviderRequest :=
  {| model := model_id;
     messages := messages r;
     temperature := temperature r;
     max_tokens := max_tokens r;
     top_p := top_p r;
     frequency_penalty := frequency_penalty r;
     presence_penalty := presence_penalty r;
     tools := tools r;
     tool_choice := tool_choice r;
     response_format := response_format r;
     stream := stream r;
     metadata := metadata r |}.

Record ProviderResponse := mkResponse {
  content : option string;
  tool_calls : option (list Value);
  finish_reason : option string;
  usage : option (list (string * Z));
  raw_response : option Value
}.

(** [ProviderError]: an exception with a message, an optional status code
    and a taxonomy tag.  It has no other attribute. *)
Record ProviderError := mkProviderError {
  message : string;
  status_code : option Z;
  error_type : string
}.

(** [ProviderError.__init__]: [self.error_type = error_type or "unknown"]. *)
Definition ProviderError_init (msg : string) (status : option Z)
    (tag : option string) : ProviderError :=
  {| message := msg;
     status_code := status;
     error_type := match tag with
                   | None => "unknown"
                   | Some t => if decide (t = EmptyString) then "unknown" else t
                   end |}.

(** [ProviderAdapter._categorize_error]. *)
Definition _categorize_error (status_code : Z) : string :=
  if status_code =? 400 then "invalid_request"
  else if status_code =? 401 then "authentication"
  else if status_code =? 403 then "permission"
  else if status_code =? 404 then "not_found"
  else if status_code =? 408 then "timeout"
  else if status_code =? 429 then "rate_limit"
  else if (500 <=? status_code) && (status_code <? 600) then "server_error"
  else "unknown".

(** What one call of [adapter.complete(request)] under
    [asyncio.wait_for] does, as seen by the executor. *)
Inductive CompleteOutcome :=
| Completes (r : ProviderResponse)
| TimesOut
| RaisesProviderError (e : ProviderError)
| RaisesOther (msg : string).

(** What one iteration over [adapter.stream_complete(request)] does: the
    content deltas it yields, then how it ends. *)
Inductive StreamEnd :=
| StreamDone
| StreamProviderError (e : ProviderError)
| StreamOther (msg : string).

Record StreamOutcome := mkStream {
  chunks : list string;
  ending : StreamEnd
}.

End Providers.

(** ** Model registry ([model_registry.py]) *)

Module Registry.

Record ProviderConfig := mkProviderConfig {
  base_url : string;
  api_key_env : string;
  timeout : Z
}.

Record ModelSpec := mkModelSpec {
  id : string;
  provider : string;
  supports_tools : bool;
  supports_vision : bool;
  supports_json_schema : bool;
  max_context_tokens : Z;
  max_output_tokens : Z;
  reliability_tier : Z;
  cost_tier : Z;
  speed_tier : Z;
  tags : list string
}.

(** One primitive clause of a route predicate: a [dict] whose keys are
    looked up in a fixed order by [_evaluate_condition].  The values are
    taken to have the types the conditions compare them with: flags, an
    integer threshold, a pattern string.  (On a threshold that is no
    number or a pattern that is no string the code raises [TypeError].) *)
Record Clause := mkClause {
  c_has_code_block : option bool;
  c_has_attachments : option bool;
  c_rag_enabled : option bool;
  c_tools_enabled : option bool;
  c_response_format_required : option (option string);
  c_context_est_tokens_gt : option Z;
  c_contains_regex : option string
}.

Record RouteCondition := mkRouteCondition {
  always : option bool;
  any : option (list Clause);
  all : option (list Clause)
}.

Record RouteSpec := mkRouteSpec {
  name : string;
  when : RouteCondition;
  use_model : string;
  fallback_models : list string;
  timeout_ms : Z
}.

(** [ModelRegistryConfig] together with what the registry reads from its
    surroundings: the process environment and the application settings
    for the provider [openai]. *)
Record ModelRegistry := mkRegistry {
  providers : gmap string ProviderConfig;
  models : list ModelSpec;
  routes : list RouteSpec;
  environ : gmap string string;
  OPENAI_API_KEYS : list string;
  OPENAI_API_BASE_URLS : list string
}.

(** [models_by_id = {model.id: model for model in config.models}]: a later
    model with the same id replaces an earlier one. *)
Definition models_by_id (r : ModelRegistry) : gmap string ModelSpec :=
  foldl (fun m model => <[id model := model]> m) ∅ (models r).

Definition get_model (r : ModelRegistry) (model_id : string) : option ModelSpec :=
  models_by_id r !! model_id.

Definition get_provider_config (r : ModelRegistry) (p : string) : option ProviderConfig :=
  providers r !! p.

Definition get_routes (r : ModelRegistry) : list RouteSpec := routes r.

(** [str.lower()] on ASCII letters; other characters are left as they
    are.  It is used to compare a provider name with ["openai"], which
    only text of ASCII letters lowers to. *)
Definition lower_ascii (c : ascii) : ascii :=
  let n := nat_of_ascii c in
  if (Nat.leb 65 n && Nat.leb n 90)%bool then ascii_of_nat (n + 32) else c.

Fixpoint lower (s : string) : string :=
  match s with
  | EmptyString => EmptyString
  | String c s' => String (lower_ascii c) (lower s')
  end.

(** [get_api_key]: for [openai] the first configured application key, for
    the others (and for [openai] without one) the environment variable. *)
Definition get_api_key (r : ModelRegistry) (p : string) : option string :=
  match get_provider_config r p with
  | None => None
  | Some cfg =>
      match (if decide (lower p = "openai") then head (OPENAI_API_KEYS r) else None) with
      | Some k => Some k
      | None => environ r !! api_key_env cfg
      end
  end.

Definition get_base_url (r : ModelRegistry) (p : string) : option string :=
  match get_provider_config r p with
  | None => None
  | Some cfg =>
      match (if decide (lower p = "openai") then head (OPENAI_API_BASE_URLS r) else None) with
      | Some u => Some u
      | None => Some (base_url cfg)
      end
  end.

End Registry.

(** ** Fallback executor ([fallback_handler.py]) *)

Module Executor.
Import Providers Registry.

(** [models/observability.py], class [FallbackAttempt]. *)
Record FallbackAttempt := mkAttempt {
  attempt_n : Z;
  a_model_id : string;
  a_provider : string;
  a_status_code : option Z;
  a_error_type : option string;
  a_error_short : option string;
  latency_ms : Q
}.

(** *** The breaker manager: a [defaultdict(CircuitBreakerState)] *)

Abbreviation Breakers := (gmap string Breaker.CircuitBreakerState).

(** [self.breakers[provider]]: a missing key is inserted with a fresh
    breaker. *)
Definition get_breaker (p : string) (bs : Breakers)
  : Breaker.CircuitBreakerState * Breakers :=
  match bs !! p with
  | Some b => (b, bs)
  | None => (Breaker.default, <[p := Breaker.default]> bs)
  end.

Definition record_success (p : string) (bs : Breakers) : Breakers :=
  let '(b, bs1) := get_breaker p bs in
  <[p := Breaker.record_success b]> bs1.

Definition record_failure (p : string) (now : Q) (bs : Breakers) : Breakers :=
  let '(b, bs1) := get_breaker p bs in
  <[p := Breaker.record_failure now b]> bs1.

Definition can_attempt (p : string) (now : Q) (bs : Breakers)
  : Breaker.BreakerError + (bool * Breakers) :=
  let '(b, bs1) := get_breaker p bs in
  match Breaker.can_attempt now b with
  | inl e => inl e
  | inr (ok, b') => inr (ok, <[p := b']> bs1)
  end.

(** The failure counter of a provider, as the admin endpoint reads it. *)
Definition failures (p : string) (bs : Breakers) : Z :=
  Breaker.failure_count (fst (get_breaker p bs)).

(** *** The handler *)

(** A cached adapter: what [AdapterFactory.create] was given. *)
Record Adapter := mkAdapter {
  ad_base_url : string;
  ad_api_key : string;
  ad_timeout : Z
}.

Record FallbackHandler := mkHandler {
  registry : ModelRegistry;
  circuit_breaker : Breakers;
  adapters : gmap string Adapter
}.

Definition set_breakers (h : FallbackHandler) (bs : Breakers) : FallbackHandler :=
  {| registry := registry h; circuit_breaker := bs; adapters := adapters h |}.

(** [base_url.rstrip('/')]. *)
Fixpoint rstrip_slash (s : string) : string :=
  match s with
  | EmptyString => EmptyString
  | String c s' =>
      match rstrip_slash s' with
      | EmptyString => if Ascii.eqb c "/" then EmptyString else String c EmptyString
      | r => String c r
      end
  end.

(** [_get_adapter]: the cached adapter of the model's provider, created on
    first use; a [ValueError] (left) when the provider is not configured or
    has no API key. *)
Definition _get_adapter (h : FallbackHandler) (m : ModelSpec)
  : string + (Adapter * FallbackHandler) :=
  let p := provider m in
  match adapters h !! p with
  | Some a => inr (a, h)
  | None =>
      match get_provider_config (registry h) p with
      | None => inl ("Provider " +:+ p +:+ " not configured")
      | Some cfg =>
          match get_api_key (registry h) p with
          | None | Some EmptyString => inl ("API key not found for provider " +:+ p)
          | Some key =>
              let url := match get_base_url (registry h) p with
                         | None | Some EmptyString => base_url cfg
                         | Some u => u
                         end in
              let a := {| ad_base_url := rstrip_slash url;
                          ad_api_key := key;
                          ad_timeout := timeout cfg |} in
              inr (a, {| registry := registry h;
                         circuit_breaker := circuit_breaker h;
                         adapters := <[p := a]> (adapters h) |})
          end
      end
  end.

(** *** What the surroundings do during one execution

    For the candidate with ordinal [n] (1-based, as [enumerate(chain,
    start=1)] counts): the clock readings of the attempt and what the
    adapter does if it is invoked. *)
Record UnaryEnv := mkUnaryEnv {
  t_check : Q;      (* clock when the breaker is consulted *)
  t_start : Q;      (* [start_time] *)
  t_end : Q;        (* clock when the attempt has ended *)
  outcome : CompleteOutcome
}.

Record StreamEnv := mkStreamEnv {
  ts_check : Q;
  ts_end : Q;
  s_outcome : StreamOutcome
}.

(** Observable steps of an execution, in order. *)
Inductive Event :=
| EvMissing (model_id : string)                (* not in the registry *)
| EvRejected (model_id : string)               (* breaker refused *)
| EvAdmitted (model_id : string)               (* [request.model = model_id] *)
| EvNoAdapter (model_id : string)              (* [_get_adapter] raised *)
| EvComplete (model_id : string) (o : CompleteOutcome)  (* [adapter.complete] ran *)
| EvStreamOpened (model_id : string)           (* [adapter.stream_complete] ran *)
| EvYield (model_id : string) (chunk : string) (* a chunk reached the caller *)
| EvStreamEnded (model_id : string) (e : StreamEnd).

(** How a call ends. *)
Inductive Result (A : Type) :=
| Returned (a : A)
| RaisedProviderError (e : ProviderError)
| RaisedBreakerError (e : Breaker.BreakerError).
Arguments Returned {A} a.
Arguments RaisedProviderError {A} e.
Arguments RaisedBreakerError {A} e.

(** The state the loop of an executor threads: the handler, the caller's
    request object (mutated in place), the local [fallback_attempts], and
    the events so far. *)
Record LoopState := mkLoop {
  ls_handler : FallbackHandler;
  ls_request : ProviderRequest;
  ls_attempts : list FallbackAttempt;
  ls_trace : list Event
}.

Inductive Step (A : Type) :=
| Continue (ls : LoopState)
| Return (a : A) (ls : LoopState)
| Abort (e : Breaker.BreakerError) (ls : LoopState).
Arguments Continue {A} ls.
Arguments Return {A} a ls.
Arguments Abort {A} e ls.

Definition latency (env : UnaryEnv) : Q := ((t_end env - t_start env) * 1000)%Q.

Definition Z_to_string (z : Z) : string := pretty z.

(** The test of the [except ProviderError] branch of
    [execute_with_fallback]:
    [if e.status_code and e.status_code >= 500: ... elif e.error_type == "timeout": ...]. *)
Definition counts_toward_breaker (e : ProviderError) : bool :=
  match status_code e with
  | Some sc => if (negb (sc =? 0)) && (500 <=? sc) then true
               else if decide (error_type e = "timeout") then true else false
  | None => if decide (error_type e = "timeout") then true else false
  end.

(** An error as the adapter builds it from a response status:
    [ProviderError(message, status_code, self._categorize_error(status_code))]. *)
Definition categorized_error (msg : string) (sc : Z) : ProviderError :=
  ProviderError_init msg (Some sc) (Some (_categorize_error sc)).

(** The test of the [except ProviderError] branch of
    [stream_with_fallback]: [if e.status_code and e.status_code >= 500]. *)
Definition stream_counts_toward_breaker (e : ProviderError) : bool :=
  match status_code e with
  | Some sc => (negb (sc =? 0)) && (500 <=? sc)
  | None => false
  end.

Definition mk_attempt (n : Z) (model_id : string) (m : ModelSpec)
    (status : option Z) (tag short : option string) (lat : Q) : FallbackAttempt :=
  {| attempt_n := n; a_model_id := model_id; a_provider := provider m;
     a_status_code := status; a_error_type := tag; a_error_short := short;
     latency_ms := lat |}.

(** One turn of the loop of [execute_with_fallback], for the candidate
    [model_id] with ordinal [n]. *)
Definition attempt (env : UnaryEnv) (timeout_ms n : Z) (model_id : string)
    (ls : LoopState) : Step ProviderResponse :=
  let h := ls_handler ls in
  match get_model (registry h) model_id with
  | None =>
      Continue {| ls_handler := h; ls_request := ls_request ls;
                  ls_attempts := ls_attempts ls;
                  ls_trace := ls_trace ls ++ [EvMissing model_id] |}
  | Some m =>
      match can_attempt (provider m) (t_check env) (circuit_breaker h) with
      | inl e => Abort e ls
      | inr (false, bs) =>
          Continue {| ls_handler := set_breakers h bs;
                      ls_request := ls_request ls;
                      ls_attempts := ls_attempts ls ++
                        [mk_attempt n model_id m (Some 503)
                           (Some "circuit_breaker_open")
                           (Some "Circuit breaker is open") 0%Q];
                      ls_trace := ls_trace ls ++ [EvRejected model_id] |}
      | inr (true, bs) =>
          let h1 := set_breakers h bs in
          (* try: start_time = time.time(); request.model = model_id *)
          let req := set_model (ls_request ls) model_id in
          match _get_adapter h1 m with
          | inl msg =>
              (* ValueError, caught by [except Exception] *)
              Continue
                {| ls_handler := set_breakers h1
                     (record_failure (provider m) (t_end env) (circuit_breaker h1));
                   ls_request := req;
                   ls_attempts := ls_attempts ls ++
                     [mk_attempt n model_id m (Some 500) (Some "unknown")
                        (Some (str_take 200 msg)) (latency env)];
                   ls_trace := ls_trace ls ++
                     [EvAdmitted model_id; EvNoAdapter model_id] |}
          | inr (_, h2) =>
              let tr := ls_trace ls ++
                          [EvAdmitted model_id; EvComplete model_id (outcome env)] in
              match outcome env with
              | Completes r =>
                  Return r
                    {| ls_handler := set_breakers h2
                         (record_success (provider m) (circuit_breaker h2));
                       ls_request := req;
                       ls_attempts :=
                         if 1 <? n then
                           ls_attempts ls ++
                             [mk_attempt n model_id m (Some 200) None None (latency env)]
                         else ls_attempts ls;
                       ls_trace := tr |}
              | TimesOut =>
                  Continue
                    {| ls_handler := set_breakers h2
                         (record_failure (provider m) (t_end env) (circuit_breaker h2));
                       ls_request := req;
                       ls_attempts := ls_attempts ls ++
                         [mk_attempt n model_id m (Some 408) (Some "timeout")
                            (Some ("Request timeout after " +:+ Z_to_string timeout_ms +:+ "ms"))
                            (latency env)];
                       ls_trace := tr |}
              | RaisesProviderError e =>
                  Continue
                    {| ls_handler :=
                         if counts_toward_breaker e then
                           set_breakers h2
                             (record_failure (provider m) (t_end env) (circuit_breaker h2))
                         else h2;
                       ls_request := req;
                       ls_attempts := ls_attempts ls ++
                         [mk_attempt n model_id m (status_code e) (Some (error_type e))
                            (Some (str_take 200 (message e))) (latency env)];
                       ls_trace := tr |}
              | RaisesOther msg =>
                  Continue
                    {| ls_handler := set_breakers h2
                         (record_failure (provider m) (t_end env) (circuit_breaker h2));
                       ls_request := req;
                       ls_attempts := ls_attempts ls ++
                         [mk_attempt n model_id m (Some 500) (Some "unknown")
                            (Some (str_take 200 msg)) (latency env)];
                       ls_trace := tr |}
              end
          end
      end
  end.

(** The error raised after the loop of [execute_with_fallback]. *)
Definition all_fallbacks_failed : ProviderError :=
  ProviderError_init "All models in fallback chain failed" (Some 500)
    (Some "all_fallbacks_failed").

Definition all_fallbacks_failed_streaming : ProviderError :=
  ProviderError_init "All models in fallback chain failed for streaming" (Some 500)
    (Some "all_fallbacks_failed").

(** What a call leaves behind, next to how it ended: the final loop state
    holds the handler, the caller's request object, the local attempt list
    at the moment of exit and the events. *)
Definition Run (A : Type) : Type := (Result A * LoopState)%type.

(** [for attempt_n, model_id in enumerate(chain, start=n)]. *)
Fixpoint execute_loop (envs : Z -> UnaryEnv) (timeout_ms n : Z)
    (chain : list string) (ls : LoopState)
  : Run (ProviderResponse * list FallbackAttempt) :=
  match chain with
  | [] => (RaisedProviderError all_fallbacks_failed, ls)
  | model_id :: rest =>
      match attempt (envs n) timeout_ms n model_id ls with
      | Continue ls' => execute_loop envs timeout_ms (n + 1) rest ls'
      | Return r ls' => (Returned (r, ls_attempts ls'), ls')
      | Abort e ls' => (RaisedBreakerError e, ls')
      end
  end.

Definition start (h : FallbackHandler) (request : ProviderRequest) : LoopState :=
  {| ls_handler := h; ls_request := request; ls_attempts := []; ls_trace := [] |}.

Definition execute_with_fallback (envs : Z -> UnaryEnv) (h : FallbackHandler)
    (request : ProviderRequest) (primary_model_id : string)
    (fallback_model_ids : list string) (timeout_ms : Z)
  : Run (ProviderResponse * list FallbackAttempt) :=
  execute_loop envs timeout_ms 1 (primary_model_id :: fallback_model_ids)
    (start h request).

(** One turn of the loop of [stream_with_fallback].  The generator is
    driven to its end by the caller; every chunk of the adapter is handed
    on as it comes ([EvYield]). *)
Definition stream_attempt (env : StreamEnv) (n : Z) (model_id : string)
    (ls : LoopState) : Step unit :=
  let h := ls_handler ls in
  match get_model (registry h) model_id with
  | None =>
      Continue {| ls_handler := h; ls_request := ls_request ls;
                  ls_attempts := ls_attempts ls;
                  ls_trace := ls_trace ls ++ [EvMissing model_id] |}
  | Some m =>
      match can_attempt (provider m) (ts_check env) (circuit_breaker h) with
      | inl e => Abort e ls
      | inr (false, bs) =>
          Continue {| ls_handler := set_breakers h bs;
                      ls_request := ls_request ls;
                      ls_attempts := ls_attempts ls;
                      ls_trace := ls_trace ls ++ [EvRejected model_id] |}
      | inr (true, bs) =>
          let h1 := set_breakers h bs in
          let req := set_model (ls_request ls) model_id in
          match _get_adapter h1 m with
          | inl msg =>
              Continue
                {| ls_handler := set_breakers h1
                     (record_failure (provider m) (ts_end env) (circuit_breaker h1));
                   ls_request := req;
                   ls_attempts := ls_attempts ls;
                   ls_trace := ls_trace ls ++
                     [EvAdmitted model_id; EvNoAdapter model_id] |}
          | inr (_, h2) =>
              let o := s_outcome env in
              let tr := ls_trace ls ++
                          [EvAdmitted model_id; EvStreamOpened model_id] ++
                          map (EvYield model_id) (chunks o) ++
                          [EvStreamEnded model_id (ending o)] in
              match ending o with
              | StreamDone =>
                  Return tt
                    {| ls_handler := set_breakers h2
                         (record_success (provider m) (circuit_breaker h2));
                       ls_request := req;
                       ls_attempts := ls_attempts ls;
                       ls_trace := tr |}
              | StreamProviderError e =>
                  Continue
                    {| ls_handler :=
                         if stream_counts_toward_breaker e then
                           set_breakers h2
                             (record_failure (provider m) (ts_end env) (circuit_breaker h2))
                         else h2;
                       ls_request := req;
                       ls_attempts := ls_attempts ls;
                       ls_trace := tr |}
              | StreamOther msg =>
                  Continue
                    {| ls_handler := set_breakers h2
                         (record_failure (provider m) (ts_end env) (circuit_breaker h2));
                       ls_request := req;
                       ls_attempts := ls_attempts ls;
                       ls_trace := tr |}
              end
          end
      end
  end.

Fixpoint stream_loop (envs : Z -> StreamEnv) (n : Z)
    (chain : list string) (ls : LoopState) : Run unit :=
  match chain with
  | [] => (RaisedProviderError all_fallbacks_failed_streaming, ls)
  | model_id :: rest =>
      match stream_attempt (envs n) n model_id ls with
      | Continue ls' => stream_loop envs (n + 1) rest ls'
      | Return r ls' => (Returned r, ls')
      | Abort e ls' => (RaisedBreakerError e, ls')
      end
  end.

Definition stream_with_fallback (envs : Z -> StreamEnv) (h : FallbackHandler)
    (request : ProviderRequest) (primary_model_id : string)
    (fallback_model_ids : list string) (timeout_ms : Z) : Run unit :=
  stream_loop envs 1 (primary_model_id :: fallback_model_ids) (start h request).

(** *** Reading a trace *)

(** The chunks the caller of [stream_with_fallback] received, in order,
    each with the candidate it came from. *)
Definition yielded (tr : list Event) : list (string * string) :=
  omap (fun ev => match ev with
                  | EvYield m c => Some (m, c)
                  | _ => None
                  end) tr.

(** The candidates on which an adapter was invoked, in order. *)
Definition invoked (tr : list Event) : list string :=
  omap (fun ev => match ev with
                  | EvComplete m _ | EvStreamOpened m => Some m
                  | _ => None
                  end) tr.

(** The candidates that reached [request.model = model_id], in order. *)
Definition admitted (tr : list Event) : list string :=
  omap (fun ev => match ev with
                  | EvAdmitted m => Some m
                  | _ => None
                  end) tr.

(** Whether some adapter call of the trace returned a response. *)
Definition is_success (ev : Event) : bool :=
  match ev with
  | EvComplete _ (Completes _) => true
  | _ => false
  end.

Definition some_candidate_succeeded (tr : list Event) : bool :=
  existsb is_success tr.

(** The candidates invoked after the first chunk had reached the caller. *)
Fixpoint invoked_after_first_yield (tr : list Event) : list string :=
  match tr with
  | [] => []
  | EvYield _ _ :: rest => invoked rest
  | _ :: rest => invoked_after_first_yield rest
  end.

(** The request object after a run that went through the events [tr],
    when it was [req] at call time: its [model] is the last admitted
    candidate, if there is one. *)
Definition expected_request (req : ProviderRequest) (tr : list Event) : ProviderRequest :=
  match last (admitted tr) with
  | Some model_id => set_model req model_id
  | None => req
  end.

Definition step_state {A : Type} (s : Step A) : LoopState :=
  match s with
  | Continue ls | Return _ ls | Abort _ ls => ls
  end.

Definition has_opening_time (b : Breaker.CircuitBreakerState) : Prop :=
  Breaker.state b = Breaker.open -> Breaker.opened_at b <> None.

(** Breakers on which [can_attempt] cannot raise. *)
Definition breakers_wf (bs : Breakers) : Prop :=
  forall p b, bs !! p = Some b ->
    Breaker.state b = Breaker.open -> Breaker.opened_at b <> None.

End Executor.

(** ** Python's stable [list.sort] *)

(** [l.sort(key=...)] is stable; so is [l.sort(key=..., reverse=True)]:
    elements with equal keys keep their order in both.  [leb x y] says that
    [x] may stand before [y]. *)
Section StableSort.
Context {A : Type} (leb : A -> A -> bool).

Fixpoint insert_by (x : A) (l : list A) : list A :=
  match l with
  | [] => [x]
  | y :: l' => if leb x y then x :: y :: l' else y :: insert_by x l'
  end.

Fixpoint sort_by (l : list A) : list A :=
  match l with
  | [] => []
  | x :: l' => insert_by x (sort_by l')
  end.
End StableSort.

(** ** Model router ([model_router.py]) *)

Module Router.
Import Registry.

Record RoutingContext := mkContext {
  last_user_message : string;
  rc_messages : list Value;
  has_code_block : bool;
  has_attachments : bool;
  rag_enabled : bool;
  estimated_context_tokens : Z;
  tools_enabled : bool;
  response_format_required : option string
}.

Record RoutingDecision := mkDecision {
  primary_model_id : string;
  fallback_model_ids : list string;
  route_name : string;
  route_reason : string;
  d_timeout_ms : Z
}.

(** [route] raises [IndexError] when it reaches [config.models[0]] on an
    empty model list. *)
Inductive RouterError := IndexError.

(** [_validate_capabilities]. *)
Definition _validate_capabilities (m : ModelSpec) (ctx : RoutingContext) : bool :=
  if tools_enabled ctx && negb (supports_tools m) then false
  else if bool_decide (response_format_required ctx = Some "json_schema")
          && negb (supports_json_schema m) then false
  else if max_context_tokens m <? estimated_context_tokens ctx then false
  else true.

(** Order on the sort keys, tuples of three integers. *)
Definition key_leb (a b : Z * Z * Z) : bool :=
  let '(a1, a2, a3) := a in
  let '(b1, b2, b3) := b in
  (a1 <? b1) || ((a1 =? b1) && ((a2 <? b2) || ((a2 =? b2) && (a3 <=? b3)))).

(** [lambda m: (-m.reliability_tier, -m.speed_tier, m.cost_tier)]. *)
Definition fallback_key (m : ModelSpec) : Z * Z * Z :=
  (- reliability_tier m, - speed_tier m, cost_tier m).

(** [lambda m: (-m.speed_tier, m.cost_tier, -m.reliability_tier)]. *)
Definition default_key (m : ModelSpec) : Z * Z * Z :=
  (- speed_tier m, cost_tier m, - reliability_tier m).

(** [", ".join(reasons)]. *)
Fixpoint join (sep : string) (l : list string) : string :=
  match l with
  | [] => EmptyString
  | [x] => x
  | x :: l' => x +:+ sep +:+ join sep l'
  end.

Definition truthy_str (o : option string) : bool :=
  match o with
  | None | Some EmptyString => false
  | Some _ => true
  end.

(** [_build_route_reason]. *)
Definition _build_route_reason (route : RouteSpec) (ctx : RoutingContext) : string :=
  let reasons :=
    (if has_code_block ctx then ["code blocks detected"] else []) ++
    (if rag_enabled ctx then ["RAG enabled"] else []) ++
    (if tools_enabled ctx then ["tools required"] else []) ++
    (if truthy_str (response_format_required ctx)
     then [default EmptyString (response_format_required ctx) +:+ " format required"]
     else []) ++
    (if 12000 <? estimated_context_tokens ctx
     then ["long context (" +:+ pretty (estimated_context_tokens ctx) +:+ " tokens)"]
     else []) in
  match reasons with
  | [] => "Route '" +:+ name route +:+ "' matched"
  | _ => "Route '" +:+ name route +:+ "': " +:+ join ", " reasons
  end.

Section WithRegex.
(** [re.search(pattern, text, re.IGNORECASE)] as a truth value; [None]
    when the pattern does not compile ([re.error]). *)
Variable re_search : string -> string -> option bool.

(** [_evaluate_condition]: the first key present decides. *)
Definition _evaluate_condition (c : Clause) (ctx : RoutingContext) : bool :=
  match c_has_code_block c with
  | Some v => bool_decide (has_code_block ctx = v)
  | None =>
  match c_has_attachments c with
  | Some v => bool_decide (has_attachments ctx = v)
  | None =>
  match c_rag_enabled c with
  | Some v => bool_decide (rag_enabled ctx = v)
  | None =>
  match c_tools_enabled c with
  | Some v => bool_decide (tools_enabled ctx = v)
  | None =>
  match c_response_format_required c with
  | Some v => bool_decide (response_format_required ctx = v)
  | None =>
  match c_context_est_tokens_gt c with
  | Some v => v <? estimated_context_tokens ctx
  | None =>
  match c_contains_regex c with
  | Some pattern => default false (re_search pattern (last_user_message ctx))
  | None => false
  end end end end end end end.

(** [_matches_route]. *)
Definition _matches_route (route : RouteSpec) (ctx : RoutingContext) : bool :=
  let condition := when route in
  match always condition with
  | Some true => true
  | _ =>
      match any condition with
      | Some (c :: cs) => existsb (fun c => _evaluate_condition c ctx) (c :: cs)
      | _ =>
          match all condition with
          | Some (c :: cs) => forallb (fun c => _evaluate_condition c ctx) (c :: cs)
          | _ => false
          end
      end
  end.

(** [_resolve_fallback_chain]. *)
Definition _resolve_fallback_chain (reg : ModelRegistry)
    (fallback_ids : list string) (ctx : RoutingContext) : list string :=
  List.filter (fun model_id =>
                 match get_model reg model_id with
                 | Some m => _validate_capabilities m ctx
                 | None => false
                 end) fallback_ids.

(** [_get_fallback_models]. *)
Definition _get_fallback_models (reg : ModelRegistry) (primary : ModelSpec)
    (ctx : RoutingContext) : list string :=
  let candidates :=
    List.filter (fun m => negb (String.eqb (id m) (id primary))
                          && _validate_capabilities m ctx)
                (models reg) in
  let sorted := sort_by (fun a b => key_leb (fallback_key a) (fallback_key b)) candidates in
  map id (take 3 sorted).

(** [_get_default_route]. *)
Definition _get_default_route (reg : ModelRegistry) (ctx : RoutingContext)
  : RouterError + RoutingDecision :=
  let candidates :=
    List.filter (fun m => _validate_capabilities m ctx) (models reg) in
  match candidates with
  | [] =>
      match models reg with
      | [] => inl IndexError
      | first_model :: _ =>
          inr {| primary_model_id := id first_model;
                 fallback_model_ids := [];
                 route_name := "fallback_no_match";
                 route_reason := "No models meet all requirements";
                 d_timeout_ms := 30000 |}
      end
  | _ =>
      match sort_by (fun a b => key_leb (default_key a) (default_key b)) candidates with
      | [] => inl IndexError
      | primary :: rest =>
          inr {| primary_model_id := id primary;
                 fallback_model_ids := map id (take 3 rest);
                 route_name := "default";
                 route_reason := "Default routing: fast and cost-effective";
                 d_timeout_ms := 30000 |}
      end
  end.

(** The loop of [route] over the configured routes. *)
Fixpoint route_rules (reg : ModelRegistry) (ctx : RoutingContext)
    (rs : list RouteSpec) : option RoutingDecision :=
  match rs with
  | [] => None
  | r :: rs' =>
      if _matches_route r ctx then
        match get_model reg (use_model r) with
        | Some pm =>
            if _validate_capabilities pm ctx then
              Some {| primary_model_id := use_model r;
                      fallback_model_ids :=
                        _resolve_fallback_chain reg (fallback_models r) ctx;
                      route_name := name r;
                      route_reason := _build_route_reason r ctx;
                      d_timeout_ms := timeout_ms r |}
            else route_rules reg ctx rs'
        | None => route_rules reg ctx rs'
        end
      else route_rules reg ctx rs'
  end.

Definition route_without_override (reg : ModelRegistry) (ctx : RoutingContext)
  : RouterError + RoutingDecision :=
  match route_rules reg ctx (get_routes reg) with
  | Some d => inr d
  | None => _get_default_route reg ctx
  end.

(** [route]. *)
Definition route (reg : ModelRegistry) (ctx : RoutingContext)
    (user_model_override : option string) : RouterError + RoutingDecision :=
  match user_model_override with
  | Some (String c o' as o) =>
      match get_model reg o with
      | Some m =>
          if _validate_capabilities m ctx then
            inr {| primary_model_id := o;
                   fallback_model_ids := _get_fallback_models reg m ctx;
                   route_name := "user_override";
                   route_reason := "User selected " +:+ o;
                   d_timeout_ms := 60000 |}
          else route_without_override reg ctx
      | None => route_without_override reg ctx
      end
  | _ => route_without_override reg ctx
  end.
End WithRegex.

(** A model id passes capability validation when the model it resolves to
    in the registry does. *)
Definition passes (reg : ModelRegistry) (ctx : RoutingContext) (model_id : string) : Prop :=
  exists m, get_model reg model_id = Some m /\ _validate_capabilities m ctx = true.

Definition all_pass (reg : ModelRegistry) (ctx : RoutingContext) (d : RoutingDecision) : Prop :=
  passes reg ctx (primary_model_id d) /\
  Forall (passes reg ctx) (fallback_model_ids d).

(** Some registered model is feasible for the context. *)
Definition feasible (reg : ModelRegistry) (ctx : RoutingContext) : Prop :=
  exists m, m ∈ models reg /\ _validate_capabilities m ctx = true.

Definition unique_ids (reg : ModelRegistry) : Prop := NoDup (map id (models reg)).

End Router.

(** ** Reranker ([rag_reranker.py]) *)

Module Reranker.

Record RAGChunk := mkChunk {
  doc_id : string;
  doc_title : option string;
  doc_path : option string;
  chunk_id : string;
  content : string;
  vector_score : R;
  metadata : option Value
}.

Record RankedChunk := mkRanked {
  chunk : RAGChunk;
  rc_vector_score : R;
  rerank_score : R;
  final_score : R;
  preview : string
}.

Record RerankerResult := mkResult {
  ranked_chunks : list RankedChunk;
  reranker_type : string;
  rerank_latency_ms : Q
}.

(** The parameters of [LexicalReranker.__init__]. *)
Record LexicalReranker := mkReranker {
  k1 : R;
  b : R;
  vector_weight : R;
  lexical_weight : R
}.

Definition default_reranker : LexicalReranker :=
  {| k1 := 1.5; b := 0.75; vector_weight := 0.3; lexical_weight := 0.7 |}.

(** *** Tokenizer: [re.findall(r'\b\w+\b', text.lower())] *)

(** [\w] on ASCII: letters, digits and the underscore. *)
Definition is_word (c : ascii) : bool :=
  let n := nat_of_ascii c in
  (Nat.leb 48 n && Nat.leb n 57) || (Nat.leb 65 n && Nat.leb n 90) ||
  (Nat.leb 97 n && Nat.leb n 122) || Nat.eqb n 95.

Definition flush (cur : list ascii) : list string :=
  match cur with
  | [] => []
  | _ => [string_of_list_ascii cur]
  end.

(** The maximal runs of word characters, left to right; [cur] is the run
    being read. *)
Fixpoint split_words (s : string) (cur : list ascii) : list string :=
  match s with
  | EmptyString => flush cur
  | String c s' =>
      if is_word c then split_words s' (cur ++ [c])
      else flush cur ++ split_words s' []
  end.

Definition _tokenize (text : string) : list string :=
  split_words (Registry.lower text) [].

(** *** [collections.Counter] and [dict]: keys in order of first insertion *)

Fixpoint dict_get {V : Type} (k : string) (d : list (string * V)) : option V :=
  match d with
  | [] => None
  | (k', v) :: d' => if String.eqb k k' then Some v else dict_get k d'
  end.

(** [d[k] = v]. *)
Fixpoint dict_set {V : Type} (k : string) (v : V) (d : list (string * V))
  : list (string * V) :=
  match d with
  | [] => [(k, v)]
  | (k', v') :: d' =>
      if String.eqb k k' then (k', v) :: d' else (k', v') :: dict_set k v d'
  end.

Definition Counter (tokens : list string) : list (string * nat) :=
  foldl (fun d t => dict_set t (S (default 0%nat (dict_get t d))) d) [] tokens.

Definition keys {V : Type} (d : list (string * V)) : list string := map fst d.
Definition values {V : Type} (d : list (string * V)) : list V := map snd d.

(** [sum(xs)] on floats. *)
Definition Rsum (xs : list R) : R := foldl Rplus 0%R xs.

Definition Rleb (x y : R) : bool := if Rle_dec x y then true else false.
Definition Rltb (x y : R) : bool := if Rlt_dec x y then true else false.

(** [term in self._tokenize(chunk.content)]. *)
Definition contains_term (term : string) (c : RAGChunk) : bool :=
  existsb (String.eqb term) (_tokenize (content c)).

(** [_calculate_idf]. *)
Definition idf_of (N doc_count : nat) : R :=
  match doc_count with
  | O => 0%R
  | _ => ln ((INR N - INR doc_count + 0.5) / (INR doc_count + 0.5))
  end.

Definition _calculate_idf (query_terms : list string) (chunks : list RAGChunk)
  : list (string * R) :=
  let N := length chunks in
  foldl (fun idf_scores term =>
           let doc_count := length (List.filter (contains_term term) chunks) in
           dict_set term (idf_of N doc_count) idf_scores)
        [] query_terms.

(** [_bm25_score], on real numbers.  Division is that of the reals; the
    code raises [ZeroDivisionError] where a denominator [tf + k1 * norm]
    is 0, which cannot be for [k1 >= 0] and [0 <= b <= 1]. *)
Definition _bm25_score (self : LexicalReranker) (query_term_freq : list (string * nat))
    (document : string) (doc_length : nat) (avg_doc_length : R)
    (idf_scores : list (string * R)) : R :=
  let doc_term_freq := Counter (_tokenize document) in
  let score :=
    foldl (fun score '(term, query_freq) =>
             match dict_get term doc_term_freq with
             | None => score
             | Some tf =>
                 let norm :=
                   if Rltb 0 avg_doc_length
                   then (1 - b self + b self * (INR doc_length / avg_doc_length))%R
                   else 1%R in
                 let term_score :=
                   (default 0%R (dict_get term idf_scores) *
                    (INR tf * (k1 self + 1)) /
                    (INR tf + k1 self * norm))%R in
                 (score + term_score)%R
             end)
          0%R query_term_freq in
  let max_score := (Rsum (values idf_scores) * (k1 self + 1))%R in
  if Rltb 0 max_score then Rmin (score / max_score) 1 else score.

(** [content[:400]], with ["..."] appended when the content is longer;
    lengths count the characters of ASCII content. *)
Definition make_preview (content : string) : string :=
  let p := str_take 400 content in
  if Nat.ltb 400 (String.length content) then p +:+ "..." else p.

(** [l[:k]] for a Python integer [k]. *)
Definition py_take {A : Type} (k : Z) (l : list A) : list A :=
  if 0 <=? k then take (Z.to_nat k) l
  else take (Z.to_nat (Z.of_nat (length l) + k)) l.

(** [rerank]; [t_start] and [t_end] are the two clock readings.  The
    scores are real numbers, which [list.sort] orders totally (a float
    that is no number is left out of account). *)
Definition rerank (self : LexicalReranker) (t_start t_end : Q)
    (query : string) (chunks : list RAGChunk) (top_k : option Z) : RerankerResult :=
  match chunks with
  | [] => {| ranked_chunks := []; reranker_type := "lexical_bm25";
             rerank_latency_ms := 0%Q |}
  | _ =>
      let query_tokens := _tokenize query in
      let query_term_freq := Counter query_tokens in
      let doc_lengths := map (fun c => length (_tokenize (content c))) chunks in
      let avg_doc_length :=
        (INR (foldl Nat.add 0%nat doc_lengths) / INR (length doc_lengths))%R in
      let idf_scores := _calculate_idf (keys query_term_freq) chunks in
      let ranked :=
        map (fun '(c, doc_length) =>
               let lexical_score :=
                 _bm25_score self query_term_freq (content c) doc_length
                             avg_doc_length idf_scores in
               let normalized_vector := vector_score c in
               let final :=
                 (vector_weight self * normalized_vector +
                  lexical_weight self * lexical_score)%R in
               {| chunk := c;
                  rc_vector_score := vector_score c;
                  rerank_score := lexical_score;
                  final_score := final;
                  preview := make_preview (content c) |})
            (zip chunks doc_lengths) in
      (* ranked.sort(key=lambda x: x.final_score, reverse=True) *)
      let ranked := sort_by (fun x y => Rleb (final_score y) (final_score x)) ranked in
      (* if top_k: ranked = ranked[:top_k] *)
      let ranked :=
        match top_k with
        | None => ranked
        | Some k => if k =? 0 then ranked else py_take k ranked
        end in
      {| ranked_chunks := ranked; reranker_type := "lexical_bm25";
         rerank_latency_ms := ((t_end - t_start) * 1000)%Q |}
  end.

(** Sorted by [final_score], highest first. *)
Definition sorted_desc (l : list RankedChunk) : Prop :=
  Sorted (fun x y => (final_score y <= final_score x)%R) l.

End Reranker.

(** ** Prompt injection ([rag_reranker.py], [inject_chunks_into_prompt]) *)

(** The caller's [messages] is a Python list of [dict] objects.  Lists and
    dicts are heap objects reached through references, so that a copy of
    the list still shares its dicts with the original. *)
Module Injection.
Import Reranker.

Abbreviation loc := nat.

Inductive Obj :=
| OList (items : list loc)
| ODict (fields : gmap string Value).

Abbreviation Heap := (list Obj).

Definition alloc (h : Heap) (o : Obj) : loc * Heap := (length h, h ++ [o]).

Definition read_list (h : Heap) (l : loc) : option (list loc) :=
  match h !! l with
  | Some (OList items) => Some items
  | _ => None
  end.

Definition read_dict (h : Heap) (l : loc) : option (gmap string Value) :=
  match h !! l with
  | Some (ODict fields) => Some fields
  | _ => None
  end.

(** What a holder of the list reference [l] sees: the dicts of the list,
    in order. *)
Definition view (h : Heap) (l : loc) : option (list (gmap string Value)) :=
  items ← read_list h l;
  mapM (read_dict h) items.

Definition nl : string := String (ascii_of_nat 10) EmptyString.

Section WithRepr.
(** [str(v)] for a value that is not a string, as an f-string renders
    it. *)
Variable repr : Value -> string.

Definition py_str (v : Value) : string :=
  match v with
  | VStr s => s
  | _ => repr v
  end.

(** ["\n".join(context_parts)], the parts numbered from [i]. *)
Fixpoint context_parts (i : Z) (ranked : list RankedChunk) : list string :=
  match ranked with
  | [] => []
  | rc :: rest =>
      let c := chunk rc in
      let title := match doc_title c with
                   | None | Some EmptyString => doc_id c
                   | Some t => t
                   end in
      ("[Source " +:+ pretty i +:+ ": " +:+ title +:+ "]" +:+ nl +:+
       content c +:+ nl) :: context_parts (i + 1) rest
  end.

Definition injection_content (ranked : list RankedChunk) : string :=
  "You have access to the following relevant information from the knowledge base. " +:+
  "Use this context to provide accurate and grounded responses:" +:+ nl +:+ nl +:+
  Router.join nl (context_parts 1 ranked).

(** The loop of the ["user"] strategy: the first dict whose role is
    ["user"] gets its ["content"] replaced, in place. *)
(** [msg.get("role") == "user"]. *)
Definition is_user (fields : gmap string Value) : bool :=
  match fields !! "role" with
  | Some (VStr r) => String.eqb r "user"
  | _ => false
  end.

Fixpoint inject_first_user (h : Heap) (inj : string) (items : list loc)
  : option Heap :=
  match items with
  | [] => Some h
  | l :: rest =>
      match read_dict h l with
      | None => None           (* [msg.get] on something that is no dict *)
      | Some fields =>
          if is_user fields then
            let original_content := default (VStr EmptyString) (fields !! "content") in
            let text := inj +:+ nl +:+ nl +:+ "---" +:+ nl +:+ nl +:+
                        "User question: " +:+ py_str original_content in
            Some (<[l := ODict (<["content" := VStr text]> fields)]> h)
          else inject_first_user h inj rest
      end
  end.

(** [inject_chunks_into_prompt]: the heap after the call and the
    reference it returns; [None] when [messages] is not a list of
    dicts. *)
Definition inject_chunks_into_prompt (h : Heap) (messages : loc)
    (ranked_chunks : list RankedChunk) (injection_strategy : string)
  : option (Heap * loc) :=
  match ranked_chunks with
  | [] => Some (h, messages)
  | _ =>
      let inj := injection_content ranked_chunks in
      items ← read_list h messages;
      (* modified_messages = messages.copy() *)
      let '(modified, h1) := alloc h (OList items) in
      if decide (injection_strategy = "system") then
        let '(sys, h2) :=
          alloc h1 (ODict (<["role" := VStr "system"]>
                             (<["content" := VStr inj]> ∅))) in
        Some (<[modified := OList (sys :: items)]> h2, modified)
      else if decide (injection_strategy = "user") then
        h2 ← inject_first_user h1 inj items;
        Some (h2, modified)
      else Some (h1, modified)
  end.
End WithRepr.

End Injection.

(** ** Registry queries ([model_registry.py]) *)

Module RegistryQueries.
Import Registry.

(** The loop of [load_config] that builds [models_by_provider]: a list per
    provider, each model appended to the list of its provider. *)
Definition models_by_provider (r : ModelRegistry) : gmap string (list ModelSpec) :=
  foldl (fun d model =>
           let d1 := match d !! provider model with
                     | Some _ => d
                     | None => <[provider model := []]> d
                     end in
           <[provider model := default [] (d1 !! provider model) ++ [model]]> d1)
        ∅ (models r).

(** [get_models_by_provider]: [self.models_by_provider.get(provider, [])]. *)
Definition get_models_by_provider (r : ModelRegistry) (p : string) : list ModelSpec :=
  default [] (models_by_provider r !! p).

(** [validate_model_exists]: [model_id in self.models_by_id]. *)
Definition validate_model_exists (r : ModelRegistry) (model_id : string) : bool :=
  bool_decide (is_Some (models_by_id r !! model_id)).

End RegistryQueries.

(** ** The adapter base class and its two subclasses ([provider_adapters.py]) *)

Module Adapters.
Import Providers.

(** Python truthiness of a payload value. *)
Definition truthy (v : Value) : bool :=
  match v with
  | VNone => false
  | VBool b => b
  | VInt z => negb (z =? 0)
  | VFloat q => negb (Qeq_bool q 0)
  | VStr s => negb (String.eqb s EmptyString)
  | VList l => match l with [] => false | _ => true end
  | VDict d => match d with [] => false | _ => true end
  end.

(** [if x is not None: payload[key] = x]. *)
Definition put_if_set (key : string) (x : option Value) (payload : list (string * Value))
  : list (string * Value) :=
  match x with
  | Some v => Reranker.dict_set key v payload
  | None => payload
  end.

(** [if x: payload[key] = x]. *)
Definition put_if_truthy (key : string) (x : option Value) (payload : list (string * Value))
  : list (string * Value) :=
  match x with
  | Some v => if truthy v then Reranker.dict_set key v payload else payload
  | None => payload
  end.

(** [OpenAIAdapter.prepare_request]. *)
Definition openai_prepare_request (request : ProviderRequest) : list (string * Value) :=
  let payload := [("model", VStr (model request));
                  ("messages", VList (messages request));
                  ("stream", VBool (stream request))] in
  let payload := put_if_set "temperature" (VFloat <$> temperature request) payload in
  let payload := put_if_set "max_tokens" (VInt <$> max_tokens request) payload in
  let payload := put_if_set "top_p" (VFloat <$> top_p request) payload in
  let payload := put_if_set "frequency_penalty" (VFloat <$> frequency_penalty request) payload in
  let payload := put_if_set "presence_penalty" (VFloat <$> presence_penalty request) payload in
  let payload := put_if_truthy "tools" (VList <$> tools request) payload in
  let payload := put_if_truthy "tool_choice" (tool_choice request) payload in
  let payload := put_if_truthy "response_format" (response_format request) payload in
  payload.

(** [DeepSeekAdapter.prepare_request]. *)
Definition deepseek_prepare_request (request : ProviderRequest) : list (string * Value) :=
  let payload := [("model", VStr (model request));
                  ("messages", VList (messages request));
                  ("stream", VBool (stream request))] in
  let payload := put_if_set "temperature" (VFloat <$> temperature request) payload in
  let payload := put_if_set "max_tokens" (VInt <$> max_tokens request) payload in
  let payload := put_if_set "top_p" (VFloat <$> top_p request) payload in
  let payload := put_if_set "frequency_penalty" (VFloat <$> frequency_penalty request) payload in
  let payload := put_if_set "presence_penalty" (VFloat <$> presence_penalty request) payload in
  let payload := put_if_truthy "tools" (VList <$> tools request) payload in
  let payload := put_if_truthy "tool_choice" (tool_choice request) payload in
  let payload := put_if_truthy "response_format" (response_format request) payload in
  payload.

(** The abstract methods of [ProviderAdapter], and its [timeout]
    attribute.  A method that raises gives the text of its exception on
    the left. *)
Record ProviderAdapter := mkProviderAdapter {
  prepare_request : ProviderRequest -> list (string * Value);
  parse_response : Value -> string + ProviderResponse;
  parse_stream_chunk : Value -> string + option string;
  timeout : Z
}.

(** What [self.client.post] gives: a response, whose [json()] is the
    parsed body or raises, or one of the exceptions [complete] tells
    apart. *)
Record HttpResponse := mkHttpResponse {
  status_code : Z;
  text : string;
  json : string + Value
}.

Inductive Raised :=
| RaisedTimeoutException (msg : string)         (* [httpx.TimeoutException] *)
| RaisedHTTPError (msg : string)                (* another [httpx.HTTPError] *)
| RaisedProvider (e : ProviderError)            (* [ProviderError] *)
| RaisedException (msg : string).               (* any other [Exception] *)

Inductive PostOutcome :=
| Responds (r : HttpResponse)
| Fails (e : Raised).

(** [str(e)]: the message of the exception. *)
Definition str_of_raised (e : Raised) : string :=
  match e with
  | RaisedTimeoutException msg | RaisedHTTPError msg | RaisedException msg => msg
  | RaisedProvider pe => message pe
  end.

Section WithPython.
(** Texts that come from the interpreter: [str(v)] of a value that is no
    string, and the message of the [AttributeError] of [v.get]. *)
Variable repr : Value -> string.
Variable attribute_error : Value -> string.

(** [v.get(key, default)]. *)
Definition py_get (v : Value) (key : string) (dflt : Value) : string + Value :=
  match v with
  | VDict d => inr (default dflt (Reranker.dict_get key d))
  | _ => inl (attribute_error v)
  end.

Definition py_str (v : Value) : string :=
  match v with
  | VStr s => s
  | _ => repr v
  end.

(** The [try] block of [complete]: what it returns or raises. *)
Definition complete_try (self : ProviderAdapter) (request : ProviderRequest)
    (post : PostOutcome) (latency_ms : Q) : Raised + ProviderResponse :=
  match post with
  | Fails e => inl e
  | Responds response =>
      if negb (status_code response =? 200) then
        match (if String.eqb (text response) EmptyString
               then inr (VDict []) else json response) with
        | inl msg => inl (RaisedException msg)
        | inr error_data =>
            match py_get error_data "error" (VDict []) with
            | inl msg => inl (RaisedException msg)
            | inr err =>
                match py_get err "message" (VStr (text response)) with
                | inl msg => inl (RaisedException msg)
                | inr error_message =>
                    inl (RaisedProvider
                           (ProviderError_init (py_str error_message)
                              (Some (status_code response))
                              (Some (_categorize_error (status_code response)))))
                end
            end
        end
      else
        match json response with
        | inl msg => inl (RaisedException msg)
        | inr response_data =>
            match parse_response self response_data with
            | inl msg => inl (RaisedException msg)
            | inr provider_response =>
                inr {| content := content provider_response;
                       tool_calls := tool_calls provider_response;
                       finish_reason := finish_reason provider_response;
                       usage := usage provider_response;
                       raw_response := Some (VDict [("latency_ms", VFloat latency_ms)]) |}
            end
        end
  end.

(** The [except] clauses of [complete], in their order:
    [httpx.TimeoutException], [httpx.HTTPError], [Exception].  A
    [ProviderError] raised in the [try] block is an [Exception]. *)
Definition complete_except (self : ProviderAdapter) (e : Raised) : ProviderError :=
  match e with
  | RaisedTimeoutException _ =>
      ProviderError_init ("Request timeout after " +:+ pretty (timeout self) +:+ "s")
        (Some 408) (Some "timeout")
  | RaisedHTTPError msg => ProviderError_init msg (Some 500) (Some "network")
  | RaisedProvider _ | RaisedException _ =>
      ProviderError_init (str_of_raised e) (Some 500) (Some "unknown")
  end.

(** [ProviderAdapter.complete]. *)
Definition complete (self : ProviderAdapter) (request : ProviderRequest)
    (post : PostOutcome) (latency_ms : Q) : ProviderError + ProviderResponse :=
  match complete_try self request post latency_ms with
  | inl e => inl (complete_except self e)
  | inr r => inr r
  end.

(** What the executor sees of [asyncio.wait_for(adapter.complete(request),
    timeout)]: the deadline passes ([None]) or [complete] ends. *)
Definition awaited_complete (self : ProviderAdapter) (request : ProviderRequest)
    (waited : option (PostOutcome * Q)) : CompleteOutcome :=
  match waited with
  | None => TimesOut
  | Some (post, latency_ms) =>
      match complete self request post latency_ms with
      | inl e => RaisesProviderError e
      | inr r => Completes r
      end
  end.
End WithPython.

(** *** Streaming *)

(** [str.startswith], [s[n:]] and [str.strip] on ASCII text. *)
Fixpoint startswith (prefix s : string) : bool :=
  match prefix, s with
  | EmptyString, _ => true
  | String a prefix', String c s' => Ascii.eqb a c && startswith prefix' s'
  | String _ _, EmptyString => false
  end.

Fixpoint str_drop (n : nat) (s : string) : string :=
  match n, s with
  | O, _ => s
  | S n', String _ s' => str_drop n' s'
  | S _, EmptyString => EmptyString
  end.

Definition is_space (c : ascii) : bool :=
  let n := nat_of_ascii c in
  (Nat.leb 9 n && Nat.leb n 13) || (Nat.leb 28 n && Nat.leb n 32).

Fixpoint lstrip (s : string) : string :=
  match s with
  | String c s' => if is_space c then lstrip s' else s
  | EmptyString => EmptyString
  end.

Fixpoint rstrip (s : string) : string :=
  match s with
  | EmptyString => EmptyString
  | String c s' =>
      match rstrip s' with
      | EmptyString => if is_space c then EmptyString else String c EmptyString
      | r => String c r
      end
  end.

Definition strip (s : string) : string := rstrip (lstrip s).

(** What the response of [self.client.stream] gives: its status, what
    [(await response.aread()).decode()] gives (evaluated when the status is
    not 200: the body as text, or the exception that reading or decoding
    raises, an httpx exception or a [UnicodeDecodeError]), the lines
    [aiter_lines] delivers and how the iteration ends. *)
Record StreamResponse := mkStreamResponse {
  s_status_code : Z;
  s_body : Raised + string;
  s_lines : list string;
  s_end : option Raised       (* [None]: the lines are exhausted *)
}.

Inductive StreamOpen :=
| Opens (r : StreamResponse)
| OpenFails (e : Raised).

Section WithJson.
(** [json.loads]; [None] for a [json.JSONDecodeError]. *)
Variable json_loads : string -> option Value.

(** The loop over the lines: the chunks yielded and how the loop ends
    ([None]: it ran to its end or met the sentinel). *)
Fixpoint stream_lines (self : ProviderAdapter) (lines : list string)
    (at_end : option Raised) : list string * option Raised :=
  match lines with
  | [] => ([], at_end)
  | line :: rest =>
      if startswith "data: " line then
        let data_str := str_drop 6 line in
        if String.eqb (strip data_str) "[DONE]" then ([], None)
        else
          match json_loads data_str with
          | None => stream_lines self rest at_end
          | Some chunk =>
              match parse_stream_chunk self chunk with
              | inl msg => ([], Some (RaisedException msg))
              | inr None | inr (Some EmptyString) => stream_lines self rest at_end
              | inr (Some c) =>
                  let '(cs, e) := stream_lines self rest at_end in (c :: cs, e)
              end
          end
      else stream_lines self rest at_end
  end.

(** The [except] clauses of [stream_complete]: [httpx.TimeoutException]
    and [httpx.HTTPError]; anything else passes through. *)
Definition stream_except (self : ProviderAdapter) (e : Raised) : StreamEnd :=
  match e with
  | RaisedTimeoutException _ =>
      StreamProviderError
        (ProviderError_init ("Stream timeout after " +:+ pretty (timeout self) +:+ "s")
           (Some 408) (Some "timeout"))
  | RaisedHTTPError msg =>
      StreamProviderError (ProviderError_init msg (Some 500) (Some "network"))
  | RaisedProvider pe => StreamProviderError pe
  | RaisedException msg => StreamOther msg
  end.

(** [ProviderAdapter.stream_complete], driven to its end. *)
Definition stream_complete (self : ProviderAdapter) (request : ProviderRequest)
    (opened : StreamOpen) : StreamOutcome :=
  match opened with
  | OpenFails e => {| chunks := []; ending := stream_except self e |}
  | Opens response =>
      if negb (s_status_code response =? 200) then
        match s_body response with
        | inl e => {| chunks := []; ending := stream_except self e |}
        | inr error_text =>
            {| chunks := [];
               ending := stream_except self
                           (RaisedProvider
                              (ProviderError_init error_text
                                 (Some (s_status_code response))
                                 (Some (_categorize_error (s_status_code response))))) |}
        end
      else
        let '(cs, e) := stream_lines self (s_lines response) (s_end response) in
        {| chunks := cs;
           ending := match e with
                     | None => StreamDone
                     | Some e => stream_except self e
                     end |}
  end.
End WithJson.

(** Text of ASCII characters only.  On such text [Registry.lower] is
    [str.lower()]; on other text [str.lower()] also maps cased characters
    outside ASCII. *)
Definition ascii_only (s : string) : bool :=
  forallb (fun c => Nat.ltb (nat_of_ascii c) 128) (list_ascii_of_string s).

(** [AdapterFactory]: the table [_adapters], keyed by lower-case provider
    name, with the OpenAI-compatible adapter as default. *)
Inductive AdapterClass :=
| OpenAIAdapter
| DeepSeekAdapter
| CustomAdapter (name : string).

Definition builtin_adapters : gmap string AdapterClass :=
  <["openai" := OpenAIAdapter]> (<["deepseek" := DeepSeekAdapter]> ∅).

Section WithLower.
(** [str.lower()] on any text. *)
Variable str_lower : string -> string.

(** The class [AdapterFactory.create] instantiates. *)
Definition create (table : gmap string AdapterClass) (provider : string) : AdapterClass :=
  default OpenAIAdapter (table !! str_lower provider).

Definition register_adapter (table : gmap string AdapterClass) (provider : string)
    (adapter_class : AdapterClass) : gmap string AdapterClass :=
  <[str_lower provider := adapter_class]> table.
End WithLower.

End Adapters.

(** ** The orchestrator's bookkeeping ([completion_handler.py], [complete]) *)

Module Completion.
Import Providers Registry Executor.

(** The fields of the request log that the outcome of the executor
    decides. *)
Record LogFields := mkLogFields {
  log_provider : string;
  log_model_id : string;
  log_route_name : string;
  log_route_reason : string;
  log_fallback_used : bool;
  log_fallback_chain : list FallbackAttempt;
  log_tokens_in : option Z;
  log_tokens_out : option Z;
  log_error_type : option string;
  log_error_short : option string
}.

(** [final_model_id]: the primary, or the model of the last attempt when
    there are attempts. *)
Definition final_model_id (d : Router.RoutingDecision)
    (fallback_attempts : list FallbackAttempt) : string :=
  match last fallback_attempts with
  | Some a => a_model_id a
  | None => Router.primary_model_id d
  end.

(** The log written after [execute_with_fallback] returned. *)
Definition success_log (reg : ModelRegistry) (d : Router.RoutingDecision)
    (response : ProviderResponse) (fallback_attempts : list FallbackAttempt) : LogFields :=
  let fallback_used := Nat.ltb 0 (length fallback_attempts) in
  let final := final_model_id d fallback_attempts in
  let provider := match get_model reg final with
                  | Some m => provider m
                  | None => "unknown"
                  end in
  let usage := default [] (usage response) in
  {| log_provider := provider;
     log_model_id := final;
     log_route_name := Router.route_name d;
     log_route_reason := Router.route_reason d;
     log_fallback_used := fallback_used;
     log_fallback_chain := fallback_attempts;
     log_tokens_in := Reranker.dict_get "prompt_tokens" usage;
     log_tokens_out := Reranker.dict_get "completion_tokens" usage;
     log_error_type := None;
     log_error_short := None |}.

(** The log written in the [except ProviderError] branch. *)
Definition failure_log (d : Router.RoutingDecision) (e : ProviderError) : LogFields :=
  {| log_provider := "unknown";
     log_model_id := Router.primary_model_id d;
     log_route_name := Router.route_name d;
     log_route_reason := Router.route_reason d;
     log_fallback_used := true;
     log_fallback_chain := [];
     log_tokens_in := None;
     log_tokens_out := None;
     log_error_type := Some (error_type e);
     log_error_short := Some (str_take 200 (message e)) |}.

(** Steps 4 to 6 of [complete]: the provider request is built with the
    primary as its model, the executor runs the decision, and the log
    follows from how it ended (no log when another exception passes
    through). *)
Definition dispatch (envs : Z -> UnaryEnv) (h : FallbackHandler)
    (provider_request : ProviderRequest) (d : Router.RoutingDecision)
  : Run (ProviderResponse * list FallbackAttempt) :=
  execute_with_fallback envs h
    (set_model provider_request (Router.primary_model_id d))
    (Router.primary_model_id d) (Router.fallback_model_ids d) (Router.d_timeout_ms d).

Definition log_of (reg : ModelRegistry) (d : Router.RoutingDecision)
    (res : Result (ProviderResponse * list FallbackAttempt)) : option LogFields :=
  match res with
  | Returned (response, fallback_attempts) =>
      Some (success_log reg d response fallback_attempts)
  | RaisedProviderError e => Some (failure_log d e)
  | RaisedBreakerError _ => None
  end.

End Completion.

(** ** Predicates on runs of the executor *)

Module RunFacts.
Import Providers Registry Executor.

(** The candidate does not resolve to a model of the provider [p]. *)
Definition not_on_provider (reg : ModelRegistry) (p : string) (model_id : string) : Prop :=
  forall m, get_model reg model_id = Some m -> provider m <> p.

(** The breaker of [p] is still [b], the registry is [reg], and no
    candidate of [p] was admitted. *)
Definition open_inv (reg : ModelRegistry) (p : string)
    (b : Breaker.CircuitBreakerState) (ls : LoopState) : Prop :=
  circuit_breaker (ls_handler ls) !! p = Some b /\
  registry (ls_handler ls) = reg /\
  Forall (not_on_provider reg p) (admitted (ls_trace ls)).

(** An attempt record made for the candidate at position [k] of the
    chain: its ordinal is [k + 1], its model id is the candidate, and its
    provider is the one of the registered model. *)
Definition record_of_chain (reg : ModelRegistry) (chain : list string)
    (a : FallbackAttempt) : Prop :=
  exists (k : nat) m,
    attempt_n a = Z.of_nat k + 1 /\
    chain !! k = Some (a_model_id a) /\
    get_model reg (a_model_id a) = Some m /\
    a_provider a = provider m.

(** The candidate is found in the registry and the breaker of its
    provider lets the attempt through, asked at the clock reading [now]:
    [self.registry.get_model(model_id)] is not [None] and
    [self.circuit_breaker.can_attempt(model.provider)] is true. *)
Definition let_through (h : FallbackHandler) (now : Q) (model_id : string) : bool :=
  match get_model (registry h) model_id with
  | None => false
  | Some m =>
      match can_attempt (provider m) now (circuit_breaker h) with
      | inr (true, _) => true
      | _ => false
      end
  end.

(** The candidate succeeds: it is let through, an adapter for its
    provider is cached or can be made, and [adapter.complete(request)]
    returns a response before the deadline. *)
Definition answers (env : UnaryEnv) (h : FallbackHandler) (model_id : string) : bool :=
  match get_model (registry h) model_id with
  | None => false
  | Some m =>
      match can_attempt (provider m) (t_check env) (circuit_breaker h) with
      | inr (true, bs) =>
          match _get_adapter (set_breakers h bs) m, outcome env with
          | inr _, Completes _ => true
          | _, _ => false
          end
      | _ => false
      end
  end.

(** No candidate of the chain succeeds, each one asked at its turn: with
    its ordinal, on the handler as the turns of the candidates before it
    left it. *)
Fixpoint no_candidate_answers (envs : Z -> UnaryEnv) (timeout_ms n : Z)
    (chain : list string) (ls : LoopState) : bool :=
  match chain with
  | [] => true
  | model_id :: rest =>
      negb (answers (envs n) (ls_handler ls) model_id) &&
      no_candidate_answers envs timeout_ms (n + 1) rest
        (step_state (attempt (envs n) timeout_ms n model_id ls))
  end.

(** The last candidate that was let through at its turn, among the
    candidates that had a turn ([cur] when there is none): the turns go
    down the chain until one ends the loop.  [turn] is the body of the
    loop and [check n] the clock reading at the admission check of
    ordinal [n]. *)
Fixpoint last_let_through {A : Type} (turn : Z -> string -> LoopState -> Step A)
    (check : Z -> Q) (n : Z) (chain : list string) (ls : LoopState)
    (cur : option string) : option string :=
  match chain with
  | [] => cur
  | model_id :: rest =>
      let cur' := if let_through (ls_handler ls) (check n) model_id
                  then Some model_id else cur in
      match turn n model_id ls with
      | Continue ls' => last_let_through turn check (n + 1) rest ls' cur'
      | _ => cur'
      end
  end.

End RunFacts.

(** ** Concrete inputs used below *)

Module Samples.

(** Five failures at time 10 open a default breaker; an admission check at
    time 100 (cooldown 60 s) makes it half-open. *)
Definition five_failures : list Breaker.Op :=
  [Breaker.OpFailure 10; Breaker.OpFailure 10; Breaker.OpFailure 10;
   Breaker.OpFailure 10; Breaker.OpFailure 10].

Definition opened_breaker : Breaker.CircuitBreakerState :=
  {| Breaker.failure_threshold := 5; Breaker.timeout_seconds := 60;
     Breaker.half_open_attempts := 1; Breaker.failure_count := 5;
     Breaker.last_failure_time := Some 10%Q; Breaker.state := Breaker.open;
     Breaker.opened_at := Some 10%Q |}.

Definition half_open_breaker : Breaker.CircuitBreakerState :=
  {| Breaker.failure_threshold := 5; Breaker.timeout_seconds := 60;
     Breaker.half_open_attempts := 1; Breaker.failure_count := 5;
     Breaker.last_failure_time := Some 10%Q; Breaker.state := Breaker.half_open;
     Breaker.opened_at := Some 10%Q |}.

(** An open breaker after a recorded success (an admin reset). *)
Definition reset_open_breaker : Breaker.CircuitBreakerState :=
  {| Breaker.failure_threshold := 5; Breaker.timeout_seconds := 60;
     Breaker.half_open_attempts := 1; Breaker.failure_count := 0;
     Breaker.last_failure_time := None; Breaker.state := Breaker.open;
     Breaker.opened_at := Some 10%Q |}.

(** A registry with two models on two providers, as in the unit tests of
    the executor.  [provider1] has its API key in the environment,
    [provider2] has none. *)
Definition model1 : Registry.ModelSpec :=
  {| Registry.id := "model1"; Registry.provider := "provider1";
     Registry.supports_tools := true; Registry.supports_vision := false;
     Registry.supports_json_schema := false;
     Registry.max_context_tokens := 4096; Registry.max_output_tokens := 2048;
     Registry.reliability_tier := 2; Registry.cost_tier := 2;
     Registry.speed_tier := 2; Registry.tags := ["general"] |}.

Definition model2 : Registry.ModelSpec :=
  {| Registry.id := "model2"; Registry.provider := "provider2";
     Registry.supports_tools := true; Registry.supports_vision := false;
     Registry.supports_json_schema := false;
     Registry.max_context_tokens := 4096; Registry.max_output_tokens := 2048;
     Registry.reliability_tier := 2; Registry.cost_tier := 2;
     Registry.speed_tier := 2; Registry.tags := ["general"] |}.

Definition two_providers : Registry.ModelRegistry :=
  {| Registry.providers :=
       <["provider1" := {| Registry.base_url := "https://api.provider1.com/v1";
                           Registry.api_key_env := "PROVIDER1_API_KEY";
                           Registry.timeout := 60 |}]>
       (<["provider2" := {| Registry.base_url := "https://api.provider2.com/v1";
                            Registry.api_key_env := "PROVIDER2_API_KEY";
                            Registry.timeout := 60 |}]> ∅);
     Registry.models := [model1; model2];
     Registry.routes := [];
     Registry.environ := <["PROVIDER1_API_KEY" := "test-api-key"]> ∅;
     Registry.OPENAI_API_KEYS := [];
     Registry.OPENAI_API_BASE_URLS := [] |}.

Definition adapter_of (p : string) : Executor.Adapter :=
  {| Executor.ad_base_url := "https://api." +:+ p +:+ ".com/v1";
     Executor.ad_api_key := "test-api-key";
     Executor.ad_timeout := 60 |}.

(** A handler with an adapter cached for both providers, and one with an
    empty cache. *)
Definition handler_cached : Executor.FallbackHandler :=
  {| Executor.registry := two_providers;
     Executor.circuit_breaker := ∅;
     Executor.adapters :=
       <["provider1" := adapter_of "provider1"]>
       (<["provider2" := adapter_of "provider2"]> ∅) |}.

Definition handler_fresh : Executor.FallbackHandler :=
  {| Executor.registry := two_providers;
     Executor.circuit_breaker := ∅;
     Executor.adapters := ∅ |}.

Definition request1 : Providers.ProviderRequest :=
  {| Providers.model := "model1";
     Providers.messages := [VDict [("role", VStr "user"); ("content", VStr "test")]];
     Providers.temperature := None; Providers.max_tokens := None;
     Providers.top_p := None; Providers.frequency_penalty := None;
     Providers.presence_penalty := None; Providers.tools := None;
     Providers.tool_choice := None; Providers.response_format := None;
     Providers.stream := false; Providers.metadata := None |}.

Definition network_error : Providers.ProviderError :=
  Providers.ProviderError_init "connection reset" (Some 500) (Some "network").

(** Streaming: the first candidate yields one chunk and then fails with a
    transport error; the second streams to its end. *)
Definition broken_then_good (n : Z) : Executor.StreamEnv :=
  if n =? 1 then
    {| Executor.ts_check := 0; Executor.ts_end := 1;
       Executor.s_outcome :=
         {| Providers.chunks := ["Hel"];
            Providers.ending := Providers.StreamProviderError network_error |} |}
  else
    {| Executor.ts_check := 1; Executor.ts_end := 2;
       Executor.s_outcome :=
         {| Providers.chunks := ["Hello"; " world"];
            Providers.ending := Providers.StreamDone |} |}.

(** Unary: every adapter call fails with the given provider error. *)
Definition always_fails (e : Providers.ProviderError) (n : Z) : Executor.UnaryEnv :=
  {| Executor.t_check := 0; Executor.t_start := 0; Executor.t_end := 1;
     Executor.outcome := Providers.RaisesProviderError e |}.

(** Router: a model without tool support, and a context that needs
    tools. *)
Definition deepseek_coder : Registry.ModelSpec :=
  {| Registry.id := "deepseek-coder"; Registry.provider := "deepseek";
     Registry.supports_tools := false; Registry.supports_vision := false;
     Registry.supports_json_schema := false;
     Registry.max_context_tokens := 16000; Registry.max_output_tokens := 8192;
     Registry.reliability_tier := 2; Registry.cost_tier := 1;
     Registry.speed_tier := 2; Registry.tags := ["coding"] |}.

Definition gpt_4 : Registry.ModelSpec :=
  {| Registry.id := "gpt-4"; Registry.provider := "openai";
     Registry.supports_tools := true; Registry.supports_vision := true;
     Registry.supports_json_schema := true;
     Registry.max_context_tokens := 128000; Registry.max_output_tokens := 4096;
     Registry.reliability_tier := 3; Registry.cost_tier := 3;
     Registry.speed_tier := 2; Registry.tags := ["general"] |}.

Definition registry_of (ms : list Registry.ModelSpec) (rs : list Registry.RouteSpec)
  : Registry.ModelRegistry :=
  {| Registry.providers := ∅; Registry.models := ms; Registry.routes := rs;
     Registry.environ := ∅; Registry.OPENAI_API_KEYS := [];
     Registry.OPENAI_API_BASE_URLS := [] |}.

Definition coder_only : Registry.ModelRegistry := registry_of [deepseek_coder] [].

(** The route [tools] of the router's unit tests. *)
Definition tools_route : Registry.RouteSpec :=
  {| Registry.name := "tools";
     Registry.when :=
       {| Registry.always := None;
          Registry.any := Some [ {| Registry.c_has_code_block := None;
                                    Registry.c_has_attachments := None;
                                    Registry.c_rag_enabled := None;
                                    Registry.c_tools_enabled := Some true;
                                    Registry.c_response_format_required := None;
                                    Registry.c_context_est_tokens_gt := None;
                                    Registry.c_contains_regex := None |} ];
          Registry.all := None |};
     Registry.use_model := "gpt-4";
     Registry.fallback_models := ["deepseek-coder"];
     Registry.timeout_ms := 60000 |}.

Definition coder_and_gpt4 : Registry.ModelRegistry :=
  registry_of [gpt_4; deepseek_coder] [tools_route].

Definition tools_context : Router.RoutingContext :=
  {| Router.last_user_message := "Call a function"; Router.rc_messages := [];
     Router.has_code_block := false; Router.has_attachments := false;
     Router.rag_enabled := false; Router.estimated_context_tokens := 100;
     Router.tools_enabled := true; Router.response_format_required := None |}.

(** Two models under one id; the later one, without tool support, is the
    one the id resolves to. *)
Definition twin_with_tools : Registry.ModelSpec :=
  {| Registry.id := "twin"; Registry.provider := "openai";
     Registry.supports_tools := true; Registry.supports_vision := false;
     Registry.supports_json_schema := false;
     Registry.max_context_tokens := 4096; Registry.max_output_tokens := 2048;
     Registry.reliability_tier := 2; Registry.cost_tier := 2;
     Registry.speed_tier := 2; Registry.tags := [] |}.

Definition twin_without_tools : Registry.ModelSpec :=
  {| Registry.id := "twin"; Registry.provider := "openai";
     Registry.supports_tools := false; Registry.supports_vision := false;
     Registry.supports_json_schema := false;
     Registry.max_context_tokens := 4096; Registry.max_output_tokens := 2048;
     Registry.reliability_tier := 2; Registry.cost_tier := 2;
     Registry.speed_tier := 2; Registry.tags := [] |}.

Definition twins : Registry.ModelRegistry :=
  registry_of [twin_with_tools; twin_without_tools] [].

(** A regex engine for the examples: no pattern matches. *)
Definition no_match (pattern text : string) : option bool := Some false.

(** Reranker: a single candidate whose content is the query. *)
Definition python_chunk : Reranker.RAGChunk :=
  {| Reranker.doc_id := "doc1"; Reranker.doc_title := Some "Python";
     Reranker.doc_path := None; Reranker.chunk_id := "chunk1";
     Reranker.content := "python"; Reranker.vector_score := 0.9%R;
     Reranker.metadata := None |}.

Definition other_chunk : Reranker.RAGChunk :=
  {| Reranker.doc_id := "doc2"; Reranker.doc_title := None;
     Reranker.doc_path := None; Reranker.chunk_id := "chunk2";
     Reranker.content := "completely different text"; Reranker.vector_score := 0.5%R;
     Reranker.metadata := None |}.

(** Prompt injection: the caller holds a list (at reference 1) with one
    user message (the dict at reference 0). *)
Definition user_message : gmap string Value :=
  <["role" := VStr "user"]> (<["content" := VStr "Tell me about Python"]> ∅).

Definition caller_heap : Injection.Heap :=
  [Injection.ODict user_message; Injection.OList [0%nat]].

Definition caller_messages : Injection.loc := 1%nat.

Definition ranked_python : Reranker.RankedChunk :=
  {| Reranker.chunk := python_chunk; Reranker.rc_vector_score := 0.9%R;
     Reranker.rerank_score := 0%R; Reranker.final_score := 0.27%R;
     Reranker.preview := "python" |}.

End Samples.

(** ** More concrete inputs *)

Module MoreSamples.

(** The handler of the unit tests with the breaker of [provider1] open
    since time 10. *)
Definition handler_provider1_open : Executor.FallbackHandler :=
  {| Executor.registry := Samples.two_providers;
     Executor.circuit_breaker := <["provider1" := Samples.opened_breaker]> ∅;
     Executor.adapters := Executor.adapters Samples.handler_cached |}.

Definition ok_response : Providers.ProviderResponse :=
  {| Providers.content := Some "Success"; Providers.tool_calls := None;
     Providers.finish_reason := Some "stop";
     Providers.usage := Some [("prompt_tokens", 10); ("completion_tokens", 20)];
     Providers.raw_response := None |}.

(** Every adapter call answers. *)
Definition always_answers (n : Z) : Executor.UnaryEnv :=
  {| Executor.t_check := 0; Executor.t_start := 0; Executor.t_end := 1;
     Executor.outcome := Providers.Completes ok_response |}.

(** The first adapter call fails with a server error, the later ones
    answer. *)
Definition fails_then_answers (n : Z) : Executor.UnaryEnv :=
  {| Executor.t_check := 0; Executor.t_start := 0; Executor.t_end := 1;
     Executor.outcome :=
       if n =? 1 then Providers.RaisesProviderError
                        (Providers.ProviderError_init "Provider error" (Some 500)
                           (Some "server_error"))
       else Providers.Completes ok_response |}.

Definition timeout_408 : Providers.ProviderError :=
  Providers.ProviderError_init "Stream timeout after 60s" (Some 408) (Some "timeout").

(** Streaming: every stream fails at once with the given error. *)
Definition stream_fails (e : Providers.ProviderError) (n : Z) : Executor.StreamEnv :=
  {| Executor.ts_check := 0; Executor.ts_end := 1;
     Executor.s_outcome :=
       {| Providers.chunks := [];
          Providers.ending := Providers.StreamProviderError e |} |}.

Definition decision_1_then_2 : Router.RoutingDecision :=
  {| Router.primary_model_id := "model1";
     Router.fallback_model_ids := ["model2"];
     Router.route_name := "default";
     Router.route_reason := "Default routing: fast and cost-effective";
     Router.d_timeout_ms := 30000 |}.

(** An adapter whose parsing methods always succeed, and a 429 response
    of a provider with the usual error body. *)
Definition lenient_adapter : Adapters.ProviderAdapter :=
  {| Adapters.prepare_request := Adapters.openai_prepare_request;
     Adapters.parse_response := fun _ => inr ok_response;
     Adapters.parse_stream_chunk := fun _ => inr (Some "Hello");
     Adapters.timeout := 60 |}.

Definition rate_limited : Adapters.HttpResponse :=
  {| Adapters.status_code := 429;
     Adapters.text := "rate limit body";
     Adapters.json :=
       inr (VDict [("error", VDict [("message", VStr "Rate limit exceeded")])]) |}.

Definition rate_limited_stream : Adapters.StreamResponse :=
  {| Adapters.s_status_code := 429;
     Adapters.s_body := inr "rate limit body";
     Adapters.s_lines := [];
     Adapters.s_end := None |}.

(** A stream of two data lines, the sentinel, and a line after it. *)
Definition stream_with_sentinel (after : list string) (at_end : option Adapters.Raised)
  : Adapters.StreamResponse :=
  {| Adapters.s_status_code := 200;
     Adapters.s_body := inr EmptyString;
     Adapters.s_lines := ["data: a"; ": keep-alive"; "data: b"] ++ "data: [DONE]" :: after;
     Adapters.s_end := at_end |}.

Definition openai_request : Providers.ProviderRequest :=
  {| Providers.model := "gpt-4";
     Providers.messages := [];
     Providers.temperature := Some (7 # 10);
     Providers.max_tokens := None;
     Providers.top_p := None;
     Providers.frequency_penalty := None;
     Providers.presence_penalty := None;
     Providers.tools := Some [];
     Providers.tool_choice := None;
     Providers.response_format := None;
     Providers.stream := false;
     Providers.metadata := Some (VDict [("request_id", VStr "r1")]) |}.

(** The decisions of the router on [Samples.coder_and_gpt4] for a request
    with tools: by the rule [tools], and by the default route. *)
Definition tools_decision : Router.RoutingDecision :=
  {| Router.primary_model_id := "gpt-4";
     Router.fallback_model_ids := [];
     Router.route_name := "tools";
     Router.route_reason := "Route 'tools': tools required";
     Router.d_timeout_ms := 60000 |}.

Definition default_decision : Router.RoutingDecision :=
  {| Router.primary_model_id := "gpt-4";
     Router.fallback_model_ids := [];
     Router.route_name := "default";
     Router.route_reason := "Default routing: fast and cost-effective";
     Router.d_timeout_ms := 30000 |}.

(** A conversation that holds a single system message. *)
Definition system_message : gmap string Value :=
  <["role" := VStr "system"]> (<["content" := VStr "Be brief"]> ∅).

Definition system_only_heap : Injection.Heap :=
  [Injection.ODict system_message; Injection.OList [0%nat]].

(** An attempt whose adapter call receives the 429 response. *)
Definition rate_limited_env : Executor.UnaryEnv :=
  {| Executor.t_check := 0; Executor.t_start := 0; Executor.t_end := 1;
     Executor.outcome :=
       Adapters.awaited_complete (fun _ => "?") (fun _ => "no attribute get")
         lenient_adapter openai_request (Some (Adapters.Responds rate_limited, 1%Q)) |}.

(** A 401 response of a provider with the usual error body, and an
    attempt whose adapter call receives it. *)
Definition unauthorized : Adapters.HttpResponse :=
  {| Adapters.status_code := 401;
     Adapters.text := "unauthorized body";
     Adapters.json :=
       inr (VDict [("error", VDict [("message", VStr "Invalid API key")])]) |}.

Definition unauthorized_env (n : Z) : Executor.UnaryEnv :=
  {| Executor.t_check := 0; Executor.t_start := 0; Executor.t_end := 1;
     Executor.outcome :=
       Adapters.awaited_complete (fun _ => "?") (fun _ => "no attribute get")
         lenient_adapter openai_request (Some (Adapters.Responds unauthorized, 1%Q)) |}.

(** The models of the router's unit tests next to [Samples.gpt_4] and
    [Samples.deepseek_coder], and a slow local model. *)
Definition gpt_35_turbo : Registry.ModelSpec :=
  {| Registry.id := "gpt-3.5-turbo"; Registry.provider := "openai";
     Registry.supports_tools := true; Registry.supports_vision := false;
     Registry.supports_json_schema := true;
     Registry.max_context_tokens := 16385; Registry.max_output_tokens := 4096;
     Registry.reliability_tier := 3; Registry.cost_tier := 1;
     Registry.speed_tier := 3; Registry.tags := ["fast"; "cheap"; "general"] |}.

Definition deepseek_chat : Registry.ModelSpec :=
  {| Registry.id := "deepseek-chat"; Registry.provider := "deepseek";
     Registry.supports_tools := true; Registry.supports_vision := false;
     Registry.supports_json_schema := true;
     Registry.max_context_tokens := 64000; Registry.max_output_tokens := 4000;
     Registry.reliability_tier := 2; Registry.cost_tier := 1;
     Registry.speed_tier := 3; Registry.tags := ["fast"; "cheap"; "general"; "tools"] |}.

Definition local_llama : Registry.ModelSpec :=
  {| Registry.id := "local-llama"; Registry.provider := "local";
     Registry.supports_tools := false; Registry.supports_vision := false;
     Registry.supports_json_schema := false;
     Registry.max_context_tokens := 8192; Registry.max_output_tokens := 2048;
     Registry.reliability_tier := 1; Registry.cost_tier := 1;
     Registry.speed_tier := 1; Registry.tags := ["local"] |}.

Definition five_models : Registry.ModelRegistry :=
  Samples.registry_of
    [Samples.gpt_4; gpt_35_turbo; deepseek_chat; Samples.deepseek_coder; local_llama] [].

(** A short message without tools, code or attachments. *)
Definition plain_context : Router.RoutingContext :=
  {| Router.last_user_message := "Hello, how are you?"; Router.rc_messages := [];
     Router.has_code_block := false; Router.has_attachments := false;
     Router.rag_enabled := false; Router.estimated_context_tokens := 50;
     Router.tools_enabled := false; Router.response_format_required := None |}.

(** The default route on [five_models] for [plain_context]. *)
Definition default_of_five : Router.RoutingDecision :=
  {| Router.primary_model_id := "gpt-3.5-turbo";
     Router.fallback_model_ids := ["deepseek-chat"; "deepseek-coder"; "gpt-4"];
     Router.route_name := "default";
     Router.route_reason := "Default routing: fast and cost-effective";
     Router.d_timeout_ms := 30000 |}.






(** A 503 response whose body cannot be read: the connection breaks
    during [aread()]. *)
Definition unreadable_stream : Adapters.StreamResponse :=
  {| Adapters.s_status_code := 503;
     Adapters.s_body := inl (Adapters.RaisedHTTPError "connection reset");
     Adapters.s_lines := [];
     Adapters.s_end := None |}.

End MoreSamples.

(** * Properties *)

(** ** Circuit breaker *)

Module BreakerProps.
Import Breaker.

Lemma run_app ops1 ops2 s s1 :
  run ops1 s = inr s1 -> run (ops1 ++ ops2) s = run ops2 s1.
Proof.
  revert s. induction ops1 as [|o ops1 IH]; intros s H; simpl in *.
  - by inversion H.
  - destruct (apply_op o s) as [e|s']; [discriminate|]. by apply IH.
Qed.

Lemma run_reachable b0 ops s : run ops b0 = inr s -> reachable b0 s.
Proof.
  revert s. induction ops as [|o ops IH] using rev_ind; intros s H.
  - inversion H. constructor.
  - destruct (run ops b0) as [e|s1] eqn:E.
    + assert (run (ops ++ [o]) b0 = inl e) as H'.
      { clear -E. revert E. generalize b0. induction ops as [|o' ops IH]; intros b E; simpl in *.
        - discriminate.
        - destruct (apply_op o' b); [done|]. by apply IH. }
      congruence.
    + rewrite (run_app _ _ _ _ E) in H. simpl in H.
      destruct (apply_op o s1) as [e|s2] eqn:E2; [discriminate|].
      inversion H; subst. eapply reach_step; eauto.
Qed.

Lemma sample_opened : run Samples.five_failures default = inr Samples.opened_breaker.
Proof. reflexivity. Qed.

Lemma sample_half_open :
  run (Samples.five_failures ++ [OpCanAttempt 100]) default
  = inr Samples.half_open_breaker.
Proof. reflexivity. Qed.

(** A failure recorded on a half-open breaker only counts: the state and
    [opened_at] stay as they are. *)
Lemma record_failure_half_open now s :
  state s = half_open ->
  state (record_failure now s) = half_open /\
  opened_at (record_failure now s) = opened_at s /\
  failure_count (record_failure now s) = failure_count s + 1.
Proof. intros H. unfold record_failure. simpl. by rewrite H. Qed.

(** C2 (fails on the code).  A default breaker that opened at time 10 and
    became half-open at time 100 is reachable; a failure recorded on it at
    time 200 leaves it half-open with [opened_at] still 10, where the claim
    has it open with [opened_at] 200; every later admission check
    admits. *)
Theorem C2_half_open_failure_stays_half_open :
  reachable default Samples.half_open_breaker /\
  state (record_failure 200 Samples.half_open_breaker) = half_open /\
  opened_at (record_failure 200 Samples.half_open_breaker) = Some 10%Q /\
  (forall now, exists s',
      can_attempt now (record_failure 200 Samples.half_open_breaker) = inr (true, s')).
Proof.
  split; [exact (run_reachable _ _ _ sample_half_open)|].
  repeat split. intros now. eexists. reflexivity.
Qed.

(** The operations never change the configuration of a breaker. *)
Lemma apply_op_threshold o s s' :
  apply_op o s = inr s' -> failure_threshold s' = failure_threshold s.
Proof.
  destruct o as [|now|now]; simpl; intros H.
  - inversion H. unfold record_success. simpl. by destruct (state s).
  - inversion H. unfold record_failure. simpl.
    destruct (state s); simpl; [|done..]. by case_match.
  - unfold can_attempt in H. destruct (state s); simplify_eq; [done| |done].
    destruct (opened_at s); [|done].
    destruct (Qle_bool _ _); by simplify_eq.
Qed.

Lemma opened_at_step o s s' :
  opened_at_invariant s -> apply_op o s = inr s' -> opened_at_invariant s'.
Proof.
  intros [Ho Hc] H. destruct o as [|now|now]; simpl in H.
  - inversion H; subst; clear H. unfold opened_at_invariant, record_success; simpl.
    destruct (state s) eqn:E; simpl; split; intros; try done; auto.
  - inversion H; subst; clear H. unfold opened_at_invariant, record_failure; simpl.
    destruct (state s) eqn:E; simpl.
    + case_match; simpl; split; intros; try done; auto.
    + split; intros; try done; auto.
    + split; intros; done.
  - unfold can_attempt in H. destruct (state s) eqn:E.
    + simplify_eq. split; intros; auto. congruence.
    + destruct (opened_at s) eqn:Eo; [|done].
      destruct (Qle_bool _ _); simplify_eq; unfold opened_at_invariant; simpl;
        split; intros; try done; congruence.
    + simplify_eq. split; intros; congruence.
Qed.

Lemma open_invariant_step o s s' :
  open_invariant s -> success_not_on_open o s ->
  apply_op o s = inr s' -> open_invariant s'.
Proof.
  intros Hi Hg H. destruct o as [|now|now]; simpl in H.
  - inversion H; subst; clear H. specialize (Hg eq_refl).
    unfold open_invariant, record_success; simpl.
    destruct (state s) eqn:E; simpl; intros; done.
  - inversion H; subst; clear H. unfold open_invariant, record_failure; simpl.
    destruct (state s) eqn:E; simpl.
    + case_match; simpl; intros; [|done]. split; [done|]. lia.
    + intros _. destruct (Hi E) as [? ?]. split; [done|lia].
    + intros; done.
  - unfold can_attempt in H. destruct (state s) eqn:E.
    + simplify_eq. intros ?; congruence.
    + destruct (opened_at s) eqn:Eo; [|done].
      destruct (Qle_bool _ _); simplify_eq; unfold open_invariant; simpl;
        intros; try done.
      destruct (Hi E) as [? ?]. split; [congruence|done].
    + simplify_eq. intros ?; congruence.
Qed.

(** A success recorded on an open breaker zeroes the counter and leaves
    the breaker open, with the opening time it had: [record_success]
    changes the state only from [half_open]. *)
Lemma record_success_open s :
  state s = open ->
  state (record_success s) = open /\
  failure_count (record_success s) = 0 /\
  opened_at (record_success s) = opened_at s.
Proof. intros H. unfold record_success. simpl. by rewrite H. Qed.

(** C3 (fails on the code).  Five failures at time 10 open a default
    breaker; the admin reset then records a success on it.  The breaker
    that results is reachable, still open, with a counter of 0 below its
    threshold 5, so the invariant of the claim does not hold of it; and
    it is not reset: an admission check at time 20, within the cooldown,
    is refused as before the reset. *)
Theorem C3_reset_leaves_breaker_open :
  run (Samples.five_failures ++ [OpSuccess]) default = inr Samples.reset_open_breaker /\
  reachable default Samples.reset_open_breaker /\
  state Samples.reset_open_breaker = open /\
  failure_count Samples.reset_open_breaker = 0 /\
  failure_threshold Samples.reset_open_breaker = 5 /\
  ~ open_invariant Samples.reset_open_breaker /\
  can_attempt 20 Samples.opened_breaker = inr (false, Samples.opened_breaker) /\
  can_attempt 20 Samples.reset_open_breaker = inr (false, Samples.reset_open_breaker).
Proof.
  split; [reflexivity|]. split.
  { apply (run_reachable _ (Samples.five_failures ++ [OpSuccess])). reflexivity. }
  repeat (split; [reflexivity|]). split.
  - intros H. destruct (H eq_refl) as [_ Hc]. simpl in Hc. lia.
  - split; reflexivity.
Qed.

(** What does hold.  In every state reachable by any sequence of
    [record_success], [record_failure] and [can_attempt], an open breaker
    has [opened_at] set (and a closed one has it null).  The bound
    [failure_count >= failure_threshold] holds for an open breaker in every
    state reached without recording a success while the breaker is
    open. *)
Lemma open_invariant_without_success_on_open (threshold timeout attempts : Z)
    (s : CircuitBreakerState) :
  (reachable (init threshold timeout attempts) s -> opened_at_invariant s) /\
  (reachable_guarded (init threshold timeout attempts) s -> open_invariant s).
Proof.
  split.
  - induction 1 as [|s o s' _ IH Hstep].
    + split; intros; done.
    + eapply opened_at_step; eauto.
  - induction 1 as [|s o s' _ IH Hg Hstep].
    + intros ?; done.
    + eapply open_invariant_step; eauto.
Qed.

Lemma run_reachable_guarded b0 ops s :
  Forall (fun o => o <> OpSuccess) ops -> run ops b0 = inr s -> reachable_guarded b0 s.
Proof.
  revert s. induction ops as [|o ops IH] using rev_ind; intros s Hall H.
  - inversion H. constructor.
  - apply Forall_app in Hall as [Hall Ho]. inversion Ho as [|? ? Hne _]; subst.
    destruct (run ops b0) as [e|s1] eqn:E.
    + exfalso. clear -E H. revert E H. generalize b0.
      induction ops as [|o' ops IH]; intros b E H; simpl in *; [discriminate|].
      destruct (apply_op o' b); [done|]. eauto.
    + rewrite (run_app _ _ _ _ E) in H. simpl in H.
      destruct (apply_op o s1) as [e|s2] eqn:E2; [discriminate|].
      inversion H; subst. eapply greach_step; eauto. intros ?; done.
Qed.

(** The breaker opened by five failures has both invariants. *)
Lemma opened_breaker_invariants :
  opened_at_invariant Samples.opened_breaker /\
  open_invariant Samples.opened_breaker.
Proof.
  split.
  - apply (proj1 (open_invariant_without_success_on_open 5 60 1 Samples.opened_breaker)).
    apply (run_reachable _ Samples.five_failures). reflexivity.
  - apply (proj2 (open_invariant_without_success_on_open 5 60 1 Samples.opened_breaker)).
    apply (run_reachable_guarded _ Samples.five_failures); [|reflexivity].
    repeat constructor; discriminate.
Qed.

End BreakerProps.

(** ** Fallback executor *)

Module ExecutorProps.
Import Providers Registry Executor.

(** *** Facts about the breaker manager *)

Lemma get_adapter_frame h m a h2 :
  _get_adapter h m = inr (a, h2) ->
  circuit_breaker h2 = circuit_breaker h /\ registry h2 = registry h.
Proof.
  unfold _get_adapter. intros H.
  destruct (adapters h !! provider m); [by simplify_eq|].
  destruct (get_provider_config _ _); [|done].
  destruct (get_api_key _ _) as [[|c k]|]; [done| |done].
  by simplify_eq.
Qed.

Lemma failure_count_record_failure now b :
  Breaker.failure_count (Breaker.record_failure now b) = Breaker.failure_count b + 1.
Proof.
  unfold Breaker.record_failure. simpl.
  destruct (Breaker.state b); simpl; [|done..]. by case_match.
Qed.

Lemma failures_record_failure p now bs :
  failures p (record_failure p now bs) = failures p bs + 1.
Proof.
  unfold failures, record_failure, get_breaker.
  destruct (bs !! p) as [b|] eqn:E; simpl.
  - rewrite lookup_insert_eq. simpl. apply failure_count_record_failure.
  - rewrite lookup_insert_eq. reflexivity.
Qed.

(** The test of the [except ProviderError] branch, spelled out. *)
Lemma counts_toward_breaker_spec e :
  counts_toward_breaker e = true <->
  (exists sc, status_code e = Some sc /\ 500 <= sc) \/ error_type e = "timeout".
Proof.
  unfold counts_toward_breaker. destruct (status_code e) as [sc|].
  - destruct (negb (sc =? 0) && (500 <=? sc)) eqn:E.
    + split; [|done]. intros _. left. exists sc. split; [done|].
      apply andb_true_iff in E as [_ E]. lia.
    + destruct (decide (error_type e = "timeout")) as [Ht|Ht].
      * split; [by right|done].
      * split; [done|]. intros [(sc' & Hsc & Hge)|?]; [|done].
        simplify_eq. apply andb_false_iff in E as [E|E].
        -- apply negb_false_iff in E. lia.
        -- lia.
  - destruct (decide (error_type e = "timeout")) as [Ht|Ht].
    + split; [by right|done].
    + split; [done|]. intros [(sc' & Hsc & _)|?]; done.
Qed.

(** The tags [_categorize_error] gives, by status code. *)
Lemma categorize_cases sc :
  (sc = 400 /\ _categorize_error sc = "invalid_request") \/
  (sc = 401 /\ _categorize_error sc = "authentication") \/
  (sc = 403 /\ _categorize_error sc = "permission") \/
  (sc = 404 /\ _categorize_error sc = "not_found") \/
  (sc = 408 /\ _categorize_error sc = "timeout") \/
  (sc = 429 /\ _categorize_error sc = "rate_limit") \/
  (500 <= sc < 600 /\ _categorize_error sc = "server_error") \/
  ((sc < 500 \/ 600 <= sc) /\ sc <> 400 /\ sc <> 401 /\ sc <> 403 /\ sc <> 404 /\
   sc <> 408 /\ sc <> 429 /\ _categorize_error sc = "unknown").
Proof.
  unfold _categorize_error.
  destruct (sc =? 400) eqn:E0; [left; split; [lia|done]|right].
  destruct (sc =? 401) eqn:E1; [left; split; [lia|done]|right].
  destruct (sc =? 403) eqn:E3; [left; split; [lia|done]|right].
  destruct (sc =? 404) eqn:E4; [left; split; [lia|done]|right].
  destruct (sc =? 408) eqn:E8; [left; split; [lia|done]|right].
  destruct (sc =? 429) eqn:E9; [left; split; [lia|done]|right].
  destruct ((500 <=? sc) && (sc <? 600)) eqn:E5.
  - left. apply andb_true_iff in E5 as [? ?]. split; [lia|done].
  - right. apply andb_false_iff in E5. repeat split; try lia; done.
Qed.

Lemma error_type_categorized msg sc :
  error_type (categorized_error msg sc) = _categorize_error sc.
Proof.
  unfold categorized_error, ProviderError_init; simpl.
  destruct (categorize_cases sc) as
    [[_ H]|[[_ H]|[[_ H]|[[_ H]|[[_ H]|[[_ H]|[[_ H]|(_&_&_&_&_&_&_&H)]]]]]]];
    rewrite H; done.
Qed.

(** An error tagged by the adapter from its status code counts toward the
    breaker exactly for the tags [timeout] and [server_error], and for
    [unknown] when the status is 600 or more. *)
Lemma counts_categorized msg sc :
  counts_toward_breaker (categorized_error msg sc) = true <->
  error_type (categorized_error msg sc) = "timeout" \/
  error_type (categorized_error msg sc) = "server_error" \/
  (error_type (categorized_error msg sc) = "unknown" /\ 600 <= sc).
Proof.
  rewrite counts_toward_breaker_spec, error_type_categorized.
  change (status_code (categorized_error msg sc)) with (Some sc).
  destruct (categorize_cases sc) as
    [[? H]|[[? H]|[[? H]|[[? H]|[[? H]|[[? H]|[[? H]|(?&?&?&?&?&?&?&H)]]]]]]];
    rewrite H; split; intros Hx;
    repeat match goal with
           | H : _ \/ _ |- _ => destruct H
           | H : _ /\ _ |- _ => destruct H
           | H : ex _ |- _ => destruct H
           end; simplify_eq; try lia; try discriminate;
    try (by right); try (by left; eexists; split; [done|lia]);
    try (by left); try (by right; left); try (by right; right; split; [done|lia]).
Qed.

(** *** The breaker is charged by status code, not by tag *)

(** When the adapter call of an admitted candidate raises a provider
    error [e], the turn continues with the next candidate and the failure
    counter of the provider grows by one exactly when
    [e.status_code >= 500] or [e.error_type = "timeout"], and is unchanged
    otherwise. *)
Lemma breaker_charged_by_status
    (env : UnaryEnv) (timeout_ms n : Z) (model_id : string) (ls : LoopState)
    (m : ModelSpec) (bs : Breakers) (a : Adapter) (h2 : FallbackHandler)
    (e : ProviderError) :
  get_model (registry (ls_handler ls)) model_id = Some m ->
  can_attempt (provider m) (t_check env) (circuit_breaker (ls_handler ls))
    = inr (true, bs) ->
  _get_adapter (set_breakers (ls_handler ls) bs) m = inr (a, h2) ->
  outcome env = RaisesProviderError e ->
  (exists ls',
      attempt env timeout_ms n model_id ls = Continue ls' /\
      failures (provider m) (circuit_breaker (ls_handler ls')) =
      failures (provider m) bs + (if counts_toward_breaker e then 1 else 0)) /\
  (counts_toward_breaker e = true <->
   (exists sc, status_code e = Some sc /\ 500 <= sc) \/ error_type e = "timeout") /\
  (forall msg sc, e = categorized_error msg sc ->
     (counts_toward_breaker e = true <->
      error_type e = "timeout" \/ error_type e = "server_error" \/
      (error_type e = "unknown" /\ 600 <= sc))).
Proof.
  intros Hm Hc Ha Ho. split; [|split].
  - unfold attempt. rewrite Hm, Hc. simpl. rewrite Ha, Ho.
    eexists. split; [reflexivity|]. simpl.
    destruct (get_adapter_frame _ _ _ _ Ha) as [Hb _]. simpl in Hb.
    destruct (counts_toward_breaker e); simpl.
    + rewrite failures_record_failure, Hb. done.
    + rewrite Hb. lia.
  - apply counts_toward_breaker_spec.
  - intros msg sc ->. apply counts_categorized.
Qed.

(** C4 (fails on the code).  The provider answers the call for [model1]
    with status 401.  Inside its [try] block [ProviderAdapter.complete]
    raises the error it categorised, status 401 and tag
    [authentication]; the [except Exception] clause of the same block
    catches it and raises an error with status 500 and tag [unknown] in
    its place.  That is the error the executor sees: it records it in
    the attempt list and counts a failure for the breaker of
    [provider1], where the claim has an authentication error never
    counted. *)
Theorem C4_authentication_error_charges_breaker :
  _categorize_error 401 = "authentication" /\
  Adapters.complete_try (fun _ => "?") (fun _ => "no attribute get")
    MoreSamples.lenient_adapter MoreSamples.openai_request
    (Adapters.Responds MoreSamples.unauthorized) 1
  = inl (Adapters.RaisedProvider
           {| message := "Invalid API key"; status_code := Some 401;
              error_type := "authentication" |}) /\
  outcome (MoreSamples.unauthorized_env 1)
  = RaisesProviderError
      {| message := "Invalid API key"; status_code := Some 500;
         error_type := "unknown" |} /\
  let '(res, ls) :=
    execute_with_fallback MoreSamples.unauthorized_env
      Samples.handler_cached Samples.request1 "model1" [] 30000 in
  invoked (ls_trace ls) = ["model1"] /\
  map a_status_code (ls_attempts ls) = [Some 500] /\
  map a_error_type (ls_attempts ls) = [Some "unknown"] /\
  failures "provider1" (circuit_breaker Samples.handler_cached) = 0 /\
  failures "provider1" (circuit_breaker (ls_handler ls)) = 1.
Proof. vm_compute. repeat split; reflexivity. Qed.

(** *** The breaker map stays well formed *)

Lemma has_time_default : has_opening_time Breaker.default.
Proof. intros H. done. Qed.

Lemma has_time_record_success b :
  has_opening_time b -> has_opening_time (Breaker.record_success b).
Proof.
  unfold has_opening_time, Breaker.record_success. simpl.
  destruct (Breaker.state b) eqn:E; simpl; intros; try done. auto.
Qed.

Lemma has_time_record_failure now b :
  has_opening_time b -> has_opening_time (Breaker.record_failure now b).
Proof.
  unfold has_opening_time, Breaker.record_failure. simpl.
  destruct (Breaker.state b) eqn:E; simpl; intros; try done; auto.
  case_match; simpl in *; done.
Qed.

Lemma has_time_can_attempt now b :
  has_opening_time b ->
  exists ok b', Breaker.can_attempt now b = inr (ok, b') /\ has_opening_time b'.
Proof.
  unfold has_opening_time, Breaker.can_attempt. intros H.
  destruct (Breaker.state b) eqn:E.
  - eexists _, _. split; [done|]. congruence.
  - destruct (Breaker.opened_at b) eqn:Eo; [|by destruct H].
    destruct (Qle_bool _ _); eexists _, _; (split; [done|]); simpl; [done|].
    congruence.
  - eexists _, _. split; [done|]. congruence.
Qed.

Lemma wf_insert p b (bs : Breakers) :
  breakers_wf bs -> has_opening_time b -> breakers_wf (<[p := b]> bs).
Proof.
  intros Hwf Hb q b' Hq. destruct (decide (p = q)) as [->|Hne].
  - rewrite lookup_insert_eq in Hq. by simplify_eq.
  - rewrite lookup_insert_ne in Hq by done. exact (Hwf q b' Hq).
Qed.

Lemma wf_get_breaker p (bs : Breakers) :
  breakers_wf bs ->
  has_opening_time (fst (get_breaker p bs)) /\ breakers_wf (snd (get_breaker p bs)).
Proof.
  intros Hwf. unfold get_breaker. destruct (bs !! p) as [b|] eqn:E; simpl.
  - split; [exact (Hwf p b E)|done].
  - split; [apply has_time_default|]. apply wf_insert; [done|apply has_time_default].
Qed.

Lemma wf_record_success p (bs : Breakers) :
  breakers_wf bs -> breakers_wf (record_success p bs).
Proof.
  intros Hwf. unfold record_success.
  destruct (wf_get_breaker p bs Hwf) as [Hb Hbs].
  destruct (get_breaker p bs) as [b bs1]. simpl in *.
  apply wf_insert; [done|]. by apply has_time_record_success.
Qed.

Lemma wf_record_failure p now (bs : Breakers) :
  breakers_wf bs -> breakers_wf (record_failure p now bs).
Proof.
  intros Hwf. unfold record_failure.
  destruct (wf_get_breaker p bs Hwf) as [Hb Hbs].
  destruct (get_breaker p bs) as [b bs1]. simpl in *.
  apply wf_insert; [done|]. by apply has_time_record_failure.
Qed.

Lemma wf_can_attempt p now (bs : Breakers) :
  breakers_wf bs ->
  exists ok bs', can_attempt p now bs = inr (ok, bs') /\ breakers_wf bs'.
Proof.
  intros Hwf. unfold can_attempt.
  destruct (wf_get_breaker p bs Hwf) as [Hb Hbs].
  destruct (get_breaker p bs) as [b bs1]. simpl in *.
  destruct (has_time_can_attempt now b Hb) as (ok & b' & -> & Hb').
  eexists _, _. split; [done|]. by apply wf_insert.
Qed.

Lemma wf_empty : breakers_wf ∅.
Proof. intros p b H. by rewrite lookup_empty in H. Qed.

(** *** One turn of the unary loop *)

Lemma succeeded_app tr evs :
  some_candidate_succeeded (tr ++ evs) =
  some_candidate_succeeded tr || some_candidate_succeeded evs.
Proof. apply existsb_app. Qed.

Lemma attempt_spec env timeout_ms n model_id ls :
  breakers_wf (circuit_breaker (ls_handler ls)) ->
  some_candidate_succeeded (ls_trace ls) = false ->
  match attempt env timeout_ms n model_id ls with
  | Continue ls' =>
      breakers_wf (circuit_breaker (ls_handler ls')) /\
      some_candidate_succeeded (ls_trace ls') = false
  | Return r ls' => some_candidate_succeeded (ls_trace ls') = true
  | Abort _ _ => False
  end.
Proof.
  intros Hwf Hno. unfold attempt.
  destruct (get_model _ _) as [m|]; simpl.
  2:{ split; [done|]. rewrite succeeded_app, Hno. done. }
  destruct (wf_can_attempt (provider m) (t_check env) _ Hwf) as (ok & bs & -> & Hbs).
  destruct ok; simpl.
  2:{ split; [done|]. rewrite succeeded_app, Hno. done. }
  destruct (_get_adapter _ m) as [msg|[a h2]] eqn:Ha; simpl.
  { split; [by apply wf_record_failure|]. rewrite succeeded_app, Hno. done. }
  destruct (get_adapter_frame _ _ _ _ Ha) as [Hb _]. simpl in Hb.
  destruct (outcome env) as [r| |e|msg]; simpl; rewrite ?succeeded_app, ?Hno; simpl.
  - done.
  - split; [|done]. rewrite Hb. by apply wf_record_failure.
  - split; [|done]. destruct (counts_toward_breaker e); simpl; rewrite Hb;
      [by apply wf_record_failure|done].
  - split; [|done]. rewrite Hb. by apply wf_record_failure.
Qed.

Lemma execute_loop_spec envs timeout_ms chain : forall n ls,
  breakers_wf (circuit_breaker (ls_handler ls)) ->
  some_candidate_succeeded (ls_trace ls) = false ->
  (fst (execute_loop envs timeout_ms n chain ls)
     = RaisedProviderError all_fallbacks_failed /\
   some_candidate_succeeded
     (ls_trace (snd (execute_loop envs timeout_ms n chain ls))) = false) \/
  (exists r,
      fst (execute_loop envs timeout_ms n chain ls)
        = Returned (r, ls_attempts (snd (execute_loop envs timeout_ms n chain ls))) /\
      some_candidate_succeeded
        (ls_trace (snd (execute_loop envs timeout_ms n chain ls))) = true).
Proof.
  induction chain as [|model_id rest IH]; intros n ls Hwf Hno; simpl.
  - by left.
  - pose proof (attempt_spec (envs n) timeout_ms n model_id ls Hwf Hno) as Hs.
    destruct (attempt _ _ _ _ _) as [ls'|r ls'|e ls']; simpl.
    + destruct Hs as [Hwf' Hno']. by apply IH.
    + right. by exists r.
    + done.
Qed.

(** A turn returns only with the response of an adapter call on a
    registered candidate; a turn that continues leaves the registry as it
    is. *)
Lemma attempt_return env timeout_ms n model_id ls r ls' :
  attempt env timeout_ms n model_id ls = Return r ls' ->
  is_Some (get_model (registry (ls_handler ls)) model_id) /\
  outcome env = Completes r.
Proof.
  unfold attempt.
  destruct (get_model _ _) as [m|]; [|done].
  destruct (can_attempt _ _ _) as [e|[[|] bs]]; [done| |done].
  destruct (_get_adapter _ m) as [msg|[a h2]]; [done|].
  destruct (outcome env) as [r0| |e|msg]; try done.
  intros H. simplify_eq. split; [by eexists|done].
Qed.

Lemma attempt_continue_registry env timeout_ms n model_id ls ls' :
  attempt env timeout_ms n model_id ls = Continue ls' ->
  registry (ls_handler ls') = registry (ls_handler ls).
Proof.
  unfold attempt.
  destruct (get_model _ _) as [m|]; [|by intros; simplify_eq].
  destruct (can_attempt _ _ _) as [e|[[|] bs]]; [done| |by intros; simplify_eq].
  destruct (_get_adapter _ m) as [msg|[a h2]] eqn:Ha; [by intros; simplify_eq|].
  destruct (get_adapter_frame _ _ _ _ Ha) as [_ Hr]. simpl in Hr.
  destruct (outcome env) as [r0| |e|msg]; intros H; simplify_eq; simpl; try done.
  by destruct (counts_toward_breaker e).
Qed.

Lemma execute_loop_returned envs timeout_ms chain : forall n ls r attempts ls',
  execute_loop envs timeout_ms n chain ls = (Returned (r, attempts), ls') ->
  exists (k : nat) model_id,
    chain !! k = Some model_id /\
    is_Some (get_model (registry (ls_handler ls)) model_id) /\
    outcome (envs (n + Z.of_nat k)) = Completes r.
Proof.
  induction chain as [|model_id rest IH]; intros n ls r atts ls' H; simpl in H; [done|].
  destruct (attempt _ _ _ _ _) as [ls1|r1 ls1|e ls1] eqn:Ea.
  - destruct (IH _ _ _ _ _ H) as (k & mid & Hk & Hm & Ho).
    exists (S k), mid. split; [done|].
    rewrite (attempt_continue_registry _ _ _ _ _ _ Ea) in Hm. split; [done|].
    by replace (n + Z.of_nat (S k)) with (n + 1 + Z.of_nat k) by lia.
  - simplify_eq. destruct (attempt_return _ _ _ _ _ _ _ Ea) as [Hm Ho].
    exists 0%nat, model_id. split; [done|]. split; [done|].
    by replace (n + Z.of_nat 0) with n by lia.
  - done.
Qed.

(** C5, refuted as stated: two runs end in the same raised error, one
    after an attempt on [model1] that failed (one attempt record), one
    after a candidate that is not in the registry (no record).  The error
    is the same value in both, so nothing read from it gives the attempt
    list. *)
Lemma C5_counterexample :
  ~ exists carried : ProviderError -> list FallbackAttempt,
      forall envs h req primary fallbacks timeout_ms e ls,
        execute_with_fallback envs h req primary fallbacks timeout_ms
          = (RaisedProviderError e, ls) ->
        carried e = ls_attempts ls.
Proof.
  intros [carried H].
  pose proof (H (Samples.always_fails Samples.network_error) Samples.handler_cached
                Samples.request1 "model1" [] 30000 _ _ eq_refl) as H1.
  pose proof (H (Samples.always_fails Samples.network_error) Samples.handler_cached
                Samples.request1 "no-such-model" [] 30000 _ _ eq_refl) as H2.
  vm_compute in H1, H2. rewrite H1 in H2. discriminate.
Qed.

(** A turn of the loop returns exactly for a candidate that succeeds;
    for any other candidate the loop goes on to the next one. *)
Lemma attempt_answers env timeout_ms n model_id ls :
  breakers_wf (circuit_breaker (ls_handler ls)) ->
  if RunFacts.answers env (ls_handler ls) model_id
  then exists r ls', attempt env timeout_ms n model_id ls = Return r ls' /\
                     outcome env = Completes r
  else exists ls', attempt env timeout_ms n model_id ls = Continue ls' /\
                   breakers_wf (circuit_breaker (ls_handler ls')).
Proof.
  intros Hwf. unfold RunFacts.answers, attempt.
  destruct (get_model _ _) as [m|]; [|by eexists].
  destruct (wf_can_attempt (provider m) (t_check env) _ Hwf) as (ok & bs & -> & Hbs).
  destruct ok; [|by eexists].
  destruct (_get_adapter _ m) as [msg|[a h2]] eqn:Ha.
  { eexists. split; [done|]. simpl. by apply wf_record_failure. }
  destruct (get_adapter_frame _ _ _ _ Ha) as [Hb _]. simpl in Hb.
  destruct (outcome env) as [r| |e|msg].
  - by eexists _, _.
  - eexists. split; [done|]. simpl. rewrite Hb. by apply wf_record_failure.
  - eexists. split; [done|]. simpl.
    destruct (counts_toward_breaker e); simpl; rewrite Hb; [by apply wf_record_failure|done].
  - eexists. split; [done|]. simpl. rewrite Hb. by apply wf_record_failure.
Qed.

Lemma execute_loop_answers envs timeout_ms chain : forall n ls,
  breakers_wf (circuit_breaker (ls_handler ls)) ->
  if RunFacts.no_candidate_answers envs timeout_ms n chain ls
  then fst (execute_loop envs timeout_ms n chain ls)
       = RaisedProviderError all_fallbacks_failed
  else exists r,
         fst (execute_loop envs timeout_ms n chain ls)
         = Returned (r, ls_attempts (snd (execute_loop envs timeout_ms n chain ls))).
Proof.
  induction chain as [|model_id rest IH]; intros n ls Hwf; simpl; [done|].
  pose proof (attempt_answers (envs n) timeout_ms n model_id ls Hwf) as Ht.
  destruct (RunFacts.answers (envs n) (ls_handler ls) model_id); simpl.
  - destruct Ht as (r & ls' & -> & _). simpl. by exists r.
  - destruct Ht as (ls' & -> & Hwf'). simpl. by apply IH.
Qed.

(** C5, amended.  On a handler whose breakers are well formed (an open
    breaker has its opening time, as every breaker the executor makes),
    [execute_with_fallback] raises the error tagged [all_fallbacks_failed]
    exactly when no candidate of the chain [primary :: fallbacks]
    succeeds: each one, at its turn, is missing from the registry, or
    refused by the breaker of its provider, or without an adapter, or its
    adapter call does not return a response.  If some candidate succeeds,
    the call returns, with the attempt list.  The error it raises is
    always the same value, message ["All models in fallback chain failed"],
    status 500, tag [all_fallbacks_failed], with no attempt list in it. *)
Theorem C5_all_fallbacks_failed_amended
    (envs : Z -> UnaryEnv) (h : FallbackHandler) (req : ProviderRequest)
    (primary : string) (fallbacks : list string) (timeout_ms : Z) :
  breakers_wf (circuit_breaker h) ->
  let run := execute_with_fallback envs h req primary fallbacks timeout_ms in
  let none_succeeds :=
    RunFacts.no_candidate_answers envs timeout_ms 1 (primary :: fallbacks) (start h req) in
  ((exists e, error_type e = "all_fallbacks_failed" /\ fst run = RaisedProviderError e) <->
   none_succeeds = true) /\
  (none_succeeds = false ->
   exists r, fst run = Returned (r, ls_attempts (snd run))) /\
  (forall e, fst run = RaisedProviderError e ->
     e = all_fallbacks_failed /\
     message e = "All models in fallback chain failed" /\
     status_code e = Some 500 /\ error_type e = "all_fallbacks_failed") /\
  (forall r attempts, fst run = Returned (r, attempts) ->
     attempts = ls_attempts (snd run) /\
     exists (k : nat) model_id,
       (primary :: fallbacks) !! k = Some model_id /\
       is_Some (get_model (registry h) model_id) /\
       outcome (envs (1 + Z.of_nat k)) = Completes r) /\
  ((forall (k : nat) r, outcome (envs (1 + Z.of_nat k)) <> Completes r) ->
   fst run = RaisedProviderError all_fallbacks_failed).
Proof.
  intros Hwf run none_succeeds. subst run none_succeeds.
  unfold execute_with_fallback.
  assert (forall r atts,
            fst (execute_loop envs timeout_ms 1 (primary :: fallbacks) (start h req))
              = Returned (r, atts) ->
            exists (k : nat) model_id,
              (primary :: fallbacks) !! k = Some model_id /\
              is_Some (get_model (registry h) model_id) /\
              outcome (envs (1 + Z.of_nat k)) = Completes r) as Hret.
  { intros r atts Hr.
    destruct (execute_loop envs timeout_ms 1 (primary :: fallbacks) (start h req))
      as [res ls'] eqn:E. simpl in Hr. subst res.
    exact (execute_loop_returned _ _ _ _ _ _ _ _ E). }
  pose proof (execute_loop_answers envs timeout_ms (primary :: fallbacks) 1
                (start h req) Hwf) as Hloop.
  destruct (RunFacts.no_candidate_answers envs timeout_ms 1 (primary :: fallbacks)
              (start h req)).
  - rewrite Hloop. split; [|split; [|split; [|split]]].
    + split; [done|]. intros _. by exists all_fallbacks_failed.
    + done.
    + intros e He. by simplify_eq.
    + intros r atts Hr. done.
    + done.
  - destruct Hloop as [r Hres]. split; [|split; [|split; [|split]]].
    + rewrite Hres. split; [intros (e & _ & He); done|done].
    + intros _. by exists r.
    + rewrite Hres. intros e He. done.
    + intros r' atts Hr. split; [rewrite Hres in Hr; by simplify_eq|].
      by apply (Hret r' atts).
    + intros Hnone. destruct (Hret _ _ Hres) as (k & mid & _ & _ & Ho).
      by destruct (Hnone k r).
Qed.

(** The amended statement at two runs over the chain [model1], [model2]:
    when both adapter calls fail the error is raised; when the first
    fails and the second answers it is not. *)
Lemma C5_all_fallbacks_failed_amended_witness :
  fst (execute_with_fallback (Samples.always_fails Samples.network_error)
         Samples.handler_cached Samples.request1 "model1" ["model2"] 30000)
  = RaisedProviderError all_fallbacks_failed /\
  exists r,
    fst (execute_with_fallback MoreSamples.fails_then_answers
           Samples.handler_cached Samples.request1 "model1" ["model2"] 30000)
    = Returned (r, ls_attempts
                     (snd (execute_with_fallback MoreSamples.fails_then_answers
                             Samples.handler_cached Samples.request1
                             "model1" ["model2"] 30000))).
Proof.
  split.
  - destruct (C5_all_fallbacks_failed_amended
                (Samples.always_fails Samples.network_error)
                Samples.handler_cached Samples.request1 "model1" ["model2"] 30000
                wf_empty) as ([_ Hraise] & _ & Hconst & _).
    destruct (Hraise ltac:(vm_compute; reflexivity)) as (e & _ & He).
    rewrite He. f_equal. exact (proj1 (Hconst e He)).
  - destruct (C5_all_fallbacks_failed_amended
                MoreSamples.fails_then_answers
                Samples.handler_cached Samples.request1 "model1" ["model2"] 30000
                wf_empty) as (_ & Hret & _).
    apply Hret. vm_compute. reflexivity.
Defined.

(** *** The caller's request object *)

Lemma admitted_app tr evs : admitted (tr ++ evs) = admitted tr ++ admitted evs.
Proof. apply omap_app. Qed.

Lemma admitted_yields model_id cs : admitted (map (EvYield model_id) cs) = [].
Proof. induction cs as [|c cs IH]; simpl; done. Qed.

Lemma expected_same req tr evs :
  admitted evs = [] -> expected_request req (tr ++ evs) = expected_request req tr.
Proof.
  intros H. unfold expected_request. by rewrite admitted_app, H, app_nil_r.
Qed.

Lemma expected_admitted req tr evs model_id :
  admitted evs = [model_id] ->
  expected_request req (tr ++ evs) = set_model (expected_request req tr) model_id.
Proof.
  intros H. unfold expected_request. rewrite admitted_app, H, last_snoc.
  by destruct (last (admitted tr)).
Qed.

Lemma attempt_request req env timeout_ms n model_id ls :
  ls_request ls = expected_request req (ls_trace ls) ->
  ls_request (step_state (attempt env timeout_ms n model_id ls)) =
  expected_request req (ls_trace (step_state (attempt env timeout_ms n model_id ls))).
Proof.
  intros Hreq. unfold attempt.
  destruct (get_model _ _) as [m|]; simpl; [|by rewrite expected_same].
  destruct (can_attempt _ _ _) as [e|[[|] bs]]; simpl;
    [done| |by rewrite expected_same].
  destruct (_get_adapter _ m) as [msg|[a h2]]; simpl.
  { by rewrite (expected_admitted _ _ _ model_id), Hreq. }
  destruct (outcome env) as [r| |e|msg]; simpl;
    by rewrite (expected_admitted _ _ _ model_id), Hreq.
Qed.

Lemma stream_attempt_request req env n model_id ls :
  ls_request ls = expected_request req (ls_trace ls) ->
  ls_request (step_state (stream_attempt env n model_id ls)) =
  expected_request req (ls_trace (step_state (stream_attempt env n model_id ls))).
Proof.
  intros Hreq. unfold stream_attempt.
  destruct (get_model _ _) as [m|]; simpl; [|by rewrite expected_same].
  destruct (can_attempt _ _ _) as [e|[[|] bs]]; simpl;
    [done| |by rewrite expected_same].
  destruct (_get_adapter _ m) as [msg|[a h2]]; simpl.
  { by rewrite (expected_admitted _ _ _ model_id), Hreq. }
  assert (forall cs e, admitted (EvAdmitted model_id :: EvStreamOpened model_id ::
                         (map (EvYield model_id) cs ++
                          [EvStreamEnded model_id e])) = [model_id]) as Hadm.
  { intros cs e. simpl. rewrite admitted_app, admitted_yields. done. }
  destruct (ending (s_outcome env)) as [|e|msg];
    cbn [step_state ls_request ls_trace];
    by rewrite (expected_admitted _ _ _ model_id (Hadm _ _)), Hreq.
Qed.

Lemma execute_loop_request req envs timeout_ms chain : forall n ls,
  ls_request ls = expected_request req (ls_trace ls) ->
  ls_request (snd (execute_loop envs timeout_ms n chain ls)) =
  expected_request req (ls_trace (snd (execute_loop envs timeout_ms n chain ls))).
Proof.
  induction chain as [|model_id rest IH]; intros n ls Hreq; simpl; [done|].
  pose proof (attempt_request req (envs n) timeout_ms n model_id ls Hreq) as Hs.
  destruct (attempt _ _ _ _ _) as [ls'|r ls'|e ls']; simpl in *; auto.
Qed.

Lemma stream_loop_request req envs chain : forall n ls,
  ls_request ls = expected_request req (ls_trace ls) ->
  ls_request (snd (stream_loop envs n chain ls)) =
  expected_request req (ls_trace (snd (stream_loop envs n chain ls))).
Proof.
  induction chain as [|model_id rest IH]; intros n ls Hreq; simpl; [done|].
  pose proof (stream_attempt_request req (envs n) n model_id ls Hreq) as Hs.
  destruct (stream_attempt _ _ _ _) as [ls'|r ls'|e ls']; simpl in *; auto.
Qed.

(** Only the [model] field of a request is ever assigned. *)
Lemma expected_request_frame req tr :
  let r := expected_request req tr in
  messages r = messages req /\ temperature r = temperature req /\
  max_tokens r = max_tokens req /\ top_p r = top_p req /\
  frequency_penalty r = frequency_penalty req /\
  presence_penalty r = presence_penalty req /\ tools r = tools req /\
  tool_choice r = tool_choice req /\ response_format r = response_format req /\
  stream r = stream req /\ metadata r = metadata req.
Proof.
  unfold expected_request. destruct (last (admitted tr)); simpl; repeat split.
Qed.

(** C10, refuted as stated: with an empty adapter cache, [model1] is
    invoked and fails, then [model2] is admitted but its provider has no
    API key, so [_get_adapter] raises before any adapter exists.  The
    request ends with [model = "model2"], while the last candidate whose
    adapter was invoked is [model1]. *)
Lemma C10_counterexample :
  let '(res, ls) :=
    execute_with_fallback (Samples.always_fails Samples.network_error)
      Samples.handler_fresh Samples.request1 "model1" ["model2"] 30000 in
  last (invoked (ls_trace ls)) = Some "model1" /\
  model (ls_request ls) = "model2".
Proof. vm_compute. auto. Qed.

(** A turn assigns [request.model] exactly for a candidate that is let
    through, whatever comes after the assignment. *)
Lemma attempt_assigns env timeout_ms n model_id ls :
  ls_request (step_state (attempt env timeout_ms n model_id ls)) =
  if RunFacts.let_through (ls_handler ls) (t_check env) model_id
  then set_model (ls_request ls) model_id else ls_request ls.
Proof.
  unfold RunFacts.let_through, attempt.
  destruct (get_model _ _) as [m|]; [|done].
  destruct (can_attempt _ _ _) as [e|[[|] bs]]; [done| |done].
  destruct (_get_adapter _ m) as [msg|[a h2]]; [done|].
  by destruct (outcome env).
Qed.

Lemma stream_attempt_assigns env n model_id ls :
  ls_request (step_state (stream_attempt env n model_id ls)) =
  if RunFacts.let_through (ls_handler ls) (ts_check env) model_id
  then set_model (ls_request ls) model_id else ls_request ls.
Proof.
  unfold RunFacts.let_through, stream_attempt.
  destruct (get_model _ _) as [m|]; [|done].
  destruct (can_attempt _ _ _) as [e|[[|] bs]]; [done| |done].
  destruct (_get_adapter _ m) as [msg|[a h2]]; [done|].
  by destruct (ending (s_outcome env)).
Qed.

Lemma set_model_default req cur model_id :
  set_model (set_model req (default (model req) cur)) model_id = set_model req model_id.
Proof. done. Qed.

Lemma execute_loop_last_let_through req envs timeout_ms chain : forall n ls cur,
  ls_request ls = set_model req (default (model req) cur) ->
  ls_request (snd (execute_loop envs timeout_ms n chain ls)) =
  set_model req
    (default (model req)
       (RunFacts.last_let_through
          (fun n model_id ls => attempt (envs n) timeout_ms n model_id ls)
          (fun n => t_check (envs n)) n chain ls cur)).
Proof.
  induction chain as [|model_id rest IH]; intros n ls cur Hreq; simpl; [done|].
  pose proof (attempt_assigns (envs n) timeout_ms n model_id ls) as Ha.
  rewrite Hreq in Ha.
  destruct (RunFacts.let_through _ _ _);
    destruct (attempt _ _ _ _ _) as [ls'|r ls'|e ls']; simpl in *; try done;
    by apply IH.
Qed.

Lemma stream_loop_last_let_through req envs chain : forall n ls cur,
  ls_request ls = set_model req (default (model req) cur) ->
  ls_request (snd (stream_loop envs n chain ls)) =
  set_model req
    (default (model req)
       (RunFacts.last_let_through
          (fun n model_id ls => stream_attempt (envs n) n model_id ls)
          (fun n => ts_check (envs n)) n chain ls cur)).
Proof.
  induction chain as [|model_id rest IH]; intros n ls cur Hreq; simpl; [done|].
  pose proof (stream_attempt_assigns (envs n) n model_id ls) as Ha.
  rewrite Hreq in Ha.
  destruct (RunFacts.let_through _ _ _);
    destruct (stream_attempt _ _ _ _) as [ls'|r ls'|e ls']; simpl in *; try done;
    by apply IH.
Qed.

(** C10, amended.  Both executors assign only the [model] field of the
    caller's request, in place.  In each turn the field is set to the
    candidate exactly when the candidate is found in the registry and let
    through by the breaker of its provider; the assignment comes before
    the adapter is fetched, so it also happens when no adapter can be
    made and none is called.  After the call has returned or raised,
    [model] is therefore the last candidate that was let through at its
    turn, and the value of call time if there is none.  Every other field
    is unchanged ([set_model] touches [model] only). *)
Theorem C10_request_model_overwritten_amended
    (envs : Z -> UnaryEnv) (senvs : Z -> StreamEnv) (h : FallbackHandler)
    (req : ProviderRequest) (primary : string) (fallbacks : list string)
    (timeout_ms : Z) :
  let run := execute_with_fallback envs h req primary fallbacks timeout_ms in
  let srun := stream_with_fallback senvs h req primary fallbacks timeout_ms in
  (forall env n model_id ls,
     ls_request (step_state (attempt env timeout_ms n model_id ls)) =
     if RunFacts.let_through (ls_handler ls) (t_check env) model_id
     then set_model (ls_request ls) model_id else ls_request ls) /\
  (forall env n model_id ls,
     ls_request (step_state (stream_attempt env n model_id ls)) =
     if RunFacts.let_through (ls_handler ls) (ts_check env) model_id
     then set_model (ls_request ls) model_id else ls_request ls) /\
  (forall env n model_id ls m bs msg,
     get_model (registry (ls_handler ls)) model_id = Some m ->
     can_attempt (provider m) (t_check env) (circuit_breaker (ls_handler ls))
       = inr (true, bs) ->
     _get_adapter (set_breakers (ls_handler ls) bs) m = inl msg ->
     model (ls_request (step_state (attempt env timeout_ms n model_id ls))) = model_id /\
     invoked (ls_trace (step_state (attempt env timeout_ms n model_id ls)))
       = invoked (ls_trace ls)) /\
  ls_request (snd run) =
    set_model req
      (default (model req)
         (RunFacts.last_let_through
            (fun n model_id ls => attempt (envs n) timeout_ms n model_id ls)
            (fun n => t_check (envs n)) 1 (primary :: fallbacks) (start h req) None)) /\
  ls_request (snd srun) =
    set_model req
      (default (model req)
         (RunFacts.last_let_through
            (fun n model_id ls => stream_attempt (senvs n) n model_id ls)
            (fun n => ts_check (senvs n)) 1 (primary :: fallbacks) (start h req) None)).
Proof.
  intros run srun. split; [|split; [|split; [|split]]].
  - intros. apply attempt_assigns.
  - intros. apply stream_attempt_assigns.
  - intros env n model_id ls m bs msg Hm Hc Ha. unfold attempt.
    rewrite Hm, Hc. simpl. rewrite Ha. simpl. split; [done|].
    unfold invoked. rewrite omap_app. simpl. by rewrite app_nil_r.
  - apply execute_loop_last_let_through. by destruct req.
  - apply stream_loop_last_let_through. by destruct req.
Qed.

(** C1 (fails on the code).  The first candidate yields the chunk ["Hel"]
    and then raises a provider error; the executor catches it and streams
    the second candidate from its start: the caller receives ["Hel"],
    ["Hello"], [" world"] and a normal end, where the claim has the error
    propagate after ["Hel"] and no further candidate attempted. *)
Theorem C1_stream_restarts_after_first_chunk :
  let '(res, ls) :=
    stream_with_fallback Samples.broken_then_good Samples.handler_cached
      Samples.request1 "model1" ["model2"] 30000 in
  res = Returned tt /\
  yielded (ls_trace ls) =
    [("model1", "Hel"); ("model2", "Hello"); ("model2", " world")] /\
  invoked_after_first_yield (ls_trace ls) = ["model2"].
Proof. vm_compute. auto. Qed.

End ExecutorProps.

(** ** Stable sort *)

Section StableSortProps.
Context {A : Type} (leb : A -> A -> bool).

Lemma insert_by_Permutation x l : Permutation (insert_by leb x l) (x :: l).
Proof.
  induction l as [|y l IH]; simpl; [done|].
  destruct (leb x y); [done|].
  rewrite IH. apply perm_swap.
Qed.

Lemma sort_by_Permutation l : Permutation (sort_by leb l) l.
Proof.
  induction l as [|x l IH]; simpl; [done|].
  rewrite insert_by_Permutation. by constructor.
Qed.

Lemma sort_by_length l : length (sort_by leb l) = length l.
Proof. apply Permutation_length, sort_by_Permutation. Qed.

Lemma sort_by_Forall (P : A -> Prop) l : Forall P l -> Forall P (sort_by leb l).
Proof. intros H. by rewrite sort_by_Permutation. Qed.

(** With a total [leb] the result is sorted. *)
Hypothesis leb_total : forall x y, leb x y = true \/ leb y x = true.

Lemma insert_by_Sorted x l :
  Sorted (fun a b => leb a b = true) l ->
  Sorted (fun a b => leb a b = true) (insert_by leb x l).
Proof.
  induction 1 as [|y l Hs IH Hhd]; simpl.
  - repeat constructor.
  - destruct (leb x y) eqn:E.
    + constructor; [by constructor|]. by constructor.
    + constructor; [done|].
      destruct (leb_total x y) as [?|Hyx]; [congruence|].
      destruct l as [|z l]; simpl in *.
      * by constructor.
      * destruct (leb x z); constructor; [done|]. by inversion Hhd.
Qed.

Lemma sort_by_Sorted l : Sorted (fun a b => leb a b = true) (sort_by leb l).
Proof.
  induction l as [|x l IH]; simpl; [constructor|]. by apply insert_by_Sorted.
Qed.
End StableSortProps.

(** ** Router *)

Module RouterProps.
Import Registry Router.

(** *** Lookup by id *)

Lemma foldl_insert_lookup (l : list ModelSpec) : forall (acc : gmap string ModelSpec) x m,
  foldl (fun acc model => <[id model := model]> acc) acc l !! x = Some m ->
  (m ∈ l /\ id m = x) \/ acc !! x = Some m.
Proof.
  induction l as [|a l IH]; intros acc x m H; simpl in *; [by right|].
  destruct (IH _ _ _ H) as [[Hin Hid]|Hacc].
  - left. split; [by right|done].
  - destruct (decide (id a = x)) as [<-|Hne].
    + rewrite lookup_insert_eq in Hacc. simplify_eq. left. split; [by left|done].
    + rewrite lookup_insert_ne in Hacc by done. by right.
Qed.

Lemma foldl_insert_notin (l : list ModelSpec) : forall (acc : gmap string ModelSpec) x,
  x ∉ map id l ->
  foldl (fun acc model => <[id model := model]> acc) acc l !! x = acc !! x.
Proof.
  induction l as [|a l IH]; intros acc x Hx; simpl in *; [done|].
  apply not_elem_of_cons in Hx as [Hne Hx].
  rewrite IH by done. by rewrite lookup_insert_ne.
Qed.

Lemma foldl_insert_unique (l : list ModelSpec) : forall (acc : gmap string ModelSpec) m,
  NoDup (map id l) -> m ∈ l ->
  foldl (fun acc model => <[id model := model]> acc) acc l !! id m = Some m.
Proof.
  induction l as [|a l IH]; intros acc m Hnd Hin; simpl in *.
  - by apply elem_of_nil in Hin.
  - apply NoDup_cons in Hnd as [Ha Hnd].
    apply elem_of_cons in Hin as [->|Hin].
    + rewrite foldl_insert_notin by done. apply lookup_insert_eq.
    + by apply IH.
Qed.

Lemma get_model_in reg x m :
  get_model reg x = Some m -> m ∈ models reg /\ id m = x.
Proof.
  unfold get_model, models_by_id. intros H.
  destruct (foldl_insert_lookup _ _ _ _ H) as [?|He]; [done|].
  by rewrite lookup_empty in He.
Qed.

Lemma get_model_unique reg m :
  unique_ids reg -> m ∈ models reg -> get_model reg (id m) = Some m.
Proof. intros. by apply foldl_insert_unique. Qed.

(** *** The chains the router builds *)

Lemma passes_of_member reg ctx m :
  unique_ids reg -> m ∈ models reg -> _validate_capabilities m ctx = true ->
  passes reg ctx (id m).
Proof. intros Hu Hin Hv. exists m. split; [by apply get_model_unique|done]. Qed.

Lemma resolve_fallback_chain_passes reg ids ctx :
  Forall (passes reg ctx) (_resolve_fallback_chain reg ids ctx).
Proof.
  unfold _resolve_fallback_chain. apply List.Forall_forall. intros x Hx.
  apply List.filter_In in Hx as [_ Hx].
  destruct (get_model reg x) as [m|] eqn:E; [|done]. by exists m.
Qed.

Lemma ids_pass reg ctx (l : list ModelSpec) :
  unique_ids reg ->
  Forall (fun m => m ∈ models reg /\ _validate_capabilities m ctx = true) l ->
  Forall (passes reg ctx) (map id l).
Proof.
  intros Hu H. induction H as [|m l [Hin Hv] _ IH]; simpl; constructor; [|done].
  by apply passes_of_member.
Qed.

Lemma filter_candidates reg ctx (f : ModelSpec -> bool) :
  (forall m, f m = true -> _validate_capabilities m ctx = true) ->
  Forall (fun m => m ∈ models reg /\ _validate_capabilities m ctx = true)
         (List.filter f (models reg)).
Proof.
  intros Hf. apply List.Forall_forall. intros m Hm.
  apply List.filter_In in Hm as [Hin Hm]. split; [|by apply Hf].
  by apply list_elem_of_In.
Qed.

Lemma get_fallback_models_pass reg primary ctx :
  unique_ids reg ->
  Forall (passes reg ctx) (_get_fallback_models reg primary ctx).
Proof.
  intros Hu. unfold _get_fallback_models. apply ids_pass; [done|].
  apply Forall_take, sort_by_Forall, filter_candidates.
  intros m Hm. by apply andb_true_iff in Hm as [_ ?].
Qed.

Lemma feasible_filter reg ctx :
  feasible reg ctx <->
  List.filter (fun m => _validate_capabilities m ctx) (models reg) <> [].
Proof.
  split.
  - intros (m & Hin & Hv) Hnil.
    assert (List.In m (List.filter (fun m => _validate_capabilities m ctx) (models reg))) as H.
    { apply List.filter_In. split; [by apply list_elem_of_In|done]. }
    rewrite Hnil in H. done.
  - intros Hne.
    destruct (List.filter _ _) as [|m l] eqn:E; [done|].
    assert (List.In m (List.filter (fun m => _validate_capabilities m ctx) (models reg))) as H
      by (rewrite E; by left).
    apply List.filter_In in H as [Hin Hv]. exists m. split; [by apply list_elem_of_In|done].
Qed.

Lemma default_route_spec reg ctx d :
  unique_ids reg ->
  _get_default_route reg ctx = inr d ->
  Forall (passes reg ctx) (fallback_model_ids d) /\
  (feasible reg ctx -> passes reg ctx (primary_model_id d)) /\
  (~ feasible reg ctx ->
   route_name d = "fallback_no_match" /\ fallback_model_ids d = [] /\
   head (map id (models reg)) = Some (primary_model_id d)).
Proof.
  intros Hu. unfold _get_default_route. rewrite (feasible_filter reg ctx).
  pose proof (filter_candidates reg ctx (fun m => _validate_capabilities m ctx)
                (fun m H => H)) as Hc.
  destruct (List.filter _ _) as [|c cs] eqn:E.
  - destruct (models reg) as [|first rest]; [done|]. intros H; simplify_eq. simpl.
    split; [constructor|]. split; [done|]. done.
  - apply (sort_by_Forall (fun a b => key_leb (default_key a) (default_key b))) in Hc.
    destruct (sort_by _ _) as [|primary rest]; [done|]. intros H; simplify_eq. simpl.
    apply Forall_cons in Hc as [[Hin Hv] Hrest].
    split; [|split].
    + apply ids_pass; [done|]. by apply Forall_take.
    + intros _. by apply passes_of_member.
    + intros Hn. by destruct Hn.
Qed.

Section WithRegex.
Variable re_search : string -> string -> option bool.

Lemma route_rules_spec reg ctx rs d :
  route_rules re_search reg ctx rs = Some d ->
  passes reg ctx (primary_model_id d) /\
  Forall (passes reg ctx) (fallback_model_ids d).
Proof.
  induction rs as [|r rs IH]; simpl; [done|].
  destruct (_matches_route re_search r ctx); [|done].
  destruct (get_model reg (use_model r)) as [pm|] eqn:E; [|done].
  destruct (_validate_capabilities pm ctx) eqn:Ev; [|done].
  intros H; simplify_eq. simpl. split.
  - by exists pm.
  - apply resolve_fallback_chain_passes.
Qed.

Lemma passes_feasible reg ctx x : passes reg ctx x -> feasible reg ctx.
Proof.
  intros (m & Hm & Hv). exists m. split; [|done]. by apply get_model_in in Hm as [? _].
Qed.

Lemma route_without_override_spec reg ctx d :
  unique_ids reg ->
  route_without_override re_search reg ctx = inr d ->
  Forall (passes reg ctx) (fallback_model_ids d) /\
  (feasible reg ctx -> passes reg ctx (primary_model_id d)) /\
  (~ feasible reg ctx ->
   route_name d = "fallback_no_match" /\ fallback_model_ids d = [] /\
   head (map id (models reg)) = Some (primary_model_id d)).
Proof.
  intros Hu. unfold route_without_override.
  destruct (route_rules _ _ _ _) as [d'|] eqn:E.
  - intros H; simplify_eq. apply route_rules_spec in E as [Hp Hf].
    split; [done|]. split; [done|]. intros Hn. destruct Hn. by eapply passes_feasible.
  - by apply default_route_spec.
Qed.
End WithRegex.

(** C9, refuted as stated: the registry holds one model, without tool
    support, and the context needs tools.  No route and no default
    candidate fits, and [route] returns that model as primary (route
    [fallback_no_match]); it does not pass capability validation. *)
Lemma C9_counterexample :
  exists d,
    route Samples.no_match Samples.coder_only Samples.tools_context None = inr d /\
    primary_model_id d = "deepseek-coder" /\
    route_name d = "fallback_no_match" /\
    ~ all_pass Samples.coder_only Samples.tools_context d.
Proof.
  eexists. split; [vm_compute; reflexivity|]. simpl.
  split; [done|]. split; [done|].
  intros [(m & Hm & Hv) _]. vm_compute in Hm. injection Hm as <-.
  vm_compute in Hv. discriminate.
Qed.

(** Uniqueness of the model ids is needed: with two models under one id,
    the default route picks the feasible one from the model list, while
    the id resolves to the other. *)
Lemma duplicate_ids_break_soundness :
  exists d,
    route Samples.no_match Samples.twins Samples.tools_context None = inr d /\
    route_name d = "default" /\
    ~ passes Samples.twins Samples.tools_context (primary_model_id d).
Proof.
  eexists. split; [vm_compute; reflexivity|]. simpl. split; [done|].
  intros (m & Hm & Hv). vm_compute in Hm. injection Hm as <-.
  vm_compute in Hv. discriminate.
Qed.

(** C9, amended.  For a registry whose model ids are unique and every
    decision [d] that [route] returns: every model of [d]'s fallback chain
    passes capability validation against the context; [d]'s primary passes
    it whenever some registered model is feasible for the context.  When
    none is, [d] is the first registered model with an empty fallback chain
    and route name [fallback_no_match]. *)
Theorem C9_capability_soundness_amended
    (re_search : string -> string -> option bool) (reg : ModelRegistry)
    (ctx : RoutingContext) (user_model_override : option string)
    (d : RoutingDecision) :
  unique_ids reg ->
  route re_search reg ctx user_model_override = inr d ->
  Forall (passes reg ctx) (fallback_model_ids d) /\
  (feasible reg ctx -> passes reg ctx (primary_model_id d)) /\
  (~ feasible reg ctx ->
   route_name d = "fallback_no_match" /\ fallback_model_ids d = [] /\
   head (map id (models reg)) = Some (primary_model_id d)).
Proof.
  intros Hu. unfold route.
  destruct user_model_override as [[|c o]|];
    try by apply route_without_override_spec.
  destruct (get_model reg (String c o)) as [m|] eqn:E;
    [|by apply route_without_override_spec].
  destruct (_validate_capabilities m ctx) eqn:Ev;
    [|by apply route_without_override_spec].
  intros H; simplify_eq. simpl.
  assert (passes reg ctx (String c o)) as Hp by by exists m.
  split; [by apply get_fallback_models_pass|]. split; [done|].
  intros Hn. destruct Hn. by eapply passes_feasible.
Qed.

(** The amended statement at the route [tools] of the unit tests: the
    primary [gpt-4] passes, and the fallback chain (from which
    [deepseek-coder] was dropped) passes. *)
Lemma C9_capability_soundness_amended_witness :
  exists d,
    route Samples.no_match Samples.coder_and_gpt4 Samples.tools_context None = inr d /\
    passes Samples.coder_and_gpt4 Samples.tools_context (primary_model_id d) /\
    Forall (passes Samples.coder_and_gpt4 Samples.tools_context) (fallback_model_ids d).
Proof.
  eexists. split; [vm_compute; reflexivity|].
  assert (unique_ids Samples.coder_and_gpt4) as Hu.
  { unfold unique_ids. simpl. apply (bool_decide_unpack _). vm_compute. done. }
  destruct (C9_capability_soundness_amended Samples.no_match Samples.coder_and_gpt4
              Samples.tools_context None _ Hu eq_refl) as (Hf & Hp & _).
  split; [|exact Hf]. apply Hp.
  exists Samples.gpt_4. split; [by apply list_elem_of_In; left|done].
Defined.

End RouterProps.

(** ** Reranker *)

Module RerankerProps.
Import Reranker.

Lemma tokenize_python : _tokenize "python" = ["python"].
Proof. vm_compute. reflexivity. Qed.

Lemma counter_python : Counter ["python"] = [("python", 1%nat)].
Proof. vm_compute. reflexivity. Qed.

(** *** What [rerank] returns *)

Lemma Sorted_weaken {A} (R1 R2 : A -> A -> Prop) l :
  (forall a b, R1 a b -> R2 a b) -> Sorted R1 l -> Sorted R2 l.
Proof.
  intros Himp. induction 1 as [|x l Hs IH Hhd]; constructor; [done|].
  destruct Hhd; constructor; auto.
Qed.

Lemma Sorted_take {A} (R : A -> A -> Prop) l : forall n,
  Sorted R l -> Sorted R (take n l).
Proof.
  induction l as [|x l IH]; intros n Hs; [by destruct n|].
  destruct n as [|n]; simpl; [constructor|].
  apply Sorted_inv in Hs as [Hs Hhd]. constructor; [by apply IH|].
  destruct l as [|y l]; [by destruct n|]. destruct n; simpl; constructor.
  by inversion Hhd.
Qed.

Lemma Rleb_total (x y : R) : Rleb y x = true \/ Rleb x y = true.
Proof.
  unfold Rleb. destruct (Rle_dec y x); [by left|].
  destruct (Rle_dec x y); [by right|]. lra.
Qed.

Lemma Rleb_le (x y : R) : Rleb x y = true -> (x <= y)%R.
Proof. unfold Rleb. by destruct (Rle_dec x y). Qed.

Lemma length_str_take n : forall s, (String.length (str_take n s) <= n)%nat.
Proof.
  unfold str_take. induction n as [|n IH]; intros [|c s]; simpl; try lia.
  specialize (IH s). lia.
Qed.

Lemma length_string_app (a c : string) :
  String.length (a +:+ c) = (String.length a + String.length c)%nat.
Proof. induction a as [|x a IH]; simpl; [done|]. by rewrite IH. Qed.

Lemma length_make_preview s : (String.length (make_preview s) <= 403)%nat.
Proof.
  unfold make_preview. pose proof (length_str_take 400 s).
  destruct (Nat.ltb 400 (String.length s)); [|lia].
  rewrite length_string_app. simpl. lia.
Qed.

(** The list [rerank] sorts and cuts: one entry per candidate, each with
    the preview of its content. *)
Lemma rerank_shape self t0 t1 query chunks top_k :
  exists scored,
    length scored = length chunks /\
    Forall (fun rc => preview rc = make_preview (content (chunk rc))) scored /\
    ranked_chunks (rerank self t0 t1 query chunks top_k) =
      let sorted := sort_by (fun x y => Rleb (final_score y) (final_score x)) scored in
      match top_k with
      | None => sorted
      | Some k => if k =? 0 then sorted else py_take k sorted
      end.
Proof.
  destruct chunks as [|c cs].
  - exists []. split; [done|]. split; [constructor|]. simpl.
    destruct top_k as [k|]; [|done]. destruct (k =? 0); [done|].
    unfold py_take. by destruct (0 <=? k); rewrite take_nil.
  - unfold rerank. eexists. split; [|split; [|reflexivity]].
    + rewrite length_map, length_zip_with, length_map. lia.
    + apply Forall_map. apply Forall_forall. intros [c' n] _. done.
Qed.

Lemma py_take_sublist {A} k (l : list A) : exists n, py_take k l = take n l.
Proof. unfold py_take. destruct (0 <=? k); eauto. Qed.

(** Whatever [top_k] is, the result is sorted by [final_score], highest
    first. *)
Lemma rerank_sorted self t0 t1 query chunks top_k :
  sorted_desc (ranked_chunks (rerank self t0 t1 query chunks top_k)).
Proof.
  destruct (rerank_shape self t0 t1 query chunks top_k) as (scored & _ & _ & ->).
  simpl. unfold sorted_desc.
  assert (Sorted (fun x y => (final_score y <= final_score x)%R)
            (sort_by (fun x y => Rleb (final_score y) (final_score x)) scored)) as Hs.
  { eapply Sorted_weaken; [|apply sort_by_Sorted].
    - intros a c. apply Rleb_le.
    - intros x y. apply Rleb_total. }
  destruct top_k as [k|]; [|done]. destruct (k =? 0); [done|].
  destruct (py_take_sublist k (sort_by (fun x y => Rleb (final_score y) (final_score x)) scored))
    as [n ->].
  by apply Sorted_take.
Qed.

(** Every preview has at most 403 characters. *)
Lemma rerank_previews self t0 t1 query chunks top_k :
  Forall (fun rc => (String.length (preview rc) <= 403)%nat)
         (ranked_chunks (rerank self t0 t1 query chunks top_k)).
Proof.
  destruct (rerank_shape self t0 t1 query chunks top_k) as (scored & _ & Hp & ->).
  simpl.
  assert (Forall (fun rc => (String.length (preview rc) <= 403)%nat)
            (sort_by (fun x y => Rleb (final_score y) (final_score x)) scored)) as Hs.
  { apply sort_by_Forall. eapply Forall_impl; [exact Hp|].
    intros rc ->. apply length_make_preview. }
  destruct top_k as [k|]; [|done]. destruct (k =? 0); [done|].
  destruct (py_take_sublist k (sort_by (fun x y => Rleb (final_score y) (final_score x)) scored))
    as [n ->].
  by apply Forall_take.
Qed.

(** A positive [top_k] bounds the number of chunks returned. *)
Lemma rerank_top_k_positive self t0 t1 query chunks k :
  0 < k ->
  Z.of_nat (length (ranked_chunks (rerank self t0 t1 query chunks (Some k)))) <= k.
Proof.
  intros Hk.
  destruct (rerank_shape self t0 t1 query chunks (Some k)) as (scored & _ & _ & ->).
  simpl. destruct (k =? 0) eqn:E; [lia|].
  unfold py_take. destruct (0 <=? k) eqn:E0; [|lia].
  rewrite length_take. lia.
Qed.

(** [top_k = 0] is taken for "no limit": every candidate is returned. *)
Lemma rerank_top_k_zero self t0 t1 query chunks :
  length (ranked_chunks (rerank self t0 t1 query chunks (Some 0))) = length chunks.
Proof.
  destruct (rerank_shape self t0 t1 query chunks (Some 0)) as (scored & Hl & _ & ->).
  simpl. by rewrite sort_by_length.
Qed.

(** C7 (fails on the code).  With two candidates and [top_k = 0] the
    reranker returns both, where the claim allows none: [if top_k:] takes
    0 for "no limit", like [None].  (The result is still sorted and the
    previews are within 403 characters, see [rerank_sorted] and
    [rerank_previews]; for [top_k >= 1] the bound holds, see
    [rerank_top_k_positive].) *)
Theorem C7_top_k_zero_returns_all :
  let r := rerank default_reranker 0 1 "python"
             [Samples.python_chunk; Samples.other_chunk] (Some 0) in
  length (ranked_chunks r) = 2%nat /\
  ~ (Z.of_nat (length (ranked_chunks r)) <= 0).
Proof.
  intros r. subst r. rewrite rerank_top_k_zero. simpl. split; [done|lia].
Qed.

Lemma idf_python :
  _calculate_idf ["python"] [Samples.python_chunk] = [("python", idf_of 1 1)].
Proof. reflexivity. Qed.

Lemma idf_single_negative : (idf_of 1 1 < 0)%R.
Proof.
  unfold idf_of. simpl INR.
  replace ((1 - 1 + 0.5) / (1 + 0.5))%R with (/ 3)%R by lra.
  rewrite <- ln_1. apply ln_increasing; lra.
Qed.

Lemma bm25_python :
  _bm25_score default_reranker [("python", 1%nat)] "python" 1 (INR 1 / INR 1)
    [("python", idf_of 1 1)] = idf_of 1 1.
Proof.
  pose proof idf_single_negative as Hneg.
  unfold _bm25_score. rewrite tokenize_python, counter_python.
  cbn [foldl dict_get String.eqb Ascii.eqb Bool.eqb default values map snd Rsum
       k1 b default_reranker].
  simpl INR. unfold Datatypes.id.
  generalize dependent (idf_of 1 1). intros x Hneg.
  unfold Rltb.
  destruct (Rlt_dec 0 ((0 + x) * (1.5 + 1))) as [Hpos|_]; [lra|].
  destruct (Rlt_dec 0 (1 / 1)) as [_|Hn]; [|lra].
  field. lra.
Qed.

(** What does hold of the lexical score: a term that occurs in no
    candidate has IDF 0, and a score that was normalised is at most 1. *)
Lemma idf_absent_term N : idf_of N 0 = 0%R.
Proof. reflexivity. Qed.

Lemma bm25_score_at_most_one self qtf document doc_length avg idf_scores :
  (0 < Rsum (values idf_scores) * (k1 self + 1))%R ->
  (_bm25_score self qtf document doc_length avg idf_scores <= 1)%R.
Proof.
  intros Hpos. unfold _bm25_score, Rltb.
  destruct (Rlt_dec 0 _) as [_|Hn]; [apply Rmin_r|done].
Qed.

(** C8 (fails on the code).  One candidate, whose content is the query
    ["python"]: the query term is in every candidate, its IDF is
    [ln ((1 - 1 + 0.5) / (1 + 0.5)) = ln (1/3)], below 0.  The sum of the
    IDFs is not positive, so the score is not normalised, and nothing clips
    it from below: the lexical score is [ln (1/3)], outside [0, 1]. *)
Theorem C8_bm25_score_below_zero :
  exists rc,
    ranked_chunks (rerank default_reranker 0 1 "python" [Samples.python_chunk] (Some 5))
      = [rc] /\
    rerank_score rc = ln (/ 3) /\
    (rerank_score rc < 0)%R.
Proof.
  eexists. split; [reflexivity|]. cbn [rerank_score].
  change (_bm25_score default_reranker [("python", 1%nat)] "python" 1 (INR 1 / INR 1)
            [("python", idf_of 1 1)] = ln (/ 3) /\
          (_bm25_score default_reranker [("python", 1%nat)] "python" 1 (INR 1 / INR 1)
            [("python", idf_of 1 1)] < 0)%R).
  rewrite bm25_python. split; [|apply idf_single_negative].
  unfold idf_of. simpl INR. f_equal. lra.
Qed.

End RerankerProps.

(** ** Prompt injection *)

Module InjectionProps.
Import Reranker Injection.

(** With no ranked chunk the call returns the caller's own list and
    touches nothing. *)
Lemma inject_empty repr h messages strategy :
  inject_chunks_into_prompt repr h messages [] strategy = Some (h, messages).
Proof. reflexivity. Qed.

(** Reading through references that were valid before an allocation or
    an update of a fresh cell gives what it gave before. *)
Lemma read_dict_stable (h h' : Heap) :
  (forall l o, h !! l = Some o -> h' !! l = Some o) ->
  forall l d, read_dict h l = Some d -> read_dict h' l = Some d.
Proof.
  intros Hst l d. unfold read_dict.
  destruct (h !! l) as [o|] eqn:E; [|done]. by rewrite (Hst _ _ E).
Qed.

Lemma mapM_stable {A B} (f g : A -> option B) (l : list A) : forall v,
  (forall x y, f x = Some y -> g x = Some y) ->
  mapM f l = Some v -> mapM g l = Some v.
Proof.
  induction l as [|x l IH]; intros v Hfg H; simpl in *; [done|].
  destruct (f x) as [y|] eqn:E; simpl in *; [|done].
  rewrite (Hfg _ _ E). simpl.
  destruct (mapM f l) as [k|] eqn:Ek; simpl in *; [|done].
  by rewrite (IH k Hfg eq_refl).
Qed.

Lemma view_stable (h h' : Heap) messages v :
  (forall l o, h !! l = Some o -> h' !! l = Some o) ->
  view h messages = Some v -> view h' messages = Some v.
Proof.
  intros Hst. unfold view, read_list.
  destruct (h !! messages) as [[items|d]|] eqn:E; simpl; try done.
  rewrite (Hst _ _ E). simpl. apply mapM_stable. by apply read_dict_stable.
Qed.

(** The ["system"] strategy leaves the caller's list and every message in
    it as they were: it works on a copy of the list and adds a new dict. *)
Lemma inject_system_frame repr h messages ranked v h' l' :
  view h messages = Some v ->
  inject_chunks_into_prompt repr h messages ranked "system" = Some (h', l') ->
  view h' messages = Some v.
Proof.
  intros Hv. unfold inject_chunks_into_prompt.
  destruct ranked as [|rc ranked]; [by intros; simplify_eq|].
  destruct (read_list h messages) as [items|] eqn:E; simpl; [|done].
  intros H; simplify_eq. apply (view_stable h); [|done].
  intros l o Hl. pose proof (lookup_lt_Some _ _ _ Hl) as Hlt.
  rewrite list_lookup_insert_ne by lia.
  rewrite lookup_app_l by (rewrite length_app; simpl; lia).
  by rewrite lookup_app_l by done.
Qed.

(** C6 (fails on the code).  The caller's list holds one user message.
    With one ranked chunk and the ["user"] strategy the call copies the
    list ([messages.copy()], a new list object with the same dicts) and
    then assigns [msg["content"]] on the dict it shares with the caller:
    read through the caller's own reference, the message no longer has the
    content it had.  (With no chunk, and with the ["system"] strategy,
    nothing of the caller's is touched: [inject_empty],
    [inject_system_frame].) *)
Theorem C6_user_strategy_mutates_caller_message (repr : Value -> string) :
  exists h' l' m',
    inject_chunks_into_prompt repr Samples.caller_heap Samples.caller_messages
      [Samples.ranked_python] "user" = Some (h', l') /\
    l' <> Samples.caller_messages /\
    view Samples.caller_heap Samples.caller_messages = Some [Samples.user_message] /\
    Samples.user_message !! "content" = Some (VStr "Tell me about Python") /\
    view h' Samples.caller_messages = Some [m'] /\
    m' !! "content" =
      Some (VStr (injection_content [Samples.ranked_python] +:+ nl +:+ nl +:+
                  "---" +:+ nl +:+ nl +:+ "User question: Tell me about Python")) /\
    m' !! "content" <> Samples.user_message !! "content".
Proof.
  eexists _, _, _. split; [vm_compute; reflexivity|].
  split; [vm_compute; discriminate|].
  split; [vm_compute; reflexivity|].
  split; [vm_compute; reflexivity|].
  split; [vm_compute; reflexivity|].
  split; [vm_compute; reflexivity|].
  vm_compute. discriminate.
Qed.

End InjectionProps.

(** * Further properties of the code *)

(** ** Circuit breaker: opening, cooldown and recovery *)

Module BreakerCycle.
Import Breaker.

(** The breaker after the failures recorded at the times [ts], oldest
    first. *)
Lemma failures_fold_snoc (s : CircuitBreakerState) ts t :
  foldl (fun s t => record_failure t s) s (ts ++ [t]) =
  record_failure t (foldl (fun s t => record_failure t s) s ts).
Proof. by rewrite foldl_app. Qed.

Lemma failures_fold_spec (threshold timeout attempts : Z) (ts : list Q) :
  let s := foldl (fun s t => record_failure t s) (init threshold timeout attempts) ts in
  let n := Z.of_nat (length ts) in
  failure_threshold s = threshold /\
  timeout_seconds s = timeout /\
  half_open_attempts s = attempts /\
  failure_count s = n /\
  state s = (if (1 <=? n) && (threshold <=? n) then open else closed) /\
  opened_at s = (if (1 <=? n) && (threshold <=? n)
                 then ts !! (Z.to_nat (Z.max threshold 1) - 1)%nat else None).
Proof.
  induction ts as [|t ts IH] using rev_ind; [done|].
  rewrite failures_fold_snoc, length_app. simpl length.
  destruct IH as (Hthr & Htmo & Hatt & Hcnt & Hst & Hop).
  set (s := foldl _ _ ts) in *. clearbody s.
  unfold record_failure; simpl. rewrite Hst, Hthr, Hcnt.
  replace (Z.of_nat (length ts + 1)) with (Z.of_nat (length ts) + 1) by lia.
  destruct ((1 <=? Z.of_nat (length ts)) && (threshold <=? Z.of_nat (length ts))) eqn:E.
  - apply andb_true_iff in E as [E1 E2].
    assert ((1 <=? Z.of_nat (length ts) + 1) && (threshold <=? Z.of_nat (length ts) + 1) = true)
      as -> by (apply andb_true_iff; lia).
    simpl. repeat split; try done. rewrite Hop.
    rewrite lookup_app_l; [done|]. lia.
  - destruct (threshold <=? Z.of_nat (length ts) + 1) eqn:E3; simpl.
    + assert ((1 <=? Z.of_nat (length ts) + 1) = true) as -> by lia. simpl.
      repeat split; try done.
      assert ((Z.to_nat (Z.max threshold 1) - 1)%nat = length ts) as ->.
      { apply andb_false_iff in E. lia. }
      by rewrite list_lookup_middle.
    + rewrite andb_false_r. simpl. repeat split; done.
Qed.

(** X1.  A fresh breaker that has only seen failures: the counter is their
    number; it is open exactly from the failure that reaches the threshold
    on (the first failure, for a threshold below 1), and [opened_at] is the
    time of that failure. *)
Theorem breaker_opens_at_threshold (threshold timeout attempts : Z) (ts : list Q) :
  let s := foldl (fun s t => record_failure t s) (init threshold timeout attempts) ts in
  let n := Z.of_nat (length ts) in
  failure_count s = n /\
  state s = (if (1 <=? n) && (threshold <=? n) then open else closed) /\
  opened_at s = (if (1 <=? n) && (threshold <=? n)
                 then ts !! (Z.to_nat (Z.max threshold 1) - 1)%nat else None).
Proof.
  destruct (failures_fold_spec threshold timeout attempts ts) as (_ & _ & _ & H).
  exact H.
Qed.

(** X2.  Fewer failures than the threshold, then a success: the breaker is
    again as it was constructed. *)
Theorem success_below_threshold_resets (threshold timeout attempts : Z) (ts : list Q) :
  Z.of_nat (length ts) < threshold ->
  record_success
    (foldl (fun s t => record_failure t s) (init threshold timeout attempts) ts)
  = init threshold timeout attempts.
Proof.
  intros Hlt.
  destruct (failures_fold_spec threshold timeout attempts ts)
    as (Hthr & Htmo & Hatt & Hcnt & Hst & Hop).
  simpl in *. set (s := foldl _ _ ts) in *. clearbody s.
  assert ((1 <=? Z.of_nat (length ts)) && (threshold <=? Z.of_nat (length ts)) = false) as E
    by (apply andb_false_iff; lia).
  rewrite E in Hst, Hop.
  unfold record_success, init; simpl. rewrite Hst, Hthr, Htmo, Hatt, Hop. done.
Qed.

Lemma success_below_threshold_resets_witness :
  record_success
    (foldl (fun s t => record_failure t s) (init 5 60 1) [1%Q; 2%Q; 3%Q; 4%Q])
  = init 5 60 1.
Proof. apply (success_below_threshold_resets 5 60 1 [1%Q; 2%Q; 3%Q; 4%Q]). simpl. lia. Defined.

Lemma open_rejects_before_cooldown (s : CircuitBreakerState) (t now : Q) :
  state s = open -> opened_at s = Some t ->
  (now - t < inject_Z (timeout_seconds s))%Q -> can_attempt now s = inr (false, s).
Proof.
  intros Hst Hop Hlt. unfold can_attempt. rewrite Hst, Hop.
  destruct (Qle_bool _ _) eqn:E; [|done].
  apply Qle_bool_iff in E. by apply Qle_not_lt in E.
Qed.

Lemma admitted_state (s s' : CircuitBreakerState) (now : Q) :
  can_attempt now s = inr (true, s') -> state s' = closed \/ state s' = half_open.
Proof.
  unfold can_attempt. destruct (state s) eqn:E.
  - intros; simplify_eq. by left.
  - destruct (opened_at s); [|done].
    destruct (Qle_bool _ _); intros; simplify_eq. by right.
  - intros; simplify_eq. by right.
Qed.

(** X3.  An open breaker refuses, and stays as it is, until the cooldown
    [timeout_seconds] has passed since [opened_at]; the first admission
    check from then on admits and makes it half-open, and a success
    recorded on the half-open breaker puts it back into the state it was
    constructed in. *)
Theorem open_breaker_recovers_after_cooldown (s : CircuitBreakerState) (t now : Q) :
  state s = open -> opened_at s = Some t ->
  ((now - t < inject_Z (timeout_seconds s))%Q -> can_attempt now s = inr (false, s)) /\
  ((inject_Z (timeout_seconds s) <= now - t)%Q ->
   exists s',
     can_attempt now s = inr (true, s') /\ state s' = half_open /\
     failure_count s' = failure_count s /\
     record_success s' =
       init (failure_threshold s) (timeout_seconds s) (half_open_attempts s)).
Proof.
  intros Hst Hop. split.
  - by apply open_rejects_before_cooldown.
  - unfold can_attempt. rewrite Hst, Hop.
    intros Hle. apply Qle_bool_iff in Hle. rewrite Hle.
    eexists. split; [done|]. by repeat split.
Qed.

Lemma open_breaker_recovers_after_cooldown_witness :
  can_attempt 30 Samples.opened_breaker = inr (false, Samples.opened_breaker) /\
  exists s',
    can_attempt 100 Samples.opened_breaker = inr (true, s') /\
    record_success s' = default.
Proof.
  split.
  - apply (open_breaker_recovers_after_cooldown Samples.opened_breaker 10 30);
      [reflexivity..|]. unfold Qlt. simpl. lia.
  - destruct (proj2 (open_breaker_recovers_after_cooldown Samples.opened_breaker 10 100
                       eq_refl eq_refl)) as (s' & Hc & _ & _ & Hr).
    { unfold Qle. simpl. lia. }
    exists s'. split; [exact Hc|exact Hr].
Defined.

End BreakerCycle.

(** ** Fallback executor: what a run does to breakers, attempts and cache *)

Module ExecutorRuns.
Import Providers Registry Executor.

(** *** Operations on one provider leave the others alone *)

Lemma lookup_get_breaker_ne p q (bs : Breakers) :
  p <> q -> snd (get_breaker p bs) !! q = bs !! q.
Proof.
  intros Hne. unfold get_breaker. destruct (bs !! p); simpl; [done|].
  by rewrite lookup_insert_ne.
Qed.

Lemma lookup_record_success_ne p q (bs : Breakers) :
  p <> q -> record_success p bs !! q = bs !! q.
Proof.
  intros Hne. unfold record_success.
  pose proof (lookup_get_breaker_ne p q bs Hne) as H.
  destruct (get_breaker p bs) as [b bs1]. simpl in H.
  by rewrite lookup_insert_ne.
Qed.

Lemma lookup_record_failure_ne p q now (bs : Breakers) :
  p <> q -> record_failure p now bs !! q = bs !! q.
Proof.
  intros Hne. unfold record_failure.
  pose proof (lookup_get_breaker_ne p q bs Hne) as H.
  destruct (get_breaker p bs) as [b bs1]. simpl in H.
  by rewrite lookup_insert_ne.
Qed.

Lemma lookup_can_attempt_ne p q now (bs bs' : Breakers) ok :
  p <> q -> can_attempt p now bs = inr (ok, bs') -> bs' !! q = bs !! q.
Proof.
  intros Hne. unfold can_attempt.
  pose proof (lookup_get_breaker_ne p q bs Hne) as H.
  destruct (get_breaker p bs) as [b bs1]. simpl in H.
  destruct (Breaker.can_attempt now b) as [e|[ok' b']]; [done|].
  intros Heq; simplify_eq. by rewrite lookup_insert_ne.
Qed.

(** X4.  The breaker map is kept per provider: recording a success or a
    failure for one provider, or asking whether it may be attempted, leaves
    the breaker of every other provider as it was. *)
Theorem breakers_are_independent (p q : string) (now : Q) (bs : Breakers) :
  p <> q ->
  record_success p bs !! q = bs !! q /\
  record_failure p now bs !! q = bs !! q /\
  (forall ok bs', can_attempt p now bs = inr (ok, bs') -> bs' !! q = bs !! q) /\
  failures q (record_failure p now bs) = failures q bs.
Proof.
  intros Hne. split; [by apply lookup_record_success_ne|].
  split; [by apply lookup_record_failure_ne|].
  split; [intros ok bs' H; by eapply lookup_can_attempt_ne|].
  unfold failures, get_breaker. rewrite lookup_record_failure_ne by done.
  by destruct (bs !! q).
Qed.

Lemma breakers_are_independent_witness :
  failures "provider2" (record_failure "provider1" 1 ∅) = 0 /\
  failures "provider1" (record_failure "provider1" 1 ∅) = 1.
Proof.
  split.
  - rewrite (proj2 (proj2 (proj2 (breakers_are_independent "provider1" "provider2" 1 ∅
                                    ltac:(discriminate))))).
    reflexivity.
  - reflexivity.
Defined.

(** *** The adapter cache *)

(** X5.  Once [_get_adapter] has given an adapter for a provider, every later
    call for a model of that provider gives the same adapter and changes
    nothing; and no call ever touches the breakers, the registry, or the
    cached adapter of another provider. *)
Theorem get_adapter_caches (h h' : FallbackHandler) (m : ModelSpec) (a : Adapter) :
  _get_adapter h m = inr (a, h') ->
  (forall m', provider m' = provider m -> _get_adapter h' m' = inr (a, h')) /\
  circuit_breaker h' = circuit_breaker h /\
  registry h' = registry h /\
  (forall q, q <> provider m -> adapters h' !! q = adapters h !! q).
Proof.
  intros H.
  assert (adapters h' !! provider m = Some a) as Hc.
  { revert H. unfold _get_adapter.
    destruct (adapters h !! provider m) eqn:E; [intros; by simplify_eq|].
    destruct (get_provider_config _ _); [|done].
    destruct (get_api_key _ _) as [[|c k]|]; [done| |done].
    intros; simplify_eq. simpl. apply lookup_insert_eq. }
  split; [|split; [|split]].
  - intros m' Hp. unfold _get_adapter. by rewrite Hp, Hc.
  - by destruct (ExecutorProps.get_adapter_frame _ _ _ _ H).
  - by destruct (ExecutorProps.get_adapter_frame _ _ _ _ H).
  - intros q Hq. revert H. unfold _get_adapter.
    destruct (adapters h !! provider m) eqn:E; [intros; by simplify_eq|].
    destruct (get_provider_config _ _); [|done].
    destruct (get_api_key _ _) as [[|c k]|]; [done| |done].
    intros; simplify_eq. simpl. by rewrite lookup_insert_ne.
Qed.

Lemma get_adapter_caches_witness :
  exists a h',
    _get_adapter Samples.handler_fresh Samples.model1 = inr (a, h') /\
    _get_adapter h' Samples.model1 = inr (a, h').
Proof.
  eexists _, _. split; [reflexivity|].
  eapply (proj1 (get_adapter_caches Samples.handler_fresh _ Samples.model1 _ eq_refl)).
  reflexivity.
Defined.

(** *** A provider whose breaker is open *)

Section OpenProvider.
Variables (reg : ModelRegistry) (p : string) (b : Breaker.CircuitBreakerState) (t : Q).
Hypothesis b_open : Breaker.state b = Breaker.open.
Hypothesis b_opened_at : Breaker.opened_at b = Some t.

Lemma can_attempt_open_provider now (bs : Breakers) :
  bs !! p = Some b ->
  (now - t < inject_Z (Breaker.timeout_seconds b))%Q ->
  exists bs', can_attempt p now bs = inr (false, bs') /\ bs' !! p = Some b.
Proof.
  intros Hb Hlt. unfold can_attempt, get_breaker. rewrite Hb.
  rewrite (BreakerCycle.open_rejects_before_cooldown b t now b_open b_opened_at Hlt).
  eexists. split; [done|]. apply lookup_insert_eq.
Qed.

Lemma attempt_open_inv env timeout_ms n model_id ls :
  (t_check env - t < inject_Z (Breaker.timeout_seconds b))%Q ->
  RunFacts.open_inv reg p b ls ->
  RunFacts.open_inv reg p b (step_state (attempt env timeout_ms n model_id ls)).
Proof.
  unfold RunFacts.open_inv. intros Hlt (Hb & Hreg & Hadm). unfold attempt.
  destruct (get_model _ _) as [m|] eqn:Em; simpl.
  2:{ split; [done|]. split; [done|].
      rewrite ExecutorProps.admitted_app. simpl. by rewrite app_nil_r. }
  destruct (decide (provider m = p)) as [Hp|Hp].
  { rewrite Hp.
    destruct (can_attempt_open_provider (t_check env) _ Hb Hlt) as (bs' & -> & Hb').
    simpl. split; [done|]. split; [done|].
    rewrite ExecutorProps.admitted_app. simpl. by rewrite app_nil_r. }
  assert (RunFacts.not_on_provider reg p model_id) as Hnot.
  { intros m' Hm'. rewrite <- Hreg in Hm'. by simplify_eq. }
  destruct (can_attempt _ _ _) as [e|[[|] bs]] eqn:Ec; simpl.
  - done.
  - pose proof (lookup_can_attempt_ne _ p _ _ _ _ Hp Ec) as Hl.
    destruct (_get_adapter _ m) as [msg|[a h2]] eqn:Ha; simpl.
    { split; [by rewrite lookup_record_failure_ne, Hl|]. split; [done|].
      rewrite ExecutorProps.admitted_app. simpl. apply Forall_app. split; [done|].
      by repeat constructor. }
    destruct (ExecutorProps.get_adapter_frame _ _ _ _ Ha) as [Hcb Hr]. simpl in Hcb, Hr.
    assert (Forall (RunFacts.not_on_provider reg p)
              (admitted (ls_trace ls ++ [EvAdmitted model_id; EvComplete model_id (outcome env)])))
      as Hadm'.
    { rewrite ExecutorProps.admitted_app. simpl. apply Forall_app. split; [done|].
      by repeat constructor. }
    destruct (outcome env) as [r| |e|msg]; simpl.
    + split; [by rewrite lookup_record_success_ne, Hcb, Hl|]. split; [congruence|done].
    + split; [by rewrite lookup_record_failure_ne, Hcb, Hl|]. split; [congruence|done].
    + split; [|split; [by destruct (counts_toward_breaker e); simpl; congruence|done]].
      destruct (counts_toward_breaker e); simpl;
        [by rewrite lookup_record_failure_ne, Hcb, Hl|by rewrite Hcb, Hl].
    + split; [by rewrite lookup_record_failure_ne, Hcb, Hl|]. split; [congruence|done].
  - pose proof (lookup_can_attempt_ne _ p _ _ _ _ Hp Ec) as Hl.
    split; [by rewrite Hl|]. split; [done|].
    rewrite ExecutorProps.admitted_app. simpl. by rewrite app_nil_r.
Qed.

Lemma execute_loop_open_inv envs timeout_ms chain : forall n ls,
  (forall k, (t_check (envs k) - t < inject_Z (Breaker.timeout_seconds b))%Q) ->
  RunFacts.open_inv reg p b ls ->
  RunFacts.open_inv reg p b (snd (execute_loop envs timeout_ms n chain ls)).
Proof.
  induction chain as [|model_id rest IH]; intros n ls Hlt Hinv; simpl; [done|].
  pose proof (attempt_open_inv (envs n) timeout_ms n model_id ls (Hlt n) Hinv) as Hs.
  destruct (attempt _ _ _ _ _) as [ls'|r ls'|e ls']; simpl in *; auto.
Qed.
End OpenProvider.

(** X6.  While the breaker of a provider is open and its cooldown has not
    passed, a run of [execute_with_fallback] admits no candidate of that
    provider (its adapter is not called and [request.model] is not set to
    it), and the breaker is, at the end of the run, exactly as it was:
    being skipped charges nothing. *)
Theorem open_provider_is_skipped
    (envs : Z -> UnaryEnv) (h : FallbackHandler) (req : ProviderRequest)
    (primary : string) (fallbacks : list string) (timeout_ms : Z)
    (p : string) (b : Breaker.CircuitBreakerState) (t : Q) :
  circuit_breaker h !! p = Some b ->
  Breaker.state b = Breaker.open ->
  Breaker.opened_at b = Some t ->
  (forall k, (t_check (envs k) - t < inject_Z (Breaker.timeout_seconds b))%Q) ->
  let run := execute_with_fallback envs h req primary fallbacks timeout_ms in
  circuit_breaker (ls_handler (snd run)) !! p = Some b /\
  Forall (fun model_id =>
            forall m, get_model (registry h) model_id = Some m -> provider m <> p)
         (admitted (ls_trace (snd run))).
Proof.
  intros Hb Hst Hop Hlt run.
  destruct (execute_loop_open_inv (registry h) p b t Hst Hop envs timeout_ms
              (primary :: fallbacks) 1 (start h req) Hlt) as (H1 & _ & H2).
  { split; [done|]. split; [done|]. constructor. }
  split; [exact H1|exact H2].
Qed.

Lemma open_provider_is_skipped_witness :
  let run := execute_with_fallback MoreSamples.always_answers
               MoreSamples.handler_provider1_open Samples.request1
               "model1" ["model2"] 30000 in
  circuit_breaker (ls_handler (snd run)) !! "provider1" = Some Samples.opened_breaker /\
  admitted (ls_trace (snd run)) = ["model2"].
Proof.
  split; [|vm_compute; reflexivity].
  apply (open_provider_is_skipped MoreSamples.always_answers
           MoreSamples.handler_provider1_open Samples.request1 "model1" ["model2"] 30000
           "provider1" Samples.opened_breaker 10); [reflexivity..|].
  intros k. unfold Qlt. simpl. lia.
Defined.

(** *** The attempt list *)

Lemma sorted_snoc (l : list Z) (n : Z) :
  Sorted Z.lt l -> Forall (fun x => x < n) l -> Sorted Z.lt (l ++ [n]).
Proof.
  induction 1 as [|x l Hs IH Hhd]; intros Hall; simpl; [by repeat constructor|].
  apply Forall_cons in Hall as [Hx Hall]. constructor; [by apply IH|].
  destruct l as [|y l]; simpl; constructor; [done|by inversion Hhd].
Qed.

(** What one turn of the unary loop does to the attempt list and to the
    registry. *)
Lemma attempt_attempts env timeout_ms n model_id ls :
  let ls' := step_state (attempt env timeout_ms n model_id ls) in
  registry (ls_handler ls') = registry (ls_handler ls) /\
  (ls_attempts ls' = ls_attempts ls \/
   exists a m,
     ls_attempts ls' = ls_attempts ls ++ [a] /\
     attempt_n a = n /\ a_model_id a = model_id /\
     get_model (registry (ls_handler ls)) model_id = Some m /\
     a_provider a = provider m).
Proof.
  unfold attempt.
  destruct (get_model _ _) as [m|] eqn:Em; simpl; [|by split; [|left]].
  destruct (can_attempt _ _ _) as [e|[[|] bs]] eqn:Ec; simpl.
  - by split; [|left].
  - destruct (_get_adapter _ m) as [msg|[a h2]] eqn:Ha; simpl.
    { split; [done|]. right. by eexists _, m. }
    destruct (ExecutorProps.get_adapter_frame _ _ _ _ Ha) as [_ Hr]. simpl in Hr.
    destruct (outcome env) as [r| |e|msg]; simpl.
    + split; [done|]. destruct (1 <? n); [right; by eexists _, m|by left].
    + split; [done|]. right. by eexists _, m.
    + split; [by destruct (counts_toward_breaker e)|]. right. by eexists _, m.
    + split; [done|]. right. by eexists _, m.
  - split; [done|]. right. by eexists _, m.
Qed.

Lemma execute_loop_attempts reg full envs timeout_ms chain : forall (pre : list string) ls,
  full = pre ++ chain ->
  registry (ls_handler ls) = reg ->
  Sorted Z.lt (map attempt_n (ls_attempts ls)) ->
  Forall (fun a => attempt_n a < Z.of_nat (length pre) + 1) (ls_attempts ls) ->
  Forall (RunFacts.record_of_chain reg full) (ls_attempts ls) ->
  (length (ls_attempts ls) <= length pre)%nat ->
  let ls' := snd (execute_loop envs timeout_ms (Z.of_nat (length pre) + 1) chain ls) in
  Sorted Z.lt (map attempt_n (ls_attempts ls')) /\
  Forall (RunFacts.record_of_chain reg full) (ls_attempts ls') /\
  (length (ls_attempts ls') <= length full)%nat.
Proof.
  induction chain as [|model_id rest IH]; intros pre ls Hfull Hreg Hs Hlt Hrec Hlen; simpl.
  { subst full. rewrite app_nil_r in *. by repeat split. }
  pose proof (attempt_attempts (envs (Z.of_nat (length pre) + 1)) timeout_ms
                (Z.of_nat (length pre) + 1) model_id ls) as [Hreg' Hatt].
  simpl in Hreg', Hatt.
  assert (Sorted Z.lt (map attempt_n (ls_attempts
             (step_state (attempt (envs (Z.of_nat (length pre) + 1)) timeout_ms
                            (Z.of_nat (length pre) + 1) model_id ls)))) /\
          Forall (fun a => attempt_n a < Z.of_nat (length (pre ++ [model_id])) + 1)
            (ls_attempts (step_state (attempt (envs (Z.of_nat (length pre) + 1)) timeout_ms
                            (Z.of_nat (length pre) + 1) model_id ls))) /\
          Forall (RunFacts.record_of_chain reg full)
            (ls_attempts (step_state (attempt (envs (Z.of_nat (length pre) + 1)) timeout_ms
                            (Z.of_nat (length pre) + 1) model_id ls))) /\
          (length (ls_attempts (step_state (attempt (envs (Z.of_nat (length pre) + 1)%Z)
                            timeout_ms (Z.of_nat (length pre) + 1)%Z model_id ls)))
           <= length (pre ++ [model_id]))%nat) as (Hs' & Hlt' & Hrec' & Hlen').
  { rewrite length_app. simpl length.
    destruct Hatt as [->|(a & m & -> & Hn & Hid & Hm & Hp)].
    - split; [done|]. split; [|split; [done|lia]].
      eapply Forall_impl; [exact Hlt|]. simpl. lia.
    - split; [|split; [|split; [|rewrite length_app; simpl; lia]]].
      + rewrite map_app. simpl. rewrite Hn. apply sorted_snoc; [done|].
        by apply Forall_map.
      + apply Forall_app. split.
        * eapply Forall_impl; [exact Hlt|]. simpl. lia.
        * constructor; [lia|constructor].
      + apply Forall_app. split; [done|]. constructor; [|constructor].
        exists (length pre), m. split; [done|]. split.
        * rewrite Hfull, Hid. by rewrite list_lookup_middle.
        * rewrite Hid, <- Hreg. done. }
  assert (length (pre ++ [model_id]) <= length full)%nat as Hle
    by (rewrite Hfull, !length_app; simpl; lia).
  destruct (attempt _ _ _ _ _) as [ls1|r ls1|e ls1]; simpl in *;
    try (split; [done|split; [done|lia]]).
  replace (Z.of_nat (length pre) + 1 + 1) with (Z.of_nat (length (pre ++ [model_id])) + 1)
    by (rewrite length_app; simpl; lia).
  apply IH; try done.
  - by rewrite <- app_assoc.
  - congruence.
Qed.

(** X7.  The attempt list of a run of [execute_with_fallback], whether it is
    returned or lost with the raised error: the ordinals are strictly
    increasing, and each record sits at its ordinal in the chain
    [primary :: fallbacks], with the provider of the registered model.  So
    there is at most one record per candidate. *)
Theorem attempts_follow_the_chain
    (envs : Z -> UnaryEnv) (h : FallbackHandler) (req : ProviderRequest)
    (primary : string) (fallbacks : list string) (timeout_ms : Z) :
  let run := execute_with_fallback envs h req primary fallbacks timeout_ms in
  Sorted Z.lt (map attempt_n (ls_attempts (snd run))) /\
  Forall (RunFacts.record_of_chain (registry h) (primary :: fallbacks))
         (ls_attempts (snd run)) /\
  (length (ls_attempts (snd run)) <= length (primary :: fallbacks))%nat.
Proof.
  apply (execute_loop_attempts (registry h) (primary :: fallbacks) envs timeout_ms
           (primary :: fallbacks) [] (start h req)); try done; constructor.
Qed.

(** *** Streaming charges the breaker by status code only *)

(** X8.  When the stream of an admitted candidate ends in a provider error [e],
    [stream_with_fallback] goes on to the next candidate, and the failure
    counter of the provider grows by one exactly when [e.status_code >=
    500]: unlike the unary executor, it does not count an error tagged
    [timeout] with a lower status (the adapter's 408). *)
Theorem stream_charges_by_status_only
    (env : StreamEnv) (n : Z) (model_id : string) (ls : LoopState)
    (m : ModelSpec) (bs : Breakers) (a : Adapter) (h2 : FallbackHandler)
    (e : ProviderError) :
  get_model (registry (ls_handler ls)) model_id = Some m ->
  can_attempt (provider m) (ts_check env) (circuit_breaker (ls_handler ls))
    = inr (true, bs) ->
  _get_adapter (set_breakers (ls_handler ls) bs) m = inr (a, h2) ->
  ending (s_outcome env) = StreamProviderError e ->
  (exists ls',
      stream_attempt env n model_id ls = Continue ls' /\
      failures (provider m) (circuit_breaker (ls_handler ls')) =
      failures (provider m) bs + (if stream_counts_toward_breaker e then 1 else 0)) /\
  (stream_counts_toward_breaker e = true <->
   exists sc, status_code e = Some sc /\ 500 <= sc) /\
  (stream_counts_toward_breaker e = true -> counts_toward_breaker e = true).
Proof.
  intros Hm Hc Ha Ho. split; [|split].
  - unfold stream_attempt. rewrite Hm, Hc. simpl. rewrite Ha. simpl. rewrite Ho.
    eexists. split; [reflexivity|]. simpl.
    destruct (ExecutorProps.get_adapter_frame _ _ _ _ Ha) as [Hb _]. simpl in Hb.
    destruct (stream_counts_toward_breaker e); simpl.
    + rewrite ExecutorProps.failures_record_failure, Hb. done.
    + rewrite Hb. lia.
  - unfold stream_counts_toward_breaker. destruct (status_code e) as [sc|].
    + rewrite andb_true_iff, negb_true_iff. split.
      * intros [_ H]. exists sc. split; [done|lia].
      * intros (sc' & Hsc & Hge). simplify_eq. lia.
    + split; [done|]. by intros (sc & ? & _).
  - unfold stream_counts_toward_breaker, counts_toward_breaker.
    destruct (status_code e) as [sc|]; [|done]. by intros ->.
Qed.

Lemma stream_charges_by_status_only_witness :
  exists ls',
    stream_attempt (MoreSamples.stream_fails MoreSamples.timeout_408 1) 1 "model1"
      (start Samples.handler_cached Samples.request1) = Continue ls' /\
    failures "provider1" (circuit_breaker (ls_handler ls')) = 0 /\
    counts_toward_breaker MoreSamples.timeout_408 = true.
Proof.
  destruct (stream_charges_by_status_only
              (MoreSamples.stream_fails MoreSamples.timeout_408 1) 1 "model1"
              (start Samples.handler_cached Samples.request1)
              Samples.model1
              (<["provider1" := Breaker.default]> ∅)
              (Samples.adapter_of "provider1")
              (set_breakers Samples.handler_cached
                 (<["provider1" := Breaker.default]> ∅))
              MoreSamples.timeout_408) as [(ls' & Hstep & Hcount) _];
    [vm_compute; reflexivity ..|].
  exists ls'. split; [exact Hstep|]. split; [exact (eq_trans Hcount eq_refl)|reflexivity].
Defined.

(** *** The candidate that answered *)

Lemma invoked_app tr evs : invoked (tr ++ evs) = invoked tr ++ invoked evs.
Proof. apply omap_app. Qed.

Lemma record_success_closes p (bs : Breakers) b :
  bs !! p = Some b ->
  Breaker.state b = Breaker.closed \/ Breaker.state b = Breaker.half_open ->
  exists b', record_success p bs !! p = Some b' /\
             Breaker.state b' = Breaker.closed /\ Breaker.failure_count b' = 0 /\
             Breaker.last_failure_time b' = None.
Proof.
  intros Hb Hst. unfold record_success, get_breaker. rewrite Hb.
  rewrite lookup_insert_eq. eexists. split; [done|].
  unfold Breaker.record_success. simpl. by destruct Hst as [-> | ->].
Qed.

Lemma can_attempt_admitted p now (bs bs' : Breakers) :
  can_attempt p now bs = inr (true, bs') ->
  exists b, bs' !! p = Some b /\
            (Breaker.state b = Breaker.closed \/ Breaker.state b = Breaker.half_open).
Proof.
  unfold can_attempt. destruct (get_breaker p bs) as [b bs1].
  destruct (Breaker.can_attempt now b) as [e|[ok b']] eqn:E; [done|].
  intros H; simplify_eq. exists b'. split; [apply lookup_insert_eq|].
  by eapply BreakerCycle.admitted_state.
Qed.

(** A turn that returns: the candidate is registered, its adapter
    answered, it is the last one invoked, the attempt list got a record
    for it unless it is the first ordinal, and the breaker of its provider
    is closed and clean. *)
Lemma attempt_return_facts env timeout_ms n model_id ls r ls' :
  attempt env timeout_ms n model_id ls = Return r ls' ->
  exists m,
    get_model (registry (ls_handler ls)) model_id = Some m /\
    registry (ls_handler ls') = registry (ls_handler ls) /\
    last (invoked (ls_trace ls')) = Some model_id /\
    (if 1 <? n
     then exists a, ls_attempts ls' = ls_attempts ls ++ [a] /\
                    a_model_id a = model_id /\ a_status_code a = Some 200 /\
                    a_error_type a = None
     else ls_attempts ls' = ls_attempts ls) /\
    exists b, circuit_breaker (ls_handler ls') !! provider m = Some b /\
              Breaker.state b = Breaker.closed /\ Breaker.failure_count b = 0 /\
              Breaker.last_failure_time b = None.
Proof.
  unfold attempt.
  destruct (get_model _ _) as [m|] eqn:Em; [|done].
  destruct (can_attempt _ _ _) as [e|[[|] bs]] eqn:Ec; [done| |done].
  destruct (_get_adapter _ m) as [msg|[a h2]] eqn:Ha; [done|].
  destruct (ExecutorProps.get_adapter_frame _ _ _ _ Ha) as [Hcb Hr]. simpl in Hcb, Hr.
  destruct (outcome env) as [r0| |e|msg]; try done.
  intros H; simplify_eq. exists m. simpl.
  split; [done|]. split; [done|]. split.
  { rewrite invoked_app. simpl. by rewrite last_snoc. }
  split.
  { destruct (1 <? n); [|done]. by eexists. }
  destruct (can_attempt_admitted _ _ _ _ Ec) as (b & Hb & Hst).
  by apply (record_success_closes _ _ b).
Qed.

Lemma execute_loop_return_facts envs timeout_ms chain : forall n ls r attempts ls',
  1 <= n -> (n = 1 -> ls_attempts ls = []) ->
  execute_loop envs timeout_ms n chain ls = (Returned (r, attempts), ls') ->
  exists model_id m,
    get_model (registry (ls_handler ls)) model_id = Some m /\
    last (invoked (ls_trace ls')) = Some model_id /\
    match last attempts with
    | Some a => a_model_id a = model_id /\ a_status_code a = Some 200 /\
                a_error_type a = None
    | None => n = 1 /\ head chain = Some model_id
    end /\
    exists b, circuit_breaker (ls_handler ls') !! provider m = Some b /\
              Breaker.state b = Breaker.closed /\ Breaker.failure_count b = 0 /\
              Breaker.last_failure_time b = None.
Proof.
  induction chain as [|model_id rest IH]; intros n ls r atts ls' Hn Hfirst H;
    simpl in H; [done|].
  destruct (attempt _ _ _ _ _) as [ls1|r1 ls1|e ls1] eqn:Ea.
  - destruct (IH (n + 1) ls1 r atts ls') as (mid & m & Hm & Hl & Hlast & Hb);
      [lia|lia|done|].
    pose proof (attempt_attempts (envs n) timeout_ms n model_id ls) as [Hreg _].
    rewrite Ea in Hreg. simpl in Hreg.
    exists mid, m. rewrite <- Hreg. split; [done|]. split; [done|]. split; [|done].
    destruct (last atts); [done|]. lia.
  - simplify_eq.
    destruct (attempt_return_facts _ _ _ _ _ _ _ Ea) as (m & Hm & _ & Hl & Hatt & Hb).
    exists model_id, m. split; [done|]. split; [done|]. split; [|done].
    destruct (1 <? n) eqn:E1.
    + destruct Hatt as (a & -> & Hid & Hsc & Het). by rewrite last_snoc.
    + rewrite Hatt, Hfirst by lia. simpl. split; [lia|done].
  - done.
Qed.

(** X9.  A run of [execute_with_fallback] on its own, with no other request
    using the shared breaker map while it runs: when it returns a
    response, the breaker of the provider that gave it is closed with a
    failure count of 0, whatever it was before the run, and the attempt
    list is empty exactly when the response came from the first candidate
    of the chain at the first ordinal; otherwise its last record is the
    success (status 200, no error tag) of the candidate that answered. *)
Theorem returned_response_closes_breaker
    (envs : Z -> UnaryEnv) (h : FallbackHandler) (req : ProviderRequest)
    (primary : string) (fallbacks : list string) (timeout_ms : Z)
    (r : ProviderResponse) (attempts : list FallbackAttempt) :
  let run := execute_with_fallback envs h req primary fallbacks timeout_ms in
  fst run = Returned (r, attempts) ->
  exists model_id m b,
    last (invoked (ls_trace (snd run))) = Some model_id /\
    get_model (registry h) model_id = Some m /\
    circuit_breaker (ls_handler (snd run)) !! provider m = Some b /\
    Breaker.state b = Breaker.closed /\ Breaker.failure_count b = 0 /\
    match last attempts with
    | Some a => a_model_id a = model_id /\ a_status_code a = Some 200 /\
                a_error_type a = None
    | None => model_id = primary
    end.
Proof.
  intros run Hr. subst run. unfold execute_with_fallback in *.
  destruct (execute_loop envs timeout_ms 1 (primary :: fallbacks) (start h req))
    as [res ls'] eqn:E. simpl in Hr. subst res.
  destruct (execute_loop_return_facts envs timeout_ms (primary :: fallbacks) 1
              (start h req) r attempts ls')
    as (mid & m & Hm & Hl & Hlast & b & Hb & Hst & Hc & _); [lia|done|done|].
  exists mid, m, b. simpl. repeat (split; [done|]).
  destruct (last attempts); [done|]. destruct Hlast as [_ Hh]. simpl in Hh. congruence.
Qed.

Lemma returned_response_closes_breaker_witness :
  exists model_id m b,
    last (invoked (ls_trace (snd (execute_with_fallback MoreSamples.fails_then_answers
            Samples.handler_cached Samples.request1 "model1" ["model2"] 30000))))
      = Some model_id /\
    get_model Samples.two_providers model_id = Some m /\
    circuit_breaker (ls_handler (snd (execute_with_fallback MoreSamples.fails_then_answers
            Samples.handler_cached Samples.request1 "model1" ["model2"] 30000)))
      !! provider m = Some b /\
    Breaker.state b = Breaker.closed.
Proof.
  destruct (returned_response_closes_breaker MoreSamples.fails_then_answers
              Samples.handler_cached Samples.request1 "model1" ["model2"] 30000
              MoreSamples.ok_response
              (ls_attempts (snd (execute_with_fallback MoreSamples.fails_then_answers
                 Samples.handler_cached Samples.request1 "model1" ["model2"] 30000))))
    as (mid & m & b & H1 & H2 & H3 & H4 & _); [vm_compute; reflexivity|].
  exists mid, m, b. auto.
Defined.

End ExecutorRuns.


(** ** The orchestrator's log *)

Module CompletionProps.
Import Providers Registry Executor Completion.

(** X10.  When the executor returns a response to [CompletionHandler.complete],
    the request log names the candidate that gave the response (the last
    one whose adapter was called) as [model_id] and the provider of that
    candidate as [provider], carries no error tag, and has [fallback_used]
    false only when the answer came from the primary at the first turn.
    The router and the executor share one registry. *)
Theorem success_log_names_answering_model
    (envs : Z -> UnaryEnv) (h : FallbackHandler) (provider_request : ProviderRequest)
    (d : Router.RoutingDecision) (r : ProviderResponse) (attempts : list FallbackAttempt) :
  let run := dispatch envs h provider_request d in
  fst run = Returned (r, attempts) ->
  exists lf model_id m,
    log_of (registry h) d (fst run) = Some lf /\
    last (invoked (ls_trace (snd run))) = Some model_id /\
    get_model (registry h) model_id = Some m /\
    log_model_id lf = model_id /\
    log_provider lf = provider m /\
    log_error_type lf = None /\
    log_fallback_chain lf = attempts /\
    (log_fallback_used lf = false -> model_id = Router.primary_model_id d).
Proof.
  intros run Hr. subst run. unfold dispatch, execute_with_fallback in *.
  destruct (execute_loop _ _ _ _ _) as [res ls'] eqn:E. simpl in Hr. subst res.
  destruct (ExecutorRuns.execute_loop_return_facts _ _ _ _ _ r attempts ls'
              (Z.le_refl 1) (fun _ => eq_refl (ls_attempts (start h _))) E)
    as (mid & m & Hm & Hl & Hlast & _).
  simpl in Hm. simpl fst. simpl snd. unfold log_of, success_log, final_model_id.
  eexists _, mid, m. split; [reflexivity|]. simpl.
  destruct (last attempts) as [a|] eqn:El.
  - destruct Hlast as (Hid & _). rewrite Hid, Hm.
    repeat (split; [done|]). intros Hf.
    destruct attempts; [done|]. done.
  - destruct Hlast as [_ Hh]. simpl in Hh. injection Hh as <-. rewrite Hm. done.
Qed.

Lemma success_log_names_answering_model_witness :
  exists lf,
    log_of Samples.two_providers MoreSamples.decision_1_then_2
      (fst (dispatch MoreSamples.fails_then_answers Samples.handler_cached
              Samples.request1 MoreSamples.decision_1_then_2)) = Some lf /\
    log_model_id lf = "model2" /\ log_provider lf = "provider2".
Proof.
  destruct (success_log_names_answering_model MoreSamples.fails_then_answers
              Samples.handler_cached Samples.request1 MoreSamples.decision_1_then_2
              MoreSamples.ok_response
              (ls_attempts (snd (dispatch MoreSamples.fails_then_answers
                 Samples.handler_cached Samples.request1 MoreSamples.decision_1_then_2))))
    as (lf & mid & m & Hlog & Hl & Hm & Hid & Hp & _); [vm_compute; reflexivity|].
  exists lf. split; [exact Hlog|].
  assert (mid = "model2") as -> by (vm_compute in Hl; congruence).
  split; [exact Hid|]. rewrite Hp. vm_compute in Hm. by injection Hm as <-.
Defined.

End CompletionProps.

(** ** Dictionaries in insertion order *)

Module DictFacts.
Import Reranker.

Lemma dict_get_set_eq {V : Type} k (v : V) d : dict_get k (dict_set k v d) = Some v.
Proof.
  induction d as [|[k' v'] d IH]; simpl.
  - by rewrite String.eqb_refl.
  - destruct (String.eqb k k') eqn:E; simpl; rewrite E; done.
Qed.

Lemma dict_get_set_ne {V : Type} k k' (v : V) d :
  k <> k' -> dict_get k (dict_set k' v d) = dict_get k d.
Proof.
  intros Hne. induction d as [|[k2 v2] d IH]; simpl.
  - by apply String.eqb_neq in Hne as ->.
  - destruct (String.eqb k' k2) eqn:E; simpl.
    + apply String.eqb_eq in E as <-. by apply String.eqb_neq in Hne as ->.
    + by rewrite IH.
Qed.

Lemma dict_get_None {V : Type} k (d : list (string * V)) :
  dict_get k d = None <-> ~ In k (keys d).
Proof.
  induction d as [|[k' v'] d IH]; simpl; [tauto|].
  destruct (String.eqb_spec k k') as [->|Hne].
  - split; [done|]. intros H. destruct H. by left.
  - rewrite IH. split; [|tauto]. intros H [?|?]; [congruence|tauto].
Qed.

Lemma keys_dict_set {V : Type} k (v : V) d :
  keys (dict_set k v d) = if bool_decide (k ∈ keys d) then keys d else keys d ++ [k].
Proof.
  induction d as [|[k' v'] d IH]; simpl; [done|].
  destruct (String.eqb_spec k k') as [->|Hne]; simpl.
  - rewrite bool_decide_eq_true_2; [done|by left].
  - rewrite IH. destruct (bool_decide (k ∈ keys d)) eqn:E.
    + apply bool_decide_eq_true_1 in E.
      rewrite bool_decide_eq_true_2; [done|by right].
    + apply bool_decide_eq_false_1 in E.
      rewrite bool_decide_eq_false_2; [done|].
      intros [?|?]%elem_of_cons; [congruence|done].
Qed.

Lemma keys_dict_set_incl {V : Type} k (v : V) d allowed :
  In k allowed -> incl (keys d) allowed -> incl (keys (dict_set k v d)) allowed.
Proof.
  intros Hk Hd. rewrite keys_dict_set. case_bool_decide; [done|].
  apply incl_app; [done|]. intros x [<-|[]]. done.
Qed.

Lemma NoDup_keys_dict_set {V : Type} k (v : V) d :
  List.NoDup (keys d) -> List.NoDup (keys (dict_set k v d)).
Proof.
  intros Hd. rewrite keys_dict_set. case_bool_decide as Hin; [done|].
  apply NoDup_ListNoDup. apply NoDup_ListNoDup in Hd.
  apply NoDup_app. split; [done|]. split; [|apply NoDup_singleton].
  intros x Hx Hx'. apply list_elem_of_singleton in Hx' as ->. done.
Qed.

Lemma Forall_dict_set {V : Type} (P : string * V -> Prop) k v d :
  P (k, v) -> Forall P d -> Forall P (dict_set k v d).
Proof.
  intros Hk Hd. induction Hd as [|[k' v'] d Hx Hd IH]; simpl.
  - by constructor.
  - destruct (String.eqb_spec k k') as [->|Hne]; by constructor.
Qed.

End DictFacts.

(** ** Provider adapters *)

Module AdapterProps.
Import Providers Adapters.

Lemma categorize_nonempty sc : _categorize_error sc <> EmptyString.
Proof. unfold _categorize_error. repeat case_match; done. Qed.

Lemma init_categorized msg sc :
  ProviderError_init msg (Some sc) (Some (_categorize_error sc)) =
  {| message := msg; Providers.status_code := Some sc;
     error_type := _categorize_error sc |}.
Proof.
  unfold ProviderError_init. f_equal.
  destruct (decide (_categorize_error sc = EmptyString)) as [H|]; [|done].
  by apply categorize_nonempty in H.
Qed.

(** *** [complete] *)

(** Every error that [ProviderAdapter.complete] raises has one of three
    shapes: status 408 with tag [timeout], status 500 with tag [network],
    or status 500 with tag [unknown]; each counts for the breaker. *)
Lemma complete_error_shapes
    (repr attribute_error : Value -> string) (self : ProviderAdapter)
    (request : ProviderRequest) (post : PostOutcome) (latency_ms : Q)
    (e : ProviderError) :
  complete repr attribute_error self request post latency_ms = inl e ->
  In (Providers.status_code e, error_type e)
     [(Some 408, "timeout"); (Some 500, "network"); (Some 500, "unknown")] /\
  Executor.counts_toward_breaker e = true.
Proof.
  unfold complete.
  destruct (complete_try _ _ _ _ _ _) as [x|r]; [|done].
  intros [= <-]. destruct x; simpl; split; try reflexivity.
  - by left.
  - right. by left.
  - right. right. by left.
  - right. right. by left.
Qed.

(** X11.  An attempt of the unary executor whose adapter call is
    [ProviderAdapter.complete] either returns the response or charges the
    breaker of the provider with one failure: [complete] turns every
    exception, the error of a 4xx response included, into a
    [ProviderError] with status 408 or 500, so that no failure of the
    call is left uncounted, and the error the attempt records has one of
    the tags [timeout], [network], [unknown]. *)
Theorem adapter_failure_always_charges_breaker
    (repr attribute_error : Value -> string) (self : ProviderAdapter)
    (request : ProviderRequest) (waited : option (PostOutcome * Q))
    (env : Executor.UnaryEnv) (timeout_ms n : Z) (model_id : string)
    (ls : Executor.LoopState) (m : Registry.ModelSpec) (bs : Executor.Breakers)
    (a : Executor.Adapter) (h2 : Executor.FallbackHandler) :
  Registry.get_model (Executor.registry (Executor.ls_handler ls)) model_id = Some m ->
  Executor.can_attempt (Registry.provider m) (Executor.t_check env)
    (Executor.circuit_breaker (Executor.ls_handler ls)) = inr (true, bs) ->
  Executor._get_adapter (Executor.set_breakers (Executor.ls_handler ls) bs) m
    = inr (a, h2) ->
  Executor.outcome env = awaited_complete repr attribute_error self request waited ->
  (exists r ls', Executor.attempt env timeout_ms n model_id ls = Executor.Return r ls') \/
  (exists ls' rec,
      Executor.attempt env timeout_ms n model_id ls = Executor.Continue ls' /\
      Executor.failures (Registry.provider m)
        (Executor.circuit_breaker (Executor.ls_handler ls')) =
      Executor.failures (Registry.provider m) bs + 1 /\
      last (Executor.ls_attempts ls') = Some rec /\
      In (Executor.a_error_type rec) [Some "timeout"; Some "network"; Some "unknown"]).
Proof.
  intros Hm Hc Ha Ho. unfold Executor.attempt. rewrite Hm, Hc. simpl. rewrite Ha, Ho.
  destruct (ExecutorProps.get_adapter_frame _ _ _ _ Ha) as [Hb _]. simpl in Hb.
  unfold awaited_complete. destruct waited as [[post latency_ms]|].
  - destruct (complete _ _ _ _ _ _) as [e|r] eqn:Ec.
    + right. apply complete_error_shapes in Ec as [Hshape Hcount].
      rewrite Hcount. eexists _, _. split; [reflexivity|]. simpl.
      rewrite ExecutorProps.failures_record_failure, Hb. split; [done|].
      rewrite last_snoc. split; [done|]. simpl.
      destruct Hshape as [H|[H|[H|[]]]]; injection H as _ <-; simpl; tauto.
    + left. by eexists _, _.
  - right. eexists _, _. split; [reflexivity|]. simpl.
    rewrite ExecutorProps.failures_record_failure, Hb. split; [done|].
    rewrite last_snoc. split; [done|]. simpl. tauto.
Qed.

Lemma adapter_failure_always_charges_breaker_witness :
  exists ls',
    Executor.attempt MoreSamples.rate_limited_env 30000 1 "model1"
      (Executor.start Samples.handler_cached Samples.request1) = Executor.Continue ls' /\
    Executor.failures "provider1" (Executor.circuit_breaker (Executor.ls_handler ls')) = 1.
Proof.
  destruct (adapter_failure_always_charges_breaker
              (fun _ => "?") (fun _ => "no attribute get")
              MoreSamples.lenient_adapter MoreSamples.openai_request
              (Some (Responds MoreSamples.rate_limited, 1%Q))
              MoreSamples.rate_limited_env 30000 1 "model1"
              (Executor.start Samples.handler_cached Samples.request1)
              Samples.model1
              (<["provider1" := Breaker.default]> ∅)
              (Samples.adapter_of "provider1")
              (Executor.set_breakers Samples.handler_cached
                 (<["provider1" := Breaker.default]> ∅)))
    as [(r & ls' & Hret)|(ls' & rec & Hstep & Hcount & _)];
    [vm_compute; reflexivity ..| |].
  - vm_compute in Hret. discriminate Hret.
  - exists ls'. split; [exact Hstep|exact (eq_trans Hcount eq_refl)].
Defined.

(** X12.  A response whose status is not 200 never gives a result, and the
    status and the category that [complete] computes for it are lost: the
    [ProviderError] raised inside the [try] block is caught by the
    [except Exception] clause of the same block and replaced by an error
    with status 500 and tag [unknown], whatever the status of the response
    was (401, 429, 503, ...). *)
Theorem complete_non_200_is_unknown_500
    (repr attribute_error : Value -> string) (self : ProviderAdapter)
    (request : ProviderRequest) (response : HttpResponse) (latency_ms : Q) :
  Adapters.status_code response <> 200 ->
  exists msg,
    complete repr attribute_error self request (Responds response) latency_ms =
    inl {| message := msg; Providers.status_code := Some 500; error_type := "unknown" |}.
Proof.
  intros Hs. unfold complete, complete_try.
  destruct (Z.eqb_spec (Adapters.status_code response) 200) as [|_]; [done|]. simpl.
  destruct (if String.eqb (text response) EmptyString then _ else _) as [msg|error_data].
  { by eexists. }
  destruct (py_get _ error_data _ _) as [msg|err]; [by eexists|].
  destruct (py_get _ err _ _) as [msg|error_message]; by eexists.
Qed.

Lemma complete_non_200_is_unknown_500_witness :
  exists msg,
    complete (fun _ => "?") (fun _ => "no attribute get") MoreSamples.lenient_adapter
      MoreSamples.openai_request (Responds MoreSamples.rate_limited) 1 =
    inl {| message := msg; Providers.status_code := Some 500; error_type := "unknown" |}.
Proof.
  apply (complete_non_200_is_unknown_500 (fun _ => "?") (fun _ => "no attribute get")
           MoreSamples.lenient_adapter MoreSamples.openai_request
           MoreSamples.rate_limited 1).
  vm_compute. discriminate.
Defined.

(** *** [stream_complete] *)

(** X13.  For a response whose status is not 200, [stream_complete] yields
    no chunk.  When the body can be read and decoded, the error it raises
    keeps the status of the response and its category, with the body as
    message (there is no [except Exception] clause), and the streaming
    executor counts it as a breaker failure exactly when the status is
    500 or more.  When reading the body raises an httpx timeout, the error
    is status 408 with tag [timeout], which the streaming executor does
    not count; for another httpx error it is status 500 with tag
    [network], which it counts; any other exception of the read or the
    decoding passes through as it is. *)
Theorem stream_non_200_keeps_category
    (json_loads : string -> option Value) (self : ProviderAdapter)
    (request : ProviderRequest) (response : StreamResponse) :
  s_status_code response <> 200 ->
  let out := stream_complete json_loads self request (Opens response) in
  chunks out = [] /\
  match s_body response with
  | inr body =>
      let e := {| message := body;
                  Providers.status_code := Some (s_status_code response);
                  error_type := _categorize_error (s_status_code response) |} in
      ending out = StreamProviderError e /\
      Executor.stream_counts_toward_breaker e = (500 <=? s_status_code response)
  | inl (RaisedTimeoutException _) =>
      exists e,
        ending out = StreamProviderError e /\
        Providers.status_code e = Some 408 /\ error_type e = "timeout" /\
        Executor.stream_counts_toward_breaker e = false
  | inl (RaisedHTTPError msg) =>
      exists e,
        ending out = StreamProviderError e /\ message e = msg /\
        Providers.status_code e = Some 500 /\ error_type e = "network" /\
        Executor.stream_counts_toward_breaker e = true
  | inl (RaisedProvider pe) => ending out = StreamProviderError pe
  | inl (RaisedException msg) => ending out = StreamOther msg
  end.
Proof.
  intros Hs out. subst out. unfold stream_complete.
  destruct (Z.eqb_spec (s_status_code response) 200) as [|_]; [done|]. simpl.
  destruct (s_body response) as [[msg|msg|pe|msg]|body]; simpl.
  - split; [done|]. by eexists.
  - split; [done|]. by eexists.
  - done.
  - done.
  - split; [done|]. rewrite init_categorized. split; [done|].
    unfold Executor.stream_counts_toward_breaker. simpl.
    by destruct (Z.eqb_spec (s_status_code response) 0) as [->|].
Qed.

Lemma stream_non_200_keeps_category_witness :
  chunks (stream_complete (fun _ => None) MoreSamples.lenient_adapter
            MoreSamples.openai_request (Opens MoreSamples.rate_limited_stream)) = [] /\
  ending (stream_complete (fun _ => None) MoreSamples.lenient_adapter
            MoreSamples.openai_request (Opens MoreSamples.rate_limited_stream)) =
    StreamProviderError
      {| message := "rate limit body"; Providers.status_code := Some 429;
         error_type := "rate_limit" |} /\
  Executor.stream_counts_toward_breaker
    {| message := "rate limit body"; Providers.status_code := Some 429;
       error_type := "rate_limit" |} = false /\
  exists e,
    ending (stream_complete (fun _ => None) MoreSamples.lenient_adapter
              MoreSamples.openai_request (Opens MoreSamples.unreadable_stream)) =
      StreamProviderError e /\
    Providers.status_code e = Some 500 /\ error_type e = "network".
Proof.
  destruct (stream_non_200_keeps_category (fun _ => None) MoreSamples.lenient_adapter
              MoreSamples.openai_request MoreSamples.rate_limited_stream)
    as (Hc & He & Hn); [vm_compute; discriminate|].
  destruct (stream_non_200_keeps_category (fun _ => None) MoreSamples.lenient_adapter
              MoreSamples.openai_request MoreSamples.unreadable_stream)
    as (_ & e & He' & _ & Hs & Ht & _); [vm_compute; discriminate|].
  split; [exact Hc|]. split; [exact He|]. split; [exact Hn|].
  exists e. split; [exact He'|]. split; [exact Hs|exact Ht].
Defined.

Lemma stream_lines_nonempty json_loads self lines at_end :
  Forall (fun c => c <> EmptyString) (fst (stream_lines json_loads self lines at_end)) /\
  (length (fst (stream_lines json_loads self lines at_end))
   <= length (List.filter (startswith "data: ") lines))%nat.
Proof.
  induction lines as [|line rest [IH1 IH2]]; [by split; [constructor|]|].
  cbn [stream_lines List.filter].
  destruct (startswith "data: " line); [|done]. cbn [length].
  destruct (String.eqb _ _); [split; [constructor|cbn [fst length]; lia]|].
  destruct (json_loads _) as [chunk|]; [|split; [done|lia]].
  destruct (parse_stream_chunk self chunk) as [msg|[[|c0 c]|]];
    try (split; [done|lia]); try (split; [constructor|cbn [fst length]; lia]).
  destruct (stream_lines _ _ _ _) as [cs e]. cbn [fst length] in *.
  split; [by constructor|lia].
Qed.

(** X14.  [stream_complete] never yields an empty chunk, and yields at most one
    chunk per line that starts with [data: ]. *)
Theorem stream_chunks_nonempty
    (json_loads : string -> option Value) (self : ProviderAdapter)
    (request : ProviderRequest) (opened : StreamOpen) :
  let out := stream_complete json_loads self request opened in
  Forall (fun c => c <> EmptyString) (chunks out) /\
  (length (chunks out)
   <= match opened with
      | Opens response => length (List.filter (startswith "data: ") (s_lines response))
      | OpenFails _ => 0
      end)%nat.
Proof.
  unfold stream_complete. destruct opened as [response|e]; simpl; [|by split].
  destruct (negb _); simpl; [destruct (s_body response); simpl; split; (done || lia)|].
  pose proof (stream_lines_nonempty json_loads self (s_lines response) (s_end response)) as H.
  by destruct (stream_lines _ _ _ _).
Qed.

Lemma stream_lines_sentinel json_loads self line after at_end : forall before,
  startswith "data: " line = true ->
  strip (str_drop 6 line) = "[DONE]" ->
  stream_lines json_loads self (before ++ line :: after) at_end =
  stream_lines json_loads self (before ++ [line]) None.
Proof.
  intros before Hd Hs. induction before as [|l before IH]; cbn [app stream_lines].
  - by rewrite Hd, Hs.
  - destruct (startswith "data: " l); [|done].
    destruct (String.eqb _ _); [done|].
    destruct (json_loads _) as [chunk|]; [|done].
    destruct (parse_stream_chunk self chunk) as [msg|[[|c0 c]|]]; try done.
    by rewrite IH.
Qed.

(** X15.  The sentinel line [data: [DONE]] ends the stream: the lines after it,
    and an error of the connection after it, change nothing of what
    [stream_complete] yields or how it ends. *)
Theorem stream_ends_at_sentinel
    (json_loads : string -> option Value) (self : ProviderAdapter)
    (request : ProviderRequest) (status : Z) (body : Raised + string)
    (before after : list string) (line : string) (at_end : option Raised) :
  startswith "data: " line = true ->
  strip (str_drop 6 line) = "[DONE]" ->
  stream_complete json_loads self request
    (Opens {| s_status_code := status; s_body := body;
              s_lines := before ++ line :: after; s_end := at_end |}) =
  stream_complete json_loads self request
    (Opens {| s_status_code := status; s_body := body;
              s_lines := before ++ [line]; s_end := None |}).
Proof.
  intros Hd Hs. unfold stream_complete. simpl.
  destruct (negb _); [done|]. by rewrite (stream_lines_sentinel _ _ _ _ _ _ Hd Hs).
Qed.

Lemma stream_ends_at_sentinel_witness :
  stream_complete (fun s => Some (VStr s)) MoreSamples.lenient_adapter
    MoreSamples.openai_request
    (Opens (MoreSamples.stream_with_sentinel ["data: late"]
              (Some (RaisedHTTPError "connection reset")))) =
  stream_complete (fun s => Some (VStr s)) MoreSamples.lenient_adapter
    MoreSamples.openai_request
    (Opens (MoreSamples.stream_with_sentinel [] None)).
Proof.
  exact (stream_ends_at_sentinel (fun s => Some (VStr s)) MoreSamples.lenient_adapter
           MoreSamples.openai_request 200 (inr EmptyString)
           ["data: a"; ": keep-alive"; "data: b"] ["data: late"] "data: [DONE]"
           (Some (RaisedHTTPError "connection reset")) eq_refl eq_refl).
Defined.

(** *** [prepare_request] *)

Lemma keys_put_if_set_incl key x payload allowed :
  In key allowed -> incl (Reranker.keys payload) allowed ->
  incl (Reranker.keys (put_if_set key x payload)) allowed.
Proof. destruct x; simpl; [apply DictFacts.keys_dict_set_incl|done]. Qed.

Lemma keys_put_if_truthy_incl key x payload allowed :
  In key allowed -> incl (Reranker.keys payload) allowed ->
  incl (Reranker.keys (put_if_truthy key x payload)) allowed.
Proof.
  destruct x as [v|]; simpl; [|done]. destruct (truthy v); [|done].
  apply DictFacts.keys_dict_set_incl.
Qed.

Lemma NoDup_put_if_set key x payload :
  List.NoDup (Reranker.keys payload) -> List.NoDup (Reranker.keys (put_if_set key x payload)).
Proof. destruct x; simpl; [apply DictFacts.NoDup_keys_dict_set|done]. Qed.

Lemma NoDup_put_if_truthy key x payload :
  List.NoDup (Reranker.keys payload) ->
  List.NoDup (Reranker.keys (put_if_truthy key x payload)).
Proof.
  destruct x as [v|]; simpl; [|done]. destruct (truthy v); [|done].
  apply DictFacts.NoDup_keys_dict_set.
Qed.

Lemma get_put_if_set_ne k key x payload :
  k <> key -> Reranker.dict_get k (put_if_set key x payload) = Reranker.dict_get k payload.
Proof. intros. destruct x; simpl; [by apply DictFacts.dict_get_set_ne|done]. Qed.

Lemma get_put_if_truthy_ne k key x payload :
  k <> key ->
  Reranker.dict_get k (put_if_truthy key x payload) = Reranker.dict_get k payload.
Proof.
  intros. destruct x as [v|]; simpl; [|done]. destruct (truthy v); [|done].
  by apply DictFacts.dict_get_set_ne.
Qed.

(** X16.  The payload that [OpenAIAdapter.prepare_request] builds has each key
    once, and only keys among the eleven chat-completion parameters (the
    request's [metadata] is never sent); [model] is the request's model,
    an optional number is present exactly when it is set, and [tools] is
    present exactly when the list is non-empty.
    [DeepSeekAdapter.prepare_request] builds the same payload. *)
Theorem payload_of_request (request : ProviderRequest) :
  let payload := openai_prepare_request request in
  deepseek_prepare_request request = payload /\
  List.NoDup (Reranker.keys payload) /\
  incl (Reranker.keys payload)
       ["model"; "messages"; "stream"; "temperature"; "max_tokens"; "top_p";
        "frequency_penalty"; "presence_penalty"; "tools"; "tool_choice";
        "response_format"] /\
  Reranker.dict_get "model" payload = Some (VStr (model request)) /\
  Reranker.dict_get "temperature" payload = VFloat <$> temperature request /\
  Reranker.dict_get "max_tokens" payload = VInt <$> max_tokens request /\
  Reranker.dict_get "tools" payload =
    match tools request with
    | Some (x :: l) => Some (VList (x :: l))
    | _ => None
    end.
Proof.
  intros payload. subst payload. unfold openai_prepare_request.
  split; [reflexivity|]. split; [|split; [|split; [|split; [|split]]]].
  - repeat (first [apply NoDup_put_if_truthy | apply NoDup_put_if_set]).
    simpl. apply NoDup_ListNoDup. by apply (bool_decide_unpack _).
  - repeat (first [apply keys_put_if_truthy_incl | apply keys_put_if_set_incl]);
      try (simpl; tauto).
    intros k Hk. simpl in *. tauto.
  - by rewrite !get_put_if_truthy_ne, !get_put_if_set_ne.
  - rewrite !get_put_if_truthy_ne by done.
    do 4 (rewrite get_put_if_set_ne by done).
    by destruct (temperature request).
  - rewrite !get_put_if_truthy_ne by done.
    do 3 (rewrite get_put_if_set_ne by done).
    destruct (max_tokens request); simpl; [|by rewrite get_put_if_set_ne].
    apply DictFacts.dict_get_set_eq.
  - do 2 (rewrite get_put_if_truthy_ne by done).
    destruct (tools request) as [[|x l]|]; simpl.
    + by rewrite !get_put_if_set_ne.
    + apply DictFacts.dict_get_set_eq.
    + by rewrite !get_put_if_set_ne.
Qed.

(** *** [AdapterFactory] *)

Lemma lower_ascii_idem c : Registry.lower_ascii (Registry.lower_ascii c) = Registry.lower_ascii c.
Proof.
  destruct c as [[] [] [] [] [] [] [] []]; reflexivity.
Qed.

Lemma lower_idem s : Registry.lower (Registry.lower s) = Registry.lower s.
Proof.
  induction s as [|c s IH]; simpl; [done|]. by rewrite lower_ascii_idem, IH.
Qed.

Lemma lower_ascii_stays_ascii c :
  Nat.ltb (nat_of_ascii c) 128 = true ->
  Nat.ltb (nat_of_ascii (Registry.lower_ascii c)) 128 = true.
Proof.
  destruct c as [[] [] [] [] [] [] [] []]; vm_compute; done.
Qed.

Lemma lower_stays_ascii s : ascii_only s = true -> ascii_only (Registry.lower s) = true.
Proof.
  unfold ascii_only. induction s as [|c s IH]; simpl; [done|].
  rewrite !andb_true_iff. intros [Hc Hs]. split; [by apply lower_ascii_stays_ascii|by apply IH].
Qed.

(** X17.  For provider names of ASCII text, on which [str.lower()] lowers
    the ASCII letters, the adapter table is keyed by the lower-case name:
    after [register_adapter(p, c)], [create] gives [c] for every name
    that agrees with [p] up to case and what it gave before for every
    other name; and [create] does not tell a name from its lower-case
    form. *)
Theorem create_after_register
    (str_lower : string -> string)
    (table : gmap string AdapterClass) (p q : string) (c : AdapterClass) :
  (forall s, ascii_only s = true -> str_lower s = Registry.lower s) ->
  ascii_only p = true -> ascii_only q = true ->
  create str_lower (register_adapter str_lower table p c) q =
    (if decide (Registry.lower p = Registry.lower q) then c
     else create str_lower table q) /\
  create str_lower table (str_lower q) = create str_lower table q.
Proof.
  intros Hlow Hp Hq. unfold create, register_adapter.
  rewrite (Hlow p Hp), (Hlow q Hq). split.
  - destruct (decide _) as [->|Hne].
    + by rewrite lookup_insert_eq.
    + by rewrite lookup_insert_ne.
  - rewrite (Hlow _ (lower_stays_ascii q Hq)). by rewrite lower_idem.
Qed.

Lemma create_after_register_witness :
  create Registry.lower
    (register_adapter Registry.lower builtin_adapters "Mistral"
       (CustomAdapter "MistralAdapter")) "MISTRAL" = CustomAdapter "MistralAdapter" /\
  create Registry.lower
    (register_adapter Registry.lower builtin_adapters "Mistral"
       (CustomAdapter "MistralAdapter")) "DeepSeek" = DeepSeekAdapter /\
  create Registry.lower
    (register_adapter Registry.lower builtin_adapters "Mistral"
       (CustomAdapter "MistralAdapter")) "anthropic" = OpenAIAdapter.
Proof.
  split; [|split].
  - exact (proj1 (create_after_register Registry.lower builtin_adapters "Mistral" "MISTRAL"
                    (CustomAdapter "MistralAdapter") (fun s _ => eq_refl) eq_refl eq_refl)).
  - exact (proj1 (create_after_register Registry.lower builtin_adapters "Mistral" "DeepSeek"
                    (CustomAdapter "MistralAdapter") (fun s _ => eq_refl) eq_refl eq_refl)).
  - exact (proj1 (create_after_register Registry.lower builtin_adapters "Mistral" "anthropic"
                    (CustomAdapter "MistralAdapter") (fun s _ => eq_refl) eq_refl eq_refl)).
Defined.

End AdapterProps.

(** ** Registry lookups *)

Module RegistryProps.
Import Registry RegistryQueries.

Lemma foldl_insert_last (l : list ModelSpec) (acc : gmap string ModelSpec) x :
  foldl (fun acc model => <[id model := model]> acc) acc l !! x =
  match last (List.filter (fun m => String.eqb (id m) x) l) with
  | Some m => Some m
  | None => acc !! x
  end.
Proof.
  induction l as [|a l IH] using rev_ind; [done|].
  rewrite foldl_app, List.filter_app. simpl.
  destruct (String.eqb_spec (id a) x) as [<-|Hne].
  - by rewrite lookup_insert_eq, last_snoc.
  - by rewrite lookup_insert_ne, app_nil_r.
Qed.

(** X18.  [get_model] gives the last model of the configured list that has the
    id asked for, and nothing when no model has it;
    [validate_model_exists] says whether some model has the id. *)
Theorem get_model_is_last_with_id (reg : ModelRegistry) (model_id : string) :
  get_model reg model_id =
    last (List.filter (fun m => String.eqb (id m) model_id) (models reg)) /\
  validate_model_exists reg model_id =
    existsb (fun m => String.eqb (id m) model_id) (models reg).
Proof.
  assert (get_model reg model_id =
          last (List.filter (fun m => String.eqb (id m) model_id) (models reg))) as Hg.
  { unfold get_model, models_by_id. rewrite foldl_insert_last, lookup_empty.
    by destruct (last _). }
  split; [done|].
  unfold validate_model_exists. fold (get_model reg model_id). rewrite Hg. clear Hg.
  induction (models reg) as [|a l IH] using rev_ind; [done|].
  rewrite List.filter_app, existsb_app. simpl.
  destruct (String.eqb (id a) model_id).
  - rewrite last_snoc, orb_true_r. by apply bool_decide_eq_true_2.
  - rewrite app_nil_r. simpl. by rewrite orb_false_r.
Qed.

Lemma models_by_provider_fold (l : list ModelSpec) p :
  default [] (foldl (fun d model =>
                       let d1 := match d !! provider model with
                                 | Some _ => d
                                 | None => <[provider model := []]> d
                                 end in
                       <[provider model := default [] (d1 !! provider model) ++ [model]]> d1)
                    (∅ : gmap string (list ModelSpec)) l !! p) =
  List.filter (fun m => String.eqb (provider m) p) l.
Proof.
  induction l as [|a l IH] using rev_ind; [done|].
  rewrite foldl_app, List.filter_app. simpl.
  set (d := foldl _ _ l) in *.
  destruct (String.eqb_spec (provider a) p) as [<-|Hne].
  - rewrite lookup_insert_eq. simpl. rewrite <- IH.
    destruct (d !! provider a) eqn:E; [by rewrite E|]. by rewrite lookup_insert_eq.
  - rewrite lookup_insert_ne by done. rewrite app_nil_r, <- IH.
    destruct (d !! provider a) eqn:E; [done|]. by rewrite lookup_insert_ne.
Qed.

(** X19.  The index by provider that [load_config] builds gives, for each
    provider, the configured models of that provider in their configured
    order, and the empty list for a provider without models. *)
Theorem get_models_by_provider_is_filter (reg : ModelRegistry) (p : string) :
  get_models_by_provider reg p =
  List.filter (fun m => String.eqb (provider m) p) (models reg).
Proof. apply models_by_provider_fold. Qed.

End RegistryProps.

(** ** What the router chooses *)

Module RouterChoices.
Import Registry Router.

Lemma key_leb_spec a1 a2 a3 b1 b2 b3 :
  key_leb (a1, a2, a3) (b1, b2, b3) = true <->
  a1 < b1 \/ (a1 = b1 /\ (a2 < b2 \/ (a2 = b2 /\ a3 <= b3))).
Proof.
  unfold key_leb.
  rewrite !orb_true_iff, !andb_true_iff, !orb_true_iff, !andb_true_iff.
  rewrite !Z.ltb_lt, !Z.eqb_eq, Z.leb_le. done.
Qed.

Lemma key_leb_total a b : key_leb a b = true \/ key_leb b a = true.
Proof.
  destruct a as [[a1 a2] a3], b as [[b1 b2] b3]. rewrite !key_leb_spec. lia.
Qed.

Lemma key_leb_refl a : key_leb a a = true.
Proof. destruct a as [[a1 a2] a3]. rewrite key_leb_spec. lia. Qed.

Lemma key_leb_trans a b c :
  key_leb a b = true -> key_leb b c = true -> key_leb a c = true.
Proof.
  destruct a as [[a1 a2] a3], b as [[b1 b2] b3], c as [[c1 c2] c3].
  rewrite !key_leb_spec. lia.
Qed.

Lemma sorted_head_least {A : Type} (key : A -> Z * Z * Z) x l :
  Sorted (fun a b => key_leb (key a) (key b) = true) (x :: l) ->
  Forall (fun y => key_leb (key x) (key y) = true) (x :: l).
Proof.
  intros Hs. constructor; [apply key_leb_refl|].
  apply Sorted_StronglySorted in Hs.
  - by apply StronglySorted_inv in Hs as [_ ?].
  - intros a b c. apply key_leb_trans.
Qed.

Lemma filter_sublist {A : Type} (f : A -> bool) l : sublist (List.filter f l) l.
Proof.
  induction l as [|x l IH]; simpl; [done|].
  destruct (f x); by constructor.
Qed.


Section WithRegex.
Variable re_search : string -> string -> option bool.




(** X21.  A non-empty override that names a registered model able to serve the
    context is taken as the primary, before any rule is looked at: the
    route is [user_override] with a 60 s timeout, and the synthesised
    fallbacks are at most three ids of registered models that can serve
    the context, none of them the override itself. *)
Theorem user_override_is_honoured
    (reg : ModelRegistry) (ctx : RoutingContext) (o : string) (m : ModelSpec) :
  o <> EmptyString ->
  get_model reg o = Some m ->
  _validate_capabilities m ctx = true ->
  exists d,
    route re_search reg ctx (Some o) = inr d /\
    primary_model_id d = o /\ route_name d = "user_override" /\
    d_timeout_ms d = 60000 /\
    (length (fallback_model_ids d) <= 3)%nat /\
    ~ In o (fallback_model_ids d) /\
    Forall (fun x => exists m', m' ∈ models reg /\ id m' = x /\
                                _validate_capabilities m' ctx = true)
           (fallback_model_ids d).
Proof.
  intros Ho Hm Hv. unfold route. destruct o as [|c o]; [done|].
  rewrite Hm, Hv. eexists. split; [reflexivity|]. simpl.
  repeat (split; [done|]).
  apply RouterProps.get_model_in in Hm as [_ Hid].
  assert (Forall (fun m' => m' ∈ models reg /\ id m' <> String c o /\
                            _validate_capabilities m' ctx = true)
            (take 3 (sort_by (fun a b => key_leb (fallback_key a) (fallback_key b))
               (List.filter (fun m' => negb (String.eqb (id m') (id m))
                                       && _validate_capabilities m' ctx)
                            (models reg))))) as Hall.
  { apply Forall_take, sort_by_Forall, List.Forall_forall. intros m' Hin.
    apply List.filter_In in Hin as [Hin Hf]. apply andb_true_iff in Hf as [Hne Hv'].
    split; [by apply list_elem_of_In|]. split; [|done].
    apply negb_true_iff, String.eqb_neq in Hne. congruence. }
  unfold _get_fallback_models. split; [|split].
  - rewrite length_map, length_take. lia.
  - intros Hin. apply in_map_iff in Hin as (m' & Hid' & Hin).
    rewrite List.Forall_forall in Hall. by destruct (Hall _ Hin) as (_ & Hne & _).
  - apply Forall_map. eapply Forall_impl; [exact Hall|].
    intros m' (Hin & _ & Hv'). by exists m'.
Qed.

(** X22.  When no rule gives a decision and some registered model can serve the
    context, the default route picks a model that can, and that is first
    in the order fastest, then cheapest, then most reliable among all
    registered models that can; the fallbacks are the next ones in that
    order, three at most. *)
Theorem default_route_is_best
    (reg : ModelRegistry) (ctx : RoutingContext) (d : RoutingDecision) :
  _get_default_route reg ctx = inr d ->
  feasible reg ctx ->
  route_name d = "default" /\
  (exists p, p ∈ models reg /\ id p = primary_model_id d /\
             _validate_capabilities p ctx = true /\
             Forall (fun m => _validate_capabilities m ctx = true ->
                              key_leb (default_key p) (default_key m) = true)
                    (models reg)) /\
  length (fallback_model_ids d) =
    Nat.min 3 (length (List.filter (fun m => _validate_capabilities m ctx) (models reg)) - 1).
Proof.
  intros Hd Hf. apply RouterProps.feasible_filter in Hf.
  unfold _get_default_route in Hd.
  set (cands := List.filter (fun m => _validate_capabilities m ctx) (models reg)) in *.
  pose proof (sort_by_Permutation
                (fun a b => key_leb (default_key a) (default_key b)) cands) as Hp.
  pose proof (sort_by_Sorted (fun a b => key_leb (default_key a) (default_key b))
                (fun x y => key_leb_total (default_key x) (default_key y)) cands) as Hs.
  destruct cands as [|c cs] eqn:Ec; [done|].
  destruct (sort_by _ (c :: cs)) as [|p rest] eqn:Es;
    [by apply Permutation_nil_l in Hp|].
  injection Hd as <-. cbn [route_name primary_model_id fallback_model_ids].
  split; [done|]. split.
  - assert (In p (List.filter (fun m => _validate_capabilities m ctx) (models reg))) as Hin.
    { fold cands. rewrite Ec. apply (Permutation_in _ Hp). by left. }
    apply List.filter_In in Hin as [Hin Hv].
    exists p. split; [by apply list_elem_of_In|]. split; [done|]. split; [done|].
    apply List.Forall_forall. intros m Hm Hvm.
    assert (In m (p :: rest)) as Hmp.
    { apply (Permutation_in _ (Permutation_sym Hp)). rewrite <- Ec. unfold cands.
      apply List.filter_In. done. }
    pose proof (sorted_head_least default_key p rest Hs) as Hleast.
    rewrite List.Forall_forall in Hleast. by apply Hleast.
  - rewrite length_map, length_take.
    apply Permutation_length in Hp. cbn [length] in *. lia.
Qed.


End WithRegex.

Lemma user_override_is_honoured_witness :
  exists d,
    route Samples.no_match Samples.coder_and_gpt4 Samples.tools_context
      (Some "gpt-4") = inr d /\
    primary_model_id d = "gpt-4" /\ route_name d = "user_override".
Proof.
  destruct (user_override_is_honoured Samples.no_match Samples.coder_and_gpt4
              Samples.tools_context "gpt-4" Samples.gpt_4)
    as (d & Hr & Hp & Hn & _); [done|vm_compute; reflexivity|vm_compute; reflexivity|].
  by exists d.
Defined.

Lemma default_route_is_best_witness :
  _get_default_route MoreSamples.five_models MoreSamples.plain_context
    = inr MoreSamples.default_of_five /\
  (exists p, p ∈ models MoreSamples.five_models /\
             id p = "gpt-3.5-turbo" /\
             Forall (fun m => _validate_capabilities m MoreSamples.plain_context = true ->
                              key_leb (default_key p) (default_key m) = true)
                    (models MoreSamples.five_models)) /\
  fallback_model_ids MoreSamples.default_of_five
    = ["deepseek-chat"; "deepseek-coder"; "gpt-4"] /\
  length (fallback_model_ids MoreSamples.default_of_five) = Nat.min 3 (5 - 1).
Proof.
  assert (_get_default_route MoreSamples.five_models MoreSamples.plain_context
          = inr MoreSamples.default_of_five) as Hd by (vm_compute; reflexivity).
  destruct (default_route_is_best MoreSamples.five_models MoreSamples.plain_context
              MoreSamples.default_of_five Hd) as (_ & (p & Hin & Hid & _ & Hbest) & Hl).
  { exists Samples.gpt_4. split; [by left|reflexivity]. }
  split; [exact Hd|]. split; [|split; [reflexivity|exact Hl]].
  exists p. split; [exact Hin|]. split; [exact Hid|exact Hbest].
Defined.


End RouterChoices.

(** ** More on the reranker *)

Module RerankerMore.
Import Reranker.

(** *** The tokenizer *)

Lemma lower_chars s :
  Forall (fun c => Registry.lower_ascii c = c) (list_ascii_of_string (Registry.lower s)).
Proof.
  induction s as [|c s IH]; simpl; constructor; [|done].
  apply AdapterProps.lower_ascii_idem.
Qed.

Lemma split_words_tokens s : forall cur,
  Forall (fun c => is_word c = true /\ Registry.lower_ascii c = c) cur ->
  Forall (fun c => Registry.lower_ascii c = c) (list_ascii_of_string s) ->
  Forall (fun t => t <> EmptyString /\
                   Forall (fun c => is_word c = true /\ Registry.lower_ascii c = c)
                          (list_ascii_of_string t))
         (split_words s cur).
Proof.
  assert (forall cur,
             Forall (fun c => is_word c = true /\ Registry.lower_ascii c = c) cur ->
             Forall (fun t => t <> EmptyString /\
                              Forall (fun c => is_word c = true /\ Registry.lower_ascii c = c)
                                     (list_ascii_of_string t))
                    (flush cur)) as Hflush.
  { intros [|c cur] Hc; simpl; constructor; [|constructor].
    split; [done|]. change (String c (string_of_list_ascii cur))
      with (string_of_list_ascii (c :: cur)).
    by rewrite list_ascii_of_string_of_list_ascii. }
  induction s as [|c s IH]; intros cur Hcur Hs; simpl; [by apply Hflush|].
  simpl in Hs. apply Forall_cons in Hs as [Hc Hs].
  destruct (is_word c) eqn:E.
  - apply IH; [|done]. apply Forall_app. split; [done|]. by repeat constructor.
  - apply Forall_app. split; [by apply Hflush|]. apply IH; [constructor|done].
Qed.

(** X24.  Every token that [_tokenize] gives is a non-empty run of word
    characters (letters, digits, underscore) without upper-case letters,
    and the tokens of a text do not depend on the case of its letters. *)
Theorem tokens_are_lowercase_words (text : string) :
  Forall (fun t => t <> EmptyString /\
                   Forall (fun c => is_word c = true /\ Registry.lower_ascii c = c)
                          (list_ascii_of_string t))
         (_tokenize text) /\
  _tokenize (Registry.lower text) = _tokenize text.
Proof.
  unfold _tokenize. split.
  - apply split_words_tokens; [constructor|apply lower_chars].
  - by rewrite AdapterProps.lower_idem.
Qed.

(** *** Term counts *)

Lemma Counter_get t tokens :
  dict_get t (Counter tokens) =
  match length (List.filter (String.eqb t) tokens) with
  | O => None
  | S n => Some (S n)
  end.
Proof.
  unfold Counter. induction tokens as [|a l IH] using rev_ind; [done|].
  rewrite foldl_app, List.filter_app, length_app. simpl.
  destruct (String.eqb_spec t a) as [<-|Hne]; simpl.
  - rewrite DictFacts.dict_get_set_eq, IH.
    destruct (length _); simpl; f_equal; lia.
  - rewrite DictFacts.dict_get_set_ne by done. rewrite IH, Nat.add_0_r. done.
Qed.

Lemma Counter_positive t tokens n :
  dict_get t (Counter tokens) = Some n -> (1 <= n)%nat.
Proof. rewrite Counter_get. destruct (length _); [done|]. intros [= <-]. lia. Qed.

Lemma Counter_absent t tokens :
  ~ In t tokens -> dict_get t (Counter tokens) = None.
Proof.
  intros Hn. rewrite Counter_get.
  destruct (List.filter (String.eqb t) tokens) as [|x l] eqn:E; [done|].
  assert (In x (List.filter (String.eqb t) tokens)) as Hx by (rewrite E; by left).
  apply List.filter_In in Hx as [Hx Heq]. apply String.eqb_eq in Heq as ->. done.
Qed.

(** *** Inverse document frequency *)

Lemma calculate_idf_get chunks term : forall query_terms,
  In term query_terms ->
  dict_get term (_calculate_idf query_terms chunks) =
  Some (idf_of (length chunks) (length (List.filter (contains_term term) chunks))).
Proof.
  unfold _calculate_idf.
  induction query_terms as [|a l IH] using rev_ind; [done|].
  intros Hin. rewrite foldl_app. simpl.
  destruct (String.eqb_spec term a) as [<-|Hne].
  - apply DictFacts.dict_get_set_eq.
  - rewrite DictFacts.dict_get_set_ne by done. apply IH.
    apply in_app_or in Hin as [?|[?|[]]]; [done|congruence].
Qed.

Lemma ln_neg_iff x : (0 < x)%R -> (ln x < 0 <-> x < 1)%R.
Proof.
  intros Hx. split.
  - intros Hl. destruct (Rlt_dec x 1) as [|Hge]; [done|].
    assert (1 <= x)%R as [Hlt|<-] by lra.
    + pose proof (ln_increasing 1 x ltac:(lra) Hlt) as H. rewrite ln_1 in H. lra.
    + rewrite ln_1 in Hl. lra.
  - intros Hlt. pose proof (ln_increasing x 1 Hx Hlt) as H. by rewrite ln_1 in H.
Qed.

Lemma idf_of_sign N df :
  (0 < df)%nat -> (df <= N)%nat ->
  ((idf_of N df < 0)%R <-> (N < 2 * df)%nat).
Proof.
  intros Hdf Hle. unfold idf_of. destruct df as [|d]; [lia|].
  set (df := S d) in *.
  assert (0 < INR df)%R as Hpos by (apply lt_0_INR; lia).
  assert (INR df <= INR N)%R as HleR by (by apply le_INR).
  rewrite ln_neg_iff.
  2:{ apply Rdiv_lt_0_compat; lra. }
  split.
  - intros H. apply INR_lt. rewrite mult_INR. simpl (INR 2).
    apply (Rmult_lt_compat_r (INR df + 0.5)) in H; [|lra].
    unfold Rdiv in H. rewrite Rmult_assoc, Rinv_l in H by lra. lra.
  - intros H. apply lt_INR in H. rewrite mult_INR in H. simpl (INR 2) in H.
    apply (Rmult_lt_reg_r (INR df + 0.5)); [lra|].
    unfold Rdiv. rewrite Rmult_assoc, Rinv_l by lra. lra.
Qed.

(** X25.  The IDF that [_calculate_idf] stores for a query term is 0 when the
    term occurs in no candidate, and otherwise is negative exactly when
    the term occurs in more than half of the candidates. *)
Theorem idf_negative_for_common_terms
    (query_terms : list string) (chunks : list RAGChunk) (term : string) :
  In term query_terms ->
  let df := length (List.filter (contains_term term) chunks) in
  exists v,
    dict_get term (_calculate_idf query_terms chunks) = Some v /\
    (df = 0%nat -> v = 0%R) /\
    ((0 < df)%nat -> ((v < 0)%R <-> (length chunks < 2 * df)%nat)).
Proof.
  intros Hin df. eexists. split; [by apply calculate_idf_get|]. fold df. split.
  - by intros ->.
  - intros Hdf. apply idf_of_sign; [done|]. apply List.filter_length_le.
Qed.

Lemma idf_negative_for_common_terms_witness :
  exists v,
    dict_get "python" (_calculate_idf ["python"] [Samples.python_chunk]) = Some v /\
    (v < 0)%R.
Proof.
  destruct (idf_negative_for_common_terms ["python"] [Samples.python_chunk] "python")
    as (v & Hv & _ & Hneg); [by left|].
  exists v. split; [exact Hv|]. apply Hneg; vm_compute; lia.
Defined.

(** *** The lexical score *)

Lemma Rltb_true x y : Rltb x y = true -> (x < y)%R.
Proof. unfold Rltb. by destruct (Rlt_dec x y). Qed.

Lemma Rltb_false x y : Rltb x y = false -> ~ (x < y)%R.
Proof. unfold Rltb. by destruct (Rlt_dec x y). Qed.

Lemma dict_get_values {V : Type} t (d : list (string * V)) v :
  dict_get t d = Some v -> In v (values d).
Proof.
  induction d as [|[k w] d IH]; simpl; [done|].
  destruct (String.eqb t k); [intros [= <-]; by left|]. intros H. right. by apply IH.
Qed.

Lemma Rsum_fold_right a l : foldl Rplus a l = (a + fold_right Rplus 0 l)%R.
Proof.
  revert a. induction l as [|x l IH]; intros a; simpl; [lra|]. rewrite IH. lra.
Qed.

Lemma Rsum_nonneg l : Forall (fun v => (0 <= v)%R) l -> (0 <= Rsum l)%R.
Proof.
  unfold Rsum. rewrite Rsum_fold_right.
  induction 1 as [|x l Hx Hl IH]; simpl in *; lra.
Qed.

Lemma Rsum_zero l :
  Forall (fun v => (0 <= v)%R) l -> (Rsum l <= 0)%R -> Forall (fun v => v = 0%R) l.
Proof.
  unfold Rsum. rewrite Rsum_fold_right.
  induction 1 as [|x l Hx Hl IH]; simpl; intros Hs; constructor.
  - assert (0 <= fold_right Rplus 0 l)%R.
    { clear -Hl. induction Hl; simpl; lra. }
    lra.
  - apply IH. assert (0 <= fold_right Rplus 0 l)%R.
    { clear -Hl. induction Hl; simpl; lra. }
    lra.
Qed.

Section Bm25.
Variable self : LexicalReranker.
Variable doc_term_freq : list (string * nat).
Variable doc_length : nat.
Variable avg_doc_length : R.
Variable idf_scores : list (string * R).

Lemma norm_nonneg :
  (0 <= b self <= 1)%R ->
  (0 <= (if Rltb 0 avg_doc_length
         then 1 - b self + b self * (INR doc_length / avg_doc_length)
         else 1))%R.
Proof.
  intros Hb. unfold Rltb. destruct (Rlt_dec 0 avg_doc_length) as [Ha|_]; [|lra].
  assert (0 <= INR doc_length / avg_doc_length)%R.
  { apply Rle_mult_inv_pos; [apply pos_INR|done]. }
  assert (0 <= b self * (INR doc_length / avg_doc_length))%R
    by (apply Rmult_le_pos; lra).
  lra.
Qed.

Lemma bm25_fold_nonneg (query_term_freq : list (string * nat)) :
  (0 <= k1 self)%R -> (0 <= b self <= 1)%R ->
  Forall (fun v => (0 <= v)%R) (values idf_scores) ->
  (forall t n, dict_get t doc_term_freq = Some n -> (1 <= n)%nat) ->
  forall s0, (0 <= s0)%R ->
  (0 <= foldl (fun score '(term, query_freq) =>
                 match dict_get term doc_term_freq with
                 | None => score
                 | Some tf =>
                     let norm :=
                       if Rltb 0 avg_doc_length
                       then (1 - b self + b self * (INR doc_length / avg_doc_length))%R
                       else 1%R in
                     let term_score :=
                       (default 0%R (dict_get term idf_scores) *
                        (INR tf * (k1 self + 1)) /
                        (INR tf + k1 self * norm))%R in
                     (score + term_score)%R
                 end) s0 query_term_freq)%R.
Proof.
  intros Hk Hb Hidf Htf.
  induction query_term_freq as [|[term qf] l IH]; intros s0 Hs0; simpl; [done|].
  apply IH. destruct (dict_get term doc_term_freq) as [tf|] eqn:E; [|done].
  apply Htf in E. apply le_INR in E. simpl in E.
  pose proof (norm_nonneg Hb) as Hn.
  assert (0 <= default 0 (dict_get term idf_scores))%R as Hi.
  { destruct (dict_get term idf_scores) as [v|] eqn:Ev; simpl; [|lra].
    apply dict_get_values in Ev. rewrite List.Forall_forall in Hidf. by apply Hidf. }
  cbv zeta.
  assert (0 <= k1 self * (if Rltb 0 avg_doc_length
                          then 1 - b self + b self * (INR doc_length / avg_doc_length)
                          else 1))%R by (by apply Rmult_le_pos).
  assert (0 <= default 0 (dict_get term idf_scores) * (INR tf * (k1 self + 1)))%R.
  { apply Rmult_le_pos; [done|]. apply Rmult_le_pos; lra. }
  assert (0 <= default 0 (dict_get term idf_scores) * (INR tf * (k1 self + 1)) /
               (INR tf + k1 self * (if Rltb 0 avg_doc_length
                                    then 1 - b self + b self * (INR doc_length / avg_doc_length)
                                    else 1)))%R.
  { apply Rle_mult_inv_pos; [done|lra]. }
  lra.
Qed.

Lemma bm25_fold_zero_idf (query_term_freq : list (string * nat)) :
  Forall (fun v => v = 0%R) (values idf_scores) ->
  forall s0,
  foldl (fun score '(term, query_freq) =>
           match dict_get term doc_term_freq with
           | None => score
           | Some tf =>
               let norm :=
                 if Rltb 0 avg_doc_length
                 then (1 - b self + b self * (INR doc_length / avg_doc_length))%R
                 else 1%R in
               let term_score :=
                 (default 0%R (dict_get term idf_scores) *
                  (INR tf * (k1 self + 1)) /
                  (INR tf + k1 self * norm))%R in
               (score + term_score)%R
           end) s0 query_term_freq = s0.
Proof.
  intros Hidf. induction query_term_freq as [|[term qf] l IH]; intros s0; simpl; [done|].
  rewrite IH. destruct (dict_get term doc_term_freq) as [tf|]; [|done].
  assert (default 0%R (dict_get term idf_scores) = 0%R) as ->.
  { destruct (dict_get term idf_scores) as [v|] eqn:Ev; simpl; [|done].
    apply dict_get_values in Ev. rewrite List.Forall_forall in Hidf. by apply Hidf. }
  cbv zeta. unfold Rdiv. rewrite !Rmult_0_l. lra.
Qed.

Lemma bm25_fold_absent (query_term_freq : list (string * nat)) :
  Forall (fun t => dict_get t doc_term_freq = None) (keys query_term_freq) ->
  forall s0,
  foldl (fun score '(term, query_freq) =>
           match dict_get term doc_term_freq with
           | None => score
           | Some tf =>
               let norm :=
                 if Rltb 0 avg_doc_length
                 then (1 - b self + b self * (INR doc_length / avg_doc_length))%R
                 else 1%R in
               let term_score :=
                 (default 0%R (dict_get term idf_scores) *
                  (INR tf * (k1 self + 1)) /
                  (INR tf + k1 self * norm))%R in
               (score + term_score)%R
           end) s0 query_term_freq = s0.
Proof.
  induction query_term_freq as [|[term qf] l IH]; intros Hn s0; simpl; [done|].
  apply Forall_cons in Hn as [Hn Hl]. simpl in Hn. rewrite Hn. by apply IH.
Qed.
End Bm25.

(** X26.  When no stored IDF is negative (no query term occurs in more than
    half of the candidates), and [k1 >= 0] and [0 <= b <= 1] as in the
    defaults, the lexical score is within the interval from 0 to 1. *)
Theorem bm25_score_in_unit_interval
    (self : LexicalReranker) (query_term_freq : list (string * nat))
    (document : string) (doc_length : nat) (avg_doc_length : R)
    (idf_scores : list (string * R)) :
  (0 <= k1 self)%R -> (0 <= b self <= 1)%R ->
  Forall (fun v => (0 <= v)%R) (values idf_scores) ->
  (0 <= _bm25_score self query_term_freq document doc_length avg_doc_length idf_scores
     <= 1)%R.
Proof.
  intros Hk Hb Hidf. unfold _bm25_score. cbv zeta.
  set (score := foldl _ 0%R query_term_freq).
  assert (0 <= score)%R as Hs.
  { exact (bm25_fold_nonneg self (Counter (_tokenize document)) doc_length
             avg_doc_length idf_scores query_term_freq Hk Hb Hidf
             (fun t n => Counter_positive t _ n) 0%R (Rle_refl 0)). }
  destruct (Rltb 0 (Rsum (values idf_scores) * (k1 self + 1))) eqn:Em.
  - apply Rltb_true in Em.
    split; [|apply Rmin_r]. apply Rmin_glb; [|lra].
    by apply Rle_mult_inv_pos.
  - apply Rltb_false in Em. split; [done|].
    assert (Rsum (values idf_scores) <= 0)%R as Hz.
    { pose proof (Rsum_nonneg _ Hidf). nra. }
    assert (score = 0%R) as ->; [|lra].
    exact (bm25_fold_zero_idf self (Counter (_tokenize document)) doc_length
             avg_doc_length idf_scores query_term_freq (Rsum_zero _ Hidf Hz) 0%R).
Qed.

Lemma bm25_score_in_unit_interval_witness :
  (0 <= _bm25_score default_reranker [("python", 1%nat)] "python" 1 1 [("python", 1%R)]
     <= 1)%R.
Proof.
  apply (bm25_score_in_unit_interval default_reranker [("python", 1%nat)] "python" 1 1
           [("python", 1%R)]).
  - simpl. lra.
  - simpl. lra.
  - constructor; [simpl; lra|constructor].
Defined.

(** X27.  A document that shares no token with the query has lexical score 0,
    whatever the IDF values are. *)
Theorem bm25_no_shared_term_is_zero
    (self : LexicalReranker) (query_term_freq : list (string * nat))
    (document : string) (doc_length : nat) (avg_doc_length : R)
    (idf_scores : list (string * R)) :
  Forall (fun t => ~ In t (_tokenize document)) (keys query_term_freq) ->
  _bm25_score self query_term_freq document doc_length avg_doc_length idf_scores = 0%R.
Proof.
  intros Hn. unfold _bm25_score. cbv zeta.
  set (score := foldl _ 0%R query_term_freq).
  assert (score = 0%R) as ->.
  { apply (bm25_fold_absent self (Counter (_tokenize document)) doc_length
             avg_doc_length idf_scores query_term_freq).
    eapply Forall_impl; [exact Hn|]. intros t Ht. by apply Counter_absent. }
  destruct (Rltb 0 _); [|done].
  unfold Rdiv. rewrite Rmult_0_l. apply Rmin_left. lra.
Qed.

Lemma bm25_no_shared_term_is_zero_witness :
  _bm25_score default_reranker [("python", 1%nat)] "completely different text" 3 2
    [("python", ln (1 / 3))] = 0%R.
Proof.
  apply (bm25_no_shared_term_is_zero default_reranker [("python", 1%nat)]
           "completely different text" 3 2 [("python", ln (1 / 3))]).
  repeat constructor. vm_compute. intros [H|[H|[H|[]]]]; discriminate H.
Defined.

(** *** The result of [rerank] *)

Lemma rerank_scored self t0 t1 query chunks top_k :
  exists scored,
    map chunk scored = chunks /\
    Forall (fun rc => rc_vector_score rc = vector_score (chunk rc) /\
                      final_score rc =
                        (vector_weight self * vector_score (chunk rc) +
                         lexical_weight self * rerank_score rc)%R) scored /\
    ranked_chunks (rerank self t0 t1 query chunks top_k) =
      let sorted := sort_by (fun x y => Rleb (final_score y) (final_score x)) scored in
      match top_k with
      | None => sorted
      | Some k => if k =? 0 then sorted else py_take k sorted
      end.
Proof.
  destruct chunks as [|c cs].
  - exists []. split; [done|]. split; [constructor|]. simpl.
    destruct top_k as [k|]; [|done]. destruct (k =? 0); [done|].
    unfold py_take. by destruct (0 <=? k); rewrite take_nil.
  - unfold rerank. eexists. split; [|split; [|reflexivity]].
    + rewrite <- list_fmap_compose.
      erewrite (list_fmap_ext _ fst); [|by intros i [c' n] _].
      apply fst_zip. by rewrite length_map.
    + apply Forall_map. apply Forall_forall. intros [c' n] _. done.
Qed.

(** X28.  For a reranker with [k1 >= 0] and [0 <= b <= 1] (as in the
    defaults) no denominator of a term score is 0, and, scores being
    real numbers, what [rerank] returns is a selection of the
    candidates, each at most as often as it was given: with the chunks
    that were cut off, it is a rearrangement of the input.  Each entry
    carries the vector score of its chunk and the weighted sum of the two
    scores as final score, the entries are in descending order of final
    score, and their number is: all of them for [top_k] absent or 0, the
    first [top_k] for a positive [top_k], and all but the last [-top_k]
    for a negative one. *)
Theorem rerank_is_sorted_selection
    (self : LexicalReranker) (t0 t1 : Q) (query : string) (chunks : list RAGChunk)
    (top_k : option Z) :
  (0 <= k1 self)%R -> (0 <= b self <= 1)%R ->
  let result := ranked_chunks (rerank self t0 t1 query chunks top_k) in
  (forall (tf doc_length : nat) (avg_doc_length : R),
     (1 <= tf)%nat ->
     (0 < INR tf + k1 self *
            (if Rltb 0 avg_doc_length
             then 1 - b self + b self * (INR doc_length / avg_doc_length)
             else 1))%R) /\
  sorted_desc result /\
  (exists dropped, Permutation (map chunk result ++ dropped) chunks) /\
  Forall (fun rc => rc_vector_score rc = vector_score (chunk rc) /\
                    final_score rc =
                      (vector_weight self * vector_score (chunk rc) +
                       lexical_weight self * rerank_score rc)%R) result /\
  Z.of_nat (length result) =
    match top_k with
    | None => Z.of_nat (length chunks)
    | Some k =>
        if k =? 0 then Z.of_nat (length chunks)
        else if 0 <? k then Z.min k (Z.of_nat (length chunks))
        else Z.max 0 (Z.of_nat (length chunks) + k)
    end.
Proof.
  intros Hk Hb result. split.
  { intros tf doc_length avg_doc_length Htf.
    pose proof (norm_nonneg self doc_length avg_doc_length Hb) as Hn.
    apply le_INR in Htf. simpl in Htf.
    assert (0 <= k1 self * (if Rltb 0 avg_doc_length
                            then 1 - b self + b self * (INR doc_length / avg_doc_length)
                            else 1))%R by (by apply Rmult_le_pos).
    lra. }
  split; [apply RerankerProps.rerank_sorted|].
  subst result.
  destruct (rerank_scored self t0 t1 query chunks top_k) as (scored & Hc & Hf & ->).
  cbv zeta.
  set (sorted := sort_by (fun x y => Rleb (final_score y) (final_score x)) scored).
  assert (Permutation sorted scored) as Hp by apply sort_by_Permutation.
  assert (length sorted = length chunks) as Hl.
  { rewrite (Permutation_length Hp), <- Hc. by rewrite length_map. }
  assert (Forall (fun rc => rc_vector_score rc = vector_score (chunk rc) /\
                    final_score rc =
                      (vector_weight self * vector_score (chunk rc) +
                       lexical_weight self * rerank_score rc)%R) sorted) as Hfs
    by (by apply sort_by_Forall).
  assert (forall n,
             (exists dropped, Permutation (map chunk (take n sorted) ++ dropped) chunks) /\
             Forall (fun rc => rc_vector_score rc = vector_score (chunk rc) /\
                    final_score rc =
                      (vector_weight self * vector_score (chunk rc) +
                       lexical_weight self * rerank_score rc)%R) (take n sorted)) as Htake.
  { intros n. split; [|by apply Forall_take].
    exists (map chunk (drop n sorted)).
    rewrite <- map_app, take_drop, <- Hc. by apply Permutation_map. }
  assert ((exists dropped, Permutation (map chunk sorted ++ dropped) chunks)) as Hall.
  { exists []. rewrite app_nil_r, <- Hc. by apply Permutation_map. }
  destruct top_k as [k|]; [|by rewrite Hl].
  destruct (k =? 0) eqn:E0; [by rewrite Hl|].
  unfold py_take. destruct (0 <=? k) eqn:E1.
  - destruct (Htake (Z.to_nat k)) as [? ?]. split; [done|]. split; [done|].
    rewrite length_take, Hl. destruct (0 <? k) eqn:E2; lia.
  - destruct (Htake (Z.to_nat (Z.of_nat (length sorted) + k))) as [? ?].
    split; [done|]. split; [done|].
    rewrite length_take, Hl. destruct (0 <? k) eqn:E2; lia.
Qed.

Lemma rerank_is_sorted_selection_witness :
  let result :=
    ranked_chunks (rerank default_reranker 0 1 "python"
                     [Samples.other_chunk; Samples.python_chunk] (Some 1)) in
  sorted_desc result /\
  (exists dropped,
      Permutation (map chunk result ++ dropped)
                  [Samples.other_chunk; Samples.python_chunk]) /\
  Z.of_nat (length result) = 1.
Proof.
  destruct (rerank_is_sorted_selection default_reranker 0 1 "python"
              [Samples.other_chunk; Samples.python_chunk] (Some 1))
    as (_ & Hs & Hp & _ & Hl); [simpl; lra..|].
  split; [exact Hs|]. split; [exact Hp|exact Hl].
Defined.

End RerankerMore.

(** ** More on prompt injection *)

Module InjectionMore.
Import Reranker Injection.

Lemma view_inv h messages v :
  view h messages = Some v ->
  exists items,
    read_list h messages = Some items /\
    mapM (read_dict h) items = Some v /\
    (messages < length h)%nat.
Proof.
  unfold view. destruct (read_list h messages) as [items|] eqn:E; simpl; [|done].
  intros Hm. exists items. split; [done|]. split; [done|].
  unfold read_list in E. destruct (h !! messages) eqn:E'; [|done].
  by apply lookup_lt_Some in E'.
Qed.

Lemma view_fresh_copy (h h' : Heap) items v l :
  (forall k o, h !! k = Some o -> h' !! k = Some o) ->
  h' !! l = Some (OList items) ->
  mapM (read_dict h) items = Some v ->
  view h' l = Some v.
Proof.
  intros Hst Hl Hm. unfold view, read_list. rewrite Hl. simpl.
  eapply InjectionProps.mapM_stable; [|exact Hm].
  by apply InjectionProps.read_dict_stable.
Qed.

(** X29.  With at least one chunk and the ["system"] strategy, the call returns
    a new list: a new system message with the injected context, followed
    by the caller's messages; the caller's own list still reads as
    before. *)
Theorem system_strategy_prepends
    (repr : Value -> string) (h : Heap) (messages : loc)
    (rc : RankedChunk) (ranked : list RankedChunk) (v : list (gmap string Value)) :
  view h messages = Some v ->
  exists h',
    inject_chunks_into_prompt repr h messages (rc :: ranked) "system"
      = Some (h', length h) /\
    length h <> messages /\
    view h' (length h) =
      Some (<["role" := VStr "system"]>
              (<["content" := VStr (injection_content (rc :: ranked))]> ∅) :: v) /\
    view h' messages = Some v.
Proof.
  intros Hv. destruct (view_inv _ _ _ Hv) as (items & Hr & Hm & Hlt).
  assert (exists h', inject_chunks_into_prompt repr h messages (rc :: ranked) "system"
                     = Some (h', length h) /\
                     h' = <[length h := OList (S (length h) :: items)]>
                            ((h ++ [OList items]) ++
                             [ODict (<["role" := VStr "system"]>
                                (<["content" := VStr (injection_content (rc :: ranked))]> ∅))]))
    as (h' & Hinj & Hh').
  { unfold inject_chunks_into_prompt. rewrite Hr. simpl.
    rewrite length_app. simpl. rewrite Nat.add_1_r. by eexists. }
  exists h'. split; [done|]. split; [lia|]. split.
  - unfold view, read_list. subst h'.
    rewrite list_lookup_insert_eq by (rewrite !length_app; simpl; lia).
    simpl.
    assert (forall k o, h !! k = Some o ->
              <[length h := OList (S (length h) :: items)]>
                ((h ++ [OList items]) ++
                 [ODict (<["role" := VStr "system"]>
                    (<["content" := VStr (injection_content (rc :: ranked))]> ∅))])
                !! k = Some o) as Hst.
    { intros k o Hk. pose proof (lookup_lt_Some _ _ _ Hk).
      rewrite list_lookup_insert_ne by lia.
      rewrite lookup_app_l by (rewrite length_app; simpl; lia).
      by rewrite lookup_app_l by done. }
    assert (read_dict
              (<[length h := OList (S (length h) :: items)]>
                 ((h ++ [OList items]) ++
                  [ODict (<["role" := VStr "system"]>
                     (<["content" := VStr (injection_content (rc :: ranked))]> ∅))]))
              (S (length h)) =
            Some (<["role" := VStr "system"]>
                    (<["content" := VStr (injection_content (rc :: ranked))]> ∅))) as ->.
    { unfold read_dict. rewrite list_lookup_insert_ne by lia.
      rewrite lookup_app_r by (rewrite length_app; simpl; lia).
      rewrite length_app. simpl. by rewrite Nat.add_1_r, Nat.sub_diag. }
    simpl.
    rewrite (InjectionProps.mapM_stable _ _ _ v
               (InjectionProps.read_dict_stable _ _ Hst) Hm).
    done.
  - by apply (InjectionProps.inject_system_frame repr h messages (rc :: ranked) v h'
                (length h)).
Qed.

Lemma system_strategy_prepends_witness :
  exists h',
    inject_chunks_into_prompt (fun _ => "?") Samples.caller_heap Samples.caller_messages
      [Samples.ranked_python] "system" = Some (h', 2%nat) /\
    view h' Samples.caller_messages = Some [Samples.user_message].
Proof.
  destruct (system_strategy_prepends (fun _ => "?") Samples.caller_heap
              Samples.caller_messages Samples.ranked_python [] [Samples.user_message])
    as (h' & Hinj & _ & _ & Hv); [vm_compute; reflexivity|].
  by exists h'.
Defined.

Lemma inject_first_user_none repr h inj : forall items v,
  mapM (read_dict h) items = Some v ->
  Forall (fun m => is_user m = false) v ->
  inject_first_user repr h inj items = Some h.
Proof.
  induction items as [|l items IH]; intros v Hm Hn; simpl in *; [done|].
  destruct (read_dict h l) as [fields|] eqn:E; simpl in *; [|done].
  destruct (mapM (read_dict h) items) as [k|] eqn:Ek; simpl in *; [|done].
  injection Hm as <-. apply Forall_cons in Hn as [Hf Hn]. rewrite Hf. by apply (IH k).
Qed.

(** X30.  With a strategy other than ["system"], and for ["user"] when no
    message has the role [user], the context is injected nowhere: the call
    returns a new list that holds the caller's messages as they were, and
    raises nothing. *)
Theorem context_dropped_without_user_message
    (repr : Value -> string) (h : Heap) (messages : loc)
    (rc : RankedChunk) (ranked : list RankedChunk) (strategy : string)
    (v : list (gmap string Value)) :
  view h messages = Some v ->
  strategy <> "system" ->
  (strategy = "user" -> Forall (fun m => is_user m = false) v) ->
  exists h',
    inject_chunks_into_prompt repr h messages (rc :: ranked) strategy
      = Some (h', length h) /\
    view h' (length h) = Some v /\
    view h' messages = Some v.
Proof.
  intros Hv Hsys Huser. destruct (view_inv _ _ _ Hv) as (items & Hr & Hm & Hlt).
  assert (forall k o, h !! k = Some o -> (h ++ [OList items]) !! k = Some o) as Hst.
  { intros k o Hk. pose proof (lookup_lt_Some _ _ _ Hk). by rewrite lookup_app_l. }
  assert ((h ++ [OList items]) !! length h = Some (OList items)) as Hnew.
  { rewrite lookup_app_r by lia. by rewrite Nat.sub_diag. }
  exists (h ++ [OList items]). split; [|split].
  - unfold inject_chunks_into_prompt. rewrite Hr. simpl.
    destruct (decide (strategy = "system")); [done|].
    destruct (decide (strategy = "user")) as [Hu|]; [|done].
    rewrite (inject_first_user_none repr _ _ items v); [done| |by apply Huser].
    eapply InjectionProps.mapM_stable; [|exact Hm].
    by apply InjectionProps.read_dict_stable.
  - by apply (view_fresh_copy h _ items).
  - by apply (InjectionProps.view_stable h).
Qed.

Lemma context_dropped_without_user_message_witness :
  exists h',
    inject_chunks_into_prompt (fun _ => "?") MoreSamples.system_only_heap 1%nat
      [Samples.ranked_python] "user" = Some (h', 2%nat) /\
    view h' 2%nat = Some [MoreSamples.system_message].
Proof.
  destruct (context_dropped_without_user_message (fun _ => "?")
              MoreSamples.system_only_heap 1%nat Samples.ranked_python [] "user"
              [MoreSamples.system_message])
    as (h' & Hinj & Hnew & _).
  - vm_compute. reflexivity.
  - discriminate.
  - intros _. constructor; [vm_compute; reflexivity|constructor].
  - by exists h'.
Defined.

End InjectionMore.
